(** * PhoneDTMF: a self-calibrating Goertzel DTMF detector

    Shallow embedding of [src/PhoneDTMF.cpp] and the properties of its
    natural-language specification.

    - [float] is IEEE 754 binary32, through the executable operations of
      [SpecFloat] at precision 24 and maximal exponent 128: every [+], [-],
      [*], [/], [sqrt] and comparison of the source is one rounded
      operation, in the order in which the C++ expression evaluates.
    - Integers are [Z]; the wrap-around of the fixed-width types and the
      conversions between integers and floats are written out.
    - The Arduino calls ([analogRead], [millis], [delayMicroseconds], ...)
      are an interface [Platform] over an explicit world state.
    - The [do ... while] of [begin] has no bound in the source: it is run
      with fuel, and the outcome says whether the fuel was enough. *)

From Stdlib Require Import ZArith List Lia Bool Ascii.
From Stdlib Require Import Floats.SpecFloat.
Import ListNotations.
Local Open Scope Z_scope.

(** ** Single-precision arithmetic *)

Module F32.

Definition prec : Z := 24.
Definition emax : Z := 128.

Definition float : Type := spec_float.

Definition zero : float := S754_zero false.
Definition infinity : float := S754_infinity false.

(** Conversion of an integer, rounding to nearest even (exact below 2^24). *)
Definition of_Z (z : Z) : float := binary_normalize prec emax z 0 false.

Definition add : float -> float -> float := SFadd prec emax.
Definition sub : float -> float -> float := SFsub prec emax.
Definition mul : float -> float -> float := SFmul prec emax.
Definition div : float -> float -> float := SFdiv prec emax.
Definition sqrt : float -> float := SFsqrt prec emax.

(** [x < y] and [x > y]; both are false as soon as one side is a NaN. *)
Definition ltb (x y : float) : bool := SFltb x y.
Definition gtb (x y : float) : bool := SFltb y x.

(** The value is one of the 2^32 bit patterns of binary32. *)
Definition valid (x : float) : bool := valid_binary prec emax x.

(** Truncation toward zero, as in the conversion of a float to an integer
    type; there is no result for an infinity or a NaN. *)
Definition trunc (x : float) : option Z :=
  match x with
  | S754_zero _ => Some 0
  | S754_finite s m e => Some (cond_Zopp s (Z.shiftl (Zpos m) e))
  | S754_infinity _ | S754_nan => None
  end.

(** Conversion to an unsigned type of [bits] bits.  The C++ standard leaves
    the conversion undefined when the truncated value does not fit. *)
Definition to_unsigned (bits : Z) (x : float) : option Z :=
  match trunc x with
  | Some z => if (0 <=? z) && (z <? 2 ^ bits) then Some z else None
  | None => None
  end.

End F32.

Definition float : Type := F32.float.

(** ** What the header declares

    [PhoneDTMF.h] is not among the sources.  The constants below are the
    ones the comments of [PhoneDTMF.cpp] fix: [detect] documents its buffer
    as "an array of 8 floats" and its result as an "8-bit number", and a
    negative [magnitude] selects the automatic threshold. *)

Definition TONES : nat := 8.

(** Default value of the [magnitude] argument of [detect] (any negative
    value selects the automatic threshold). *)
Definition default_magnitude : float := F32.of_Z (-1).

(** Width of the unsigned member [_iCompensation]. *)
Definition compensation_bits : Z := 16.

(** ** Fixed-width integers *)

Definition wrap_uint (bits : Z) (z : Z) : Z := z mod 2 ^ bits.

Definition wrap_int16 (z : Z) : Z := (z + 2 ^ 15) mod 2 ^ 16 - 2 ^ 15.

(** ** Arrays of [TONES] floats *)

Definition aget (i : nat) (a : list float) : float := nth i a F32.zero.

Fixpoint aset (i : nat) (v : float) (a : list float) : list float :=
  match a, i with
  | [], _ => []
  | _ :: r, O => v :: r
  | x :: r, S j => x :: aset j v r
  end.

(** [memcpy(dst, src, n * sizeof(float))]: the first [n] floats of [dst] are
    replaced by those of [src], the rest of [dst] is kept. *)
Definition memcpy (src : list float) (n : nat) (dst : list float) : list float :=
  firstn n src ++ skipn n dst.

(** [for (i = 0; i < n; i++) body(i)] over a state of type [S]. *)
Definition for_loop {S : Type} (n : nat) (body : nat -> S -> S) (s : S) : S :=
  fold_left (fun acc i => body i acc) (seq 0 n) s.

(** ** The engine *)

Record PhoneDTMF : Type := {
  _Pin : Z;
  _iSamplesCount : Z;
  _iCompensation : Z;
  _iAdcCentre : Z;
  _iSamplesFrequence : Z;
  _iRealFrequence : Z;
  _fBaseMagnitude : float;
  _afToneCoeff : list float;
  _afQ1 : list float;
  _afQ2 : list float
}.

Definition set_Pin (v : Z) (d : PhoneDTMF) : PhoneDTMF :=
  {| _Pin := v; _iSamplesCount := _iSamplesCount d;
     _iCompensation := _iCompensation d; _iAdcCentre := _iAdcCentre d;
     _iSamplesFrequence := _iSamplesFrequence d;
     _iRealFrequence := _iRealFrequence d;
     _fBaseMagnitude := _fBaseMagnitude d; _afToneCoeff := _afToneCoeff d;
     _afQ1 := _afQ1 d; _afQ2 := _afQ2 d |}.

Definition set_Compensation (v : Z) (d : PhoneDTMF) : PhoneDTMF :=
  {| _Pin := _Pin d; _iSamplesCount := _iSamplesCount d;
     _iCompensation := v; _iAdcCentre := _iAdcCentre d;
     _iSamplesFrequence := _iSamplesFrequence d;
     _iRealFrequence := _iRealFrequence d;
     _fBaseMagnitude := _fBaseMagnitude d; _afToneCoeff := _afToneCoeff d;
     _afQ1 := _afQ1 d; _afQ2 := _afQ2 d |}.

Definition set_AdcCentre (v : Z) (d : PhoneDTMF) : PhoneDTMF :=
  {| _Pin := _Pin d; _iSamplesCount := _iSamplesCount d;
     _iCompensation := _iCompensation d; _iAdcCentre := v;
     _iSamplesFrequence := _iSamplesFrequence d;
     _iRealFrequence := _iRealFrequence d;
     _fBaseMagnitude := _fBaseMagnitude d; _afToneCoeff := _afToneCoeff d;
     _afQ1 := _afQ1 d; _afQ2 := _afQ2 d |}.

Definition set_SamplesFrequence (v : Z) (d : PhoneDTMF) : PhoneDTMF :=
  {| _Pin := _Pin d; _iSamplesCount := _iSamplesCount d;
     _iCompensation := _iCompensation d; _iAdcCentre := _iAdcCentre d;
     _iSamplesFrequence := v;
     _iRealFrequence := _iRealFrequence d;
     _fBaseMagnitude := _fBaseMagnitude d; _afToneCoeff := _afToneCoeff d;
     _afQ1 := _afQ1 d; _afQ2 := _afQ2 d |}.

Definition set_RealFrequence (v : Z) (d : PhoneDTMF) : PhoneDTMF :=
  {| _Pin := _Pin d; _iSamplesCount := _iSamplesCount d;
     _iCompensation := _iCompensation d; _iAdcCentre := _iAdcCentre d;
     _iSamplesFrequence := _iSamplesFrequence d;
     _iRealFrequence := v;
     _fBaseMagnitude := _fBaseMagnitude d; _afToneCoeff := _afToneCoeff d;
     _afQ1 := _afQ1 d; _afQ2 := _afQ2 d |}.

Definition set_BaseMagnitude (v : float) (d : PhoneDTMF) : PhoneDTMF :=
  {| _Pin := _Pin d; _iSamplesCount := _iSamplesCount d;
     _iCompensation := _iCompensation d; _iAdcCentre := _iAdcCentre d;
     _iSamplesFrequence := _iSamplesFrequence d;
     _iRealFrequence := _iRealFrequence d;
     _fBaseMagnitude := v; _afToneCoeff := _afToneCoeff d;
     _afQ1 := _afQ1 d; _afQ2 := _afQ2 d |}.

Definition set_ToneCoeff (v : list float) (d : PhoneDTMF) : PhoneDTMF :=
  {| _Pin := _Pin d; _iSamplesCount := _iSamplesCount d;
     _iCompensation := _iCompensation d; _iAdcCentre := _iAdcCentre d;
     _iSamplesFrequence := _iSamplesFrequence d;
     _iRealFrequence := _iRealFrequence d;
     _fBaseMagnitude := _fBaseMagnitude d; _afToneCoeff := v;
     _afQ1 := _afQ1 d; _afQ2 := _afQ2 d |}.

Definition set_Q1 (v : list float) (d : PhoneDTMF) : PhoneDTMF :=
  {| _Pin := _Pin d; _iSamplesCount := _iSamplesCount d;
     _iCompensation := _iCompensation d; _iAdcCentre := _iAdcCentre d;
     _iSamplesFrequence := _iSamplesFrequence d;
     _iRealFrequence := _iRealFrequence d;
     _fBaseMagnitude := _fBaseMagnitude d; _afToneCoeff := _afToneCoeff d;
     _afQ1 := v; _afQ2 := _afQ2 d |}.

Definition set_Q2 (v : list float) (d : PhoneDTMF) : PhoneDTMF :=
  {| _Pin := _Pin d; _iSamplesCount := _iSamplesCount d;
     _iCompensation := _iCompensation d; _iAdcCentre := _iAdcCentre d;
     _iSamplesFrequence := _iSamplesFrequence d;
     _iRealFrequence := _iRealFrequence d;
     _fBaseMagnitude := _fBaseMagnitude d; _afToneCoeff := _afToneCoeff d;
     _afQ1 := _afQ1 d; _afQ2 := v |}.

(** The three arrays of the engine hold [TONES] floats each. *)
Definition wf_arrays (d : PhoneDTMF) : Prop :=
  length (_afToneCoeff d) = TONES /\
  length (_afQ1 d) = TONES /\
  length (_afQ2 d) = TONES.

(** *** [PhoneDTMF::ResetDTMF] *)

Definition ResetDTMF_iter (i : nat) (d : PhoneDTMF) : PhoneDTMF :=
  let d1 := set_Q2 (aset i (F32.of_Z 0) (_afQ2 d)) d in
  set_Q1 (aset i (F32.of_Z 0) (_afQ1 d1)) d1.

Definition ResetDTMF (d : PhoneDTMF) : PhoneDTMF :=
  for_loop TONES ResetDTMF_iter d.

(** *** [PhoneDTMF::ProcessSample]

    [sample] is an [int16_t] and the subtraction [sample - _iAdcCentre] is
    done in [int] (32 bits on the targets the source names), where it cannot
    overflow; the difference is then converted to [float]. *)

Definition ProcessSample_iter (sample : Z) (i : nat) (d : PhoneDTMF) : PhoneDTMF :=
  let Q0 :=
    F32.add
      (F32.sub (F32.mul (aget i (_afToneCoeff d)) (aget i (_afQ1 d)))
               (aget i (_afQ2 d)))
      (F32.of_Z (sample - _iAdcCentre d)) in
  let d1 := set_Q2 (aset i (aget i (_afQ1 d)) (_afQ2 d)) d in
  set_Q1 (aset i Q0 (_afQ1 d1)) d1.

Definition ProcessSample (sample : Z) (d : PhoneDTMF) : PhoneDTMF :=
  for_loop TONES (ProcessSample_iter sample) d.

(** *** [PhoneDTMF::calculateMeasurement] *)

(** The locals of the first loop. *)
Record measure : Type := {
  dtmf_mag : list float;
  midMag : float;
  maxMag : float
}.

(** [sqrt(Q1*Q1 + Q2*Q2 - coeff*Q1*Q2)] for tone [i]. *)
Definition magnitude_of (d : PhoneDTMF) (i : nat) : float :=
  let q1 := aget i (_afQ1 d) in
  let q2 := aget i (_afQ2 d) in
  let c := aget i (_afToneCoeff d) in
  F32.sqrt (F32.sub (F32.add (F32.mul q1 q1) (F32.mul q2 q2))
                    (F32.mul (F32.mul c q1) q2)).

Definition measure_iter (d : PhoneDTMF) (i : nat) (l : measure) : measure :=
  let mags := aset i (magnitude_of d i) (dtmf_mag l) in
  let mid := F32.add (midMag l) (aget i mags) in
  if F32.ltb (maxMag l) (aget i mags)
  then {| dtmf_mag := mags; midMag := mid; maxMag := aget i mags |}
  else {| dtmf_mag := mags; midMag := mid; maxMag := maxMag l |}.

Definition measure_all (d : PhoneDTMF) : measure :=
  for_loop TONES (measure_iter d)
    {| dtmf_mag := repeat F32.zero TONES;
       midMag := F32.of_Z 0;
       maxMag := F32.mul (_fBaseMagnitude d) (F32.of_Z 3) |}.

(** The threshold the flags are compared with. *)
Definition resolve_threshold (magnitude : float) (l : measure) : float :=
  if F32.ltb magnitude (F32.of_Z 0)
  then F32.mul (F32.div (midMag l) (F32.of_Z (Z.of_nat TONES))) (F32.of_Z 2)
  else magnitude.

(** [if (dtmf_mag[i] > magnitude) dtmf |= (0x01 << i);] on a [uint8_t]. *)
Definition flag_iter (mags : list float) (magnitude : float)
    (i : nat) (dtmf : Z) : Z :=
  if F32.gtb (aget i mags) magnitude
  then wrap_uint 8 (Z.lor dtmf (Z.shiftl 1 (Z.of_nat i)))
  else dtmf.

(** The result is the bitmask, the caller's buffer ([None] for [NULL]) and
    the engine after the call. *)
Definition calculateMeasurement (pRet : option (list float))
    (magnitude : float) (d : PhoneDTMF)
  : Z * option (list float) * PhoneDTMF :=
  let l := measure_all d in
  let pRet' := option_map (memcpy (dtmf_mag l) TONES) pRet in
  let d' := ResetDTMF d in
  let magnitude' := resolve_threshold magnitude l in
  let dtmf := for_loop TONES (flag_iter (dtmf_mag l) magnitude') 0 in
  (dtmf, pRet', d').

(** *** [PhoneDTMF::tone2char]

    The tables [DTMF_MAP] and [DTMF_CHAR] of the header are arguments. *)

Fixpoint tone2char_from (DTMF_MAP : list Z) (DTMF_CHAR : list ascii)
    (js : list nat) (dtmf : Z) : ascii :=
  match js with
  | [] => Ascii.zero
  | j :: rest =>
      if dtmf =? nth j DTMF_MAP 0
      then nth j DTMF_CHAR Ascii.zero
      else tone2char_from DTMF_MAP DTMF_CHAR rest dtmf
  end.

Definition tone2char (DTMF_MAP : list Z) (DTMF_CHAR : list ascii)
    (dtmf : Z) : ascii :=
  tone2char_from DTMF_MAP DTMF_CHAR (seq 0 (TONES * 2)) dtmf.

(** ** The board

    The calls into the Arduino core, over an explicit world [W] (the clock,
    the analog line, ...).  [tone_coeff i f] stands for the coefficient
    [2.0f * cos((2.0f * PI * DTMF_TONES[i]) / f)] of tone [i] at the
    integer frequency [f]: [PI] and [DTMF_TONES] come from headers that
    are not among the sources, and [cos] from the C library of the target. *)

Class Platform (W : Type) : Type := {
  pinMode : Z -> W -> W;
  delay : Z -> W -> W;
  delayMicroseconds : Z -> W -> W;
  millis : W -> Z * W;
  analogRead : Z -> W -> Z * W;
  tone_coeff : nat -> Z -> float
}.

(** ** Outcomes

    A call either returns, or runs into a conversion the C++ standard
    leaves undefined, or (for the unbounded loop of [begin]) is still
    running when the fuel is spent. *)

Inductive outcome (A : Type) : Type :=
  | Ok (a : A)
  | Undefined
  | OutOfFuel.

Arguments Ok {A} a.
Arguments Undefined {A}.
Arguments OutOfFuel {A}.

Definition bind {A B : Type} (m : outcome A) (k : A -> outcome B) : outcome B :=
  match m with
  | Ok a => k a
  | Undefined => Undefined
  | OutOfFuel => OutOfFuel
  end.

Definition defined {A : Type} (o : option A) : outcome A :=
  match o with
  | Some a => Ok a
  | None => Undefined
  end.

Notation "x <- m ;; k" := (bind m (fun x => k))
  (at level 61, m at next level, k at level 200, right associativity).

Notation "' pat <- m ;; k" := (bind m (fun x => match x with pat => k end))
  (at level 61, pat pattern, m at next level, k at level 200,
   right associativity).

Section Engine.

Context {W : Type} {P : Platform W}.

(** [n] times [body], threading the engine and the world. *)
Fixpoint repeat_io (n : nat) (body : PhoneDTMF -> W -> PhoneDTMF * W)
    (d : PhoneDTMF) (w : W) : PhoneDTMF * W :=
  match n with
  | O => (d, w)
  | S k => let '(d1, w1) := body d w in repeat_io k body d1 w1
  end.

(** *** [PhoneDTMF::singleDetect] *)
Definition singleDetect (d : PhoneDTMF) (w : W) : PhoneDTMF * W :=
  let '(v, w1) := analogRead (_Pin d) w in
  (ProcessSample (wrap_int16 v) d, w1).

(** One turn of the sampling loop of [detect]. *)
Definition paced_sample (d : PhoneDTMF) (w : W) : PhoneDTMF * W :=
  let '(d1, w1) := singleDetect d w in
  (d1, delayMicroseconds (_iCompensation d1) w1).

(** [1.0f / ((fTemp / 1000.0f) / _iSamplesCount)] *)
Definition block_frequency (fTemp samples : Z) : float :=
  F32.div (F32.of_Z 1)
    (F32.div (F32.div (F32.of_Z fTemp) (F32.of_Z 1000)) (F32.of_Z samples)).

(** *** [PhoneDTMF::detect]

    The loop index is a [uint16_t] compared with the sample count: the
    body runs [_iSamplesCount] times, and not at all when that is not
    positive. *)
Definition detect (pMagnitudes : option (list float)) (magnitude : float)
    (d : PhoneDTMF) (w : W)
  : outcome (Z * option (list float) * PhoneDTMF * W) :=
  let '(t0, w0) := millis w in
  let '(d1, w1) := repeat_io (Z.to_nat (_iSamplesCount d)) paced_sample d w0 in
  let '(t1, w2) := millis w1 in
  let fTemp := wrap_uint 32 (t1 - wrap_uint 32 t0) in
  f <- defined (F32.to_unsigned 32 (block_frequency fTemp (_iSamplesCount d1))) ;;
  let '(dtmf, buf, d2) :=
    calculateMeasurement pMagnitudes magnitude (set_RealFrequence f d1) in
  Ok (dtmf, buf, d2, w2).

(** *** [PhoneDTMF::begin] *)

(** [(1000.0f / t1) * 1000.0f] *)
Definition warmup_frequency (t1 : Z) : float :=
  F32.mul (F32.div (F32.of_Z 1000) (F32.of_Z t1)) (F32.of_Z 1000).

(** [((1000.0f / maxFrequence) - (1000.0f / sampleFrequence)) * 1000.0f] *)
Definition seed_delay (maxFrequence : Z) (sampleFrequence : float) : float :=
  F32.mul
    (F32.sub (F32.div (F32.of_Z 1000) (F32.of_Z maxFrequence))
             (F32.div (F32.of_Z 1000) sampleFrequence))
    (F32.of_Z 1000).

(** Line 59: the delay is seeded only when the board samples faster than
    [maxFrequence]. *)
Definition seed_compensation (maxFrequence : Z) (sampleFrequence : float)
    (d : PhoneDTMF) : outcome PhoneDTMF :=
  if F32.gtb sampleFrequence (F32.of_Z maxFrequence)
  then
    c <- defined (F32.to_unsigned compensation_bits
                         (seed_delay maxFrequence sampleFrequence)) ;;
    Ok (set_Compensation c d)
  else Ok d.

(** Lines 47-62: timing of 1000 reads, seed of the delay, ADC centre. *)
Definition warmup (sensorPin maxFrequence : Z) (d : PhoneDTMF) (w : W)
  : outcome (PhoneDTMF * W) :=
  let d := set_Pin sensorPin d in
  let w := delay 10 (pinMode (_Pin d) w) in
  let '(t0, w) := millis w in
  let '(d, w) := repeat_io 1000 singleDetect d w in
  let '(t1', w) := millis w in
  let t1 := wrap_uint 32 (t1' - wrap_uint 32 t0) in
  let sampleFrequence := warmup_frequency t1 in
  d <- seed_compensation maxFrequence sampleFrequence d ;;
  let '(centre, w) := analogRead (_Pin d) w in
  let d := set_AdcCentre centre d in
  sf <- defined (F32.to_unsigned 32 sampleFrequence) ;;
  Ok (set_SamplesFrequence sf d, w).

(** Lines 69-70: the two adjustments of the delay after a block. *)
Definition adjust (maxFrequence : Z) (d : PhoneDTMF) : PhoneDTMF :=
  let d1 :=
    if (maxFrequence <? _iRealFrequence d) && (_iCompensation d <? 200)
    then set_Compensation (_iCompensation d + 1) d else d in
  if (_iRealFrequence d1 <? wrap_uint 32 (maxFrequence - 150))
     && (0 <? _iCompensation d1)
  then set_Compensation (_iCompensation d1 - 1) d1 else d1.

(** Lines 65-71: [do { ... } while (oldFreq != _iRealFrequence);].  The
    result carries the array [magnitudes] as the last block left it. *)
Fixpoint rate_adjust (fuel : nat) (maxFrequence : Z)
    (magnitudes : list float) (d : PhoneDTMF) (w : W)
  : outcome (list float * PhoneDTMF * W) :=
  match fuel with
  | O => OutOfFuel
  | S fuel' =>
      let oldFreq := _iRealFrequence d in
      '(_, buf, d1, w1) <- detect (Some magnitudes) default_magnitude d w ;;
      let magnitudes1 :=
        match buf with Some b => b | None => magnitudes end in
      let d2 := adjust maxFrequence d1 in
      if oldFreq =? _iRealFrequence d2
      then Ok (magnitudes1, d2, w1)
      else rate_adjust fuel' maxFrequence magnitudes1 d2 w1
  end.

(** Lines 73-76: the mean of the array [magnitudes]. *)
Definition mean_magnitude (magnitudes : list float) : float :=
  F32.div
    (for_loop TONES (fun j acc => F32.add acc (aget j magnitudes))
              (F32.of_Z 0))
    (F32.of_Z (Z.of_nat TONES)).

(** Lines 78-89: the coefficient of every tone at the measured rate. *)
Definition compute_coefficients (d : PhoneDTMF) : PhoneDTMF :=
  for_loop TONES
    (fun i d => set_ToneCoeff
                  (aset i (tone_coeff i (_iRealFrequence d)) (_afToneCoeff d)) d)
    d.

(** Lines 73-92, after the loop. *)
Definition finish (magnitudes : list float) (d : PhoneDTMF) : Z * PhoneDTMF :=
  let d := set_BaseMagnitude (mean_magnitude magnitudes) d in
  let d := compute_coefficients d in
  let d := ResetDTMF d in
  (wrap_uint 16 (_iRealFrequence d), d).

(** The local array [magnitudes] is not initialised; [detect] overwrites
    it before it is read. *)
Definition begin (fuel : nat) (sensorPin maxFrequence : Z)
    (d : PhoneDTMF) (w : W) : outcome (Z * PhoneDTMF * W) :=
  '(d1, w1) <- warmup sensorPin maxFrequence d w ;;
  '(magnitudes, d2, w2) <-
    rate_adjust fuel maxFrequence (repeat F32.zero TONES) d1 w1 ;;
  let '(r, d3) := finish magnitudes d2 in
  Ok (r, d3, w2).

End Engine.

(** The loops and the arithmetic are opened by hand in the proofs. *)
Arguments for_loop : simpl never.
Arguments ProcessSample : simpl never.
Arguments ResetDTMF : simpl never.
Arguments measure_all : simpl never.
Arguments calculateMeasurement : simpl never.
Arguments block_frequency : simpl never.
Arguments wrap_uint : simpl never.
Arguments wrap_int16 : simpl never.
Arguments bind : simpl never.
Arguments defined : simpl never.
Arguments F32.of_Z : simpl never.
Arguments F32.to_unsigned : simpl never.
Arguments F32.add : simpl never.
Arguments F32.sub : simpl never.
Arguments F32.mul : simpl never.
Arguments F32.div : simpl never.
Arguments F32.sqrt : simpl never.
Arguments F32.ltb : simpl never.
Arguments F32.gtb : simpl never.

(** *** The constructor

    [MAX_FREQ] is 6000 (comment of [begin]).  The constructor leaves [_Pin],
    [_iAdcCentre] and the three arrays alone; they are zero for an engine
    with static storage, which is how a sketch declares it. *)

Definition MAX_FREQ : Z := 6000.

Definition PhoneDTMF_new (sampleCount : Z) : PhoneDTMF :=
  {| _Pin := 0;
     _iSamplesCount := sampleCount;
     _iCompensation := 0;
     _iAdcCentre := 0;
     _iSamplesFrequence := MAX_FREQ;
     _iRealFrequence := 0;
     _fBaseMagnitude := F32.of_Z 0;
     _afToneCoeff := repeat F32.zero TONES;
     _afQ1 := repeat F32.zero TONES;
     _afQ2 := repeat F32.zero TONES |}.

(** ** A scripted board

    A board whose clock and analog line are scripts: the [k]-th call of
    [millis] returns [clock k] and the [k]-th call of [analogRead] returns
    [line k].  The world counts the calls and adds up the requested
    pauses. *)

Record sim_world : Type := {
  ticks : nat;
  reads : nat;
  paused : Z
}.

Definition sim_start : sim_world := {| ticks := 0; reads := 0; paused := 0 |}.

Definition sim (clock line : nat -> Z) (coeff : nat -> Z -> float)
  : Platform sim_world :=
  {| pinMode := fun _ w => w;
     delay := fun _ w => w;
     delayMicroseconds := fun us w =>
       {| ticks := ticks w; reads := reads w; paused := paused w + us |};
     millis := fun w =>
       (clock (ticks w),
        {| ticks := S (ticks w); reads := reads w; paused := paused w |});
     analogRead := fun _ w =>
       (line (reads w),
        {| ticks := ticks w; reads := S (reads w); paused := paused w |});
     tone_coeff := coeff |}.

(** Milliseconds spent in the blocks before block [j]. *)
Fixpoint elapsed_before (dur : nat -> Z) (j : nat) : Z :=
  match j with
  | O => 0
  | S k => elapsed_before dur k + dur k
  end.

(** The clock of a run of [begin]: [millis] is called before and after the
    warm-up, which takes [warm] ms, and before and after every block, block
    [j] taking [dur j] ms; nothing else takes time. *)
Definition block_clock (warm : Z) (dur : nat -> Z) (k : nat) : Z :=
  match k with
  | O => 0
  | S O => warm
  | S (S k') =>
      let j := Nat.div2 k' in
      warm + elapsed_before dur j + (if Nat.odd k' then dur j else 0)
  end.

(** A stand-in for the cosine of the C library that hands back the
    frequency it is given, so that the frequency reaching the coefficient
    computation can be read off the coefficient array. *)
Definition probe_coeff (i : nat) (f : Z) : float := F32.of_Z f.

(** An idle line at mid-scale of a 10-bit converter. *)
Definition idle_line (k : nat) : Z := 512.

(** A line carrying a slow sawtooth around mid-scale. *)
Definition sawtooth_line (k : nat) : Z := 500 + Z.of_nat (k mod 29).

(** A telephone keypad as symbol table: the row tones on bits 0-3 and the
    column tones on bits 4-7 of the pattern. *)
Definition keypad_map : list Z :=
  [17; 33; 65; 18; 34; 66; 20; 36; 68; 40; 129; 130; 132; 136; 24; 72].

Definition keypad_char : list ascii :=
  ["1"; "2"; "3"; "4"; "5"; "6"; "7"; "8"; "9"; "0";
   "A"; "B"; "C"; "D"; "*"; "#"]%char.

(** The symbol table is a mapping: a pattern listed twice names the same
    character both times. *)
Definition table_is_mapping (DTMF_MAP : list Z) (DTMF_CHAR : list ascii) : Prop :=
  forall j k : nat,
    (j < TONES * 2)%nat -> (k < TONES * 2)%nat ->
    nth j DTMF_MAP 0 = nth k DTMF_MAP 0 ->
    nth j DTMF_CHAR Ascii.zero = nth k DTMF_CHAR Ascii.zero.

(** ** Auxiliary notions of the proofs *)

(** What the first [k] turns of the loop of [ProcessSample] have done. *)
Definition processed (sample : Z) (d : PhoneDTMF) (k : nat) (dk : PhoneDTMF) : Prop :=
  wf_arrays dk /\
  _afToneCoeff dk = _afToneCoeff d /\
  _iAdcCentre dk = _iAdcCentre d /\
  (forall j, (j < k)%nat ->
     aget j (_afQ2 dk) = aget j (_afQ1 d) /\
     aget j (_afQ1 dk) =
       F32.add
         (F32.sub (F32.mul (aget j (_afToneCoeff d)) (aget j (_afQ1 d)))
                  (aget j (_afQ2 d)))
         (F32.of_Z (sample - _iAdcCentre d))) /\
  (forall j, (k <= j)%nat ->
     aget j (_afQ1 dk) = aget j (_afQ1 d) /\
     aget j (_afQ2 dk) = aget j (_afQ2 d)).

(** An engine with one tone excited, and the sample 5 on a centre of 2. *)
Definition excited_engine : PhoneDTMF :=
  set_AdcCentre 2
    (set_ToneCoeff (repeat (F32.of_Z 1) TONES)
       (set_Q1 (map F32.of_Z [3; 0; 0; 0; 0; 0; 0; 0])
          (set_Q2 (map F32.of_Z [1; 0; 0; 0; 0; 0; 0; 0]) (PhoneDTMF_new 128)))).


(** The members that are not resonator accumulators agree. *)
Definition same_settings (d d' : PhoneDTMF) : Prop :=
  _Pin d' = _Pin d /\
  _iSamplesCount d' = _iSamplesCount d /\
  _iCompensation d' = _iCompensation d /\
  _iAdcCentre d' = _iAdcCentre d /\
  _iSamplesFrequence d' = _iSamplesFrequence d /\
  _iRealFrequence d' = _iRealFrequence d /\
  _fBaseMagnitude d' = _fBaseMagnitude d /\
  _afToneCoeff d' = _afToneCoeff d.

(** All accumulators are [0.0f]. *)
Definition resonators_zero (d : PhoneDTMF) : Prop :=
  _afQ1 d = repeat F32.zero TONES /\ _afQ2 d = repeat F32.zero TONES.

(** ** Boards used as examples *)

(** A board whose blocks take 21 ms and 22 ms in turn. *)
Definition jitter_dur (j : nat) : Z := if Nat.odd j then 22 else 21.

(** The frequency [detect] measures on a block of 128 samples that took
    [jitter_dur j] ms. *)
Definition jitter_freq (j : nat) : Z := if Nat.odd j then 5818 else 6095.

Definition jitter_board : Platform sim_world :=
  sim (block_clock 200 jitter_dur) idle_line probe_coeff.

(** A board that reads 1000 samples in 200 ms and whose blocks all take
    22 ms, on a line carrying a sawtooth. *)
Definition steady_board : Platform sim_world :=
  sim (block_clock 200 (fun _ => 22)) sawtooth_line probe_coeff.

(** A board that reads 1000 samples in 100 ms and on which every block
    takes 100 ms. *)
Definition slow_block_board : Platform sim_world :=
  sim (block_clock 100 (fun _ => 100)) idle_line probe_coeff.

(** A fast board: 1000 reads in 20 ms; a paced block of 128 samples takes
    33 ms. *)
Definition fast_board : Platform sim_world :=
  sim (block_clock 20 (fun _ => 33)) idle_line probe_coeff.

(** The engine and the world of an outcome. *)
Definition engine_of {A W : Type} (o : outcome (A * PhoneDTMF * W))
  : option PhoneDTMF :=
  match o with
  | Ok (_, d, _) => Some d
  | _ => None
  end.

Definition world_of {A W : Type} (o : outcome (A * PhoneDTMF * W)) : option W :=
  match o with
  | Ok (_, _, w) => Some w
  | _ => None
  end.

Definition returned {A W : Type} (o : outcome (A * PhoneDTMF * W)) : option A :=
  match o with
  | Ok (a, _, _) => Some a
  | _ => None
  end.

(** ** The calibration as the specification words it

    "After the loop converges, run one more full detection block; average
    its TONES magnitudes into baseMagnitude": [begin] with one more call of
    [detect] between the loop and the averaging. *)
Definition begin_with_extra_block {W : Type} {P : Platform W}
    (fuel : nat) (sensorPin maxFrequence : Z) (d : PhoneDTMF) (w : W)
  : outcome (Z * PhoneDTMF * W) :=
  '(d1, w1) <- warmup sensorPin maxFrequence d w ;;
  '(magnitudes, d2, w2) <-
    rate_adjust fuel maxFrequence (repeat F32.zero TONES) d1 w1 ;;
  '(_, buf, d3, w3) <- detect (Some magnitudes) default_magnitude d2 w2 ;;
  let magnitudes' := match buf with Some b => b | None => magnitudes end in
  let '(r, d4) := finish magnitudes' d3 in
  Ok (r, d4, w3).

(** ** The accessors *)

(** *** [PhoneDTMF::getSampleFrequence] and [PhoneDTMF::getRealFrequence] *)
Definition getSampleFrequence (d : PhoneDTMF) : Z := _iSamplesFrequence d.

Definition getRealFrequence (d : PhoneDTMF) : Z := _iRealFrequence d.

(** *** [PhoneDTMF::getBaseMagnitude]: [(uint16_t)_fBaseMagnitude] *)
Definition getBaseMagnitude (d : PhoneDTMF) : option Z :=
  F32.to_unsigned 16 (_fBaseMagnitude d).

(** *** [PhoneDTMF::getMeasurementTime]:
    [(uint16_t)((1000.0f / _iRealFrequence) * _iSamplesCount)] *)
Definition getMeasurementTime (d : PhoneDTMF) : option Z :=
  F32.to_unsigned 16
    (F32.mul (F32.div (F32.of_Z 1000) (F32.of_Z (_iRealFrequence d)))
             (F32.of_Z (_iSamplesCount d))).

(** ** Further notions of the proofs *)

(** A zero or a finite number: neither an infinity nor a NaN. *)
Definition is_number (x : float) : bool :=
  match x with
  | S754_zero _ | S754_finite _ _ _ => true
  | S754_infinity _ | S754_nan => false
  end.

(** [detect] and [calculateMeasurement] write the accumulators and
    [_iRealFrequence] only. *)
Definition same_calibration (d d' : PhoneDTMF) : Prop :=
  _Pin d' = _Pin d /\
  _iSamplesCount d' = _iSamplesCount d /\
  _iCompensation d' = _iCompensation d /\
  _iAdcCentre d' = _iAdcCentre d /\
  _iSamplesFrequence d' = _iSamplesFrequence d /\
  _fBaseMagnitude d' = _fBaseMagnitude d /\
  _afToneCoeff d' = _afToneCoeff d.

(** The sum [midMag] of the magnitudes, added up in the order of the tones. *)
Definition magnitude_sum (d : PhoneDTMF) : float :=
  for_loop TONES (fun i acc => F32.add acc (magnitude_of d i)) (F32.of_Z 0).

(** An idle engine: after a reset, coefficients and ADC centre in place. *)
Definition idle_engine : PhoneDTMF :=
  set_AdcCentre 512
    (set_ToneCoeff (map F32.of_Z [1; 1; 1; 0; 0; -1; -1; -1]) (PhoneDTMF_new 128)).

(** A board so fast that a block of 128 samples takes one millisecond. *)
Definition racing_board : Platform sim_world :=
  sim (block_clock 200 (fun _ => 1)) idle_line probe_coeff.

(** A symbol table that lists the pattern 17 twice. *)
Definition shadowed_map : list Z :=
  [17; 33; 17; 18; 34; 66; 20; 36; 68; 40; 129; 130; 132; 136; 24; 72].

(** ** Bounds on rounded results *)

(** What is left of [v] units after one rounding to 24 bits: at most one
    part in [2^23] is lost. *)
Definition lose (v : Z) : Z := v - v / 2 ^ 23.

(** [x] is plus infinity, or a canonical float that is not negative and is
    worth at least [u] units of [2^-149]. *)
Definition at_least (x : float) (u : Z) : Prop :=
  match x with
  | S754_infinity false => True
  | S754_zero false => u <= 0
  | S754_finite false m e =>
      bounded 24 128 m e = true /\ u <= Z.pos m * 2 ^ (e + 149)
  | _ => False
  end.

(** An engine whose eight tones stand at the same level, 5. *)
Definition level_engine : PhoneDTMF :=
  set_Q1 (repeat (F32.of_Z 3) TONES)
    (set_Q2 (repeat (F32.of_Z 4) TONES) (PhoneDTMF_new 128)).

(** [x] is a canonical positive float whose value lies in
    [[2^(lo-1), 2^hi)]. *)
Definition in_binades (x : float) (lo hi : Z) : Prop :=
  match x with
  | S754_finite false m e =>
      bounded 24 128 m e = true /\ lo <= Z.pos (digits2_pos m) + e <= hi
  | _ => False
  end.

(** An engine whose tones stand at the levels 3, 4, ..., 10. *)
Definition stepped_engine : PhoneDTMF :=
  set_Q1 (map F32.of_Z [3; 4; 5; 6; 7; 8; 9; 10]) (PhoneDTMF_new 128).

(** Lines 51-56: [t1 = millis() - t1] around the 1000 reads of the
    warm-up. *)
Definition warmup_elapsed {W : Type} {P : Platform W}
    (sensorPin : Z) (d : PhoneDTMF) (w : W) : Z :=
  let w0 := delay 10 (pinMode (_Pin (set_Pin sensorPin d)) w) in
  wrap_uint 32
    (fst (millis (snd (repeat_io 1000 singleDetect (set_Pin sensorPin d)
                         (snd (millis w0)))))
     - wrap_uint 32 (fst (millis w0))).

(** ** The loop of [begin], turn by turn *)

Section Turns.

Context {W : Type} {P : Platform W}.

(** What the loop carries from turn to turn: the array [magnitudes], the
    engine and the world. *)
Definition loop_state : Type := (list float * PhoneDTMF * W)%type.

(** Lines 67-70: the body of the [do ... while], one call of [detect] and
    the two adjustments of the delay. *)
Definition turn (maxFrequence : Z) (s : loop_state) : outcome loop_state :=
  let '(magnitudes, d, w) := s in
  '(_, buf, d1, w1) <- detect (Some magnitudes) default_magnitude d w ;;
  Ok (match buf with Some b => b | None => magnitudes end,
      adjust maxFrequence d1, w1).

(** Lines 67 and 71: [oldFreq != _iRealFrequence] is false after a turn from
    [s] to [s']: the frequency the engine holds is the one it held before
    the turn. *)
Definition settled (s s' : loop_state) : bool :=
  _iRealFrequence (snd (fst s)) =? _iRealFrequence (snd (fst s')).

(** [n] turns in a row, whatever the test says. *)
Fixpoint turns (n : nat) (maxFrequence : Z) (s : loop_state)
  : outcome loop_state :=
  match n with
  | O => Ok s
  | S k => s' <- turn maxFrequence s ;; turns k maxFrequence s'
  end.

(** A turn is run from the state that [j] turns have left, and the test
    sends the loop round again. *)
Definition goes_on (maxFrequence : Z) (s : loop_state) (j : nat) : Prop :=
  exists sj sj',
    turns j maxFrequence s = Ok sj /\
    turn maxFrequence sj = Ok sj' /\
    settled sj sj' = false.

(** Turn number [n] (from 0), run from [sn] and leaving [r], is the first
    after which the test ends the loop. *)
Definition first_fixed_point (maxFrequence : Z) (n : nat)
    (s sn r : loop_state) : Prop :=
  turns n maxFrequence s = Ok sn /\
  turn maxFrequence sn = Ok r /\
  settled sn r = true /\
  forall j, (j < n)%nat -> goes_on maxFrequence s j.

(** The engine as the samples of a block have left it, before the
    frequency is stored and the magnitudes are computed. *)
Definition sampled (d : PhoneDTMF) (w : W) : PhoneDTMF :=
  fst (repeat_io (Z.to_nat (_iSamplesCount d)) paced_sample d (snd (millis w))).

End Turns.

Arguments turn : simpl never.

(** ** A board that keeps a log

    The world is the list of the calls made so far, oldest first.  As on
    the scripted board the [k]-th call of [millis] returns [clock k] and the
    [k]-th call of [analogRead] returns [line k]. *)

Inductive call : Type :=
  | PinMode (pin : Z)
  | Delay (ms : Z)
  | DelayMicroseconds (us : Z)
  | Millis
  | AnalogRead (pin : Z).

Definition is_millis (c : call) : bool :=
  match c with Millis => true | _ => false end.

Definition is_read (c : call) : bool :=
  match c with AnalogRead _ => true | _ => false end.

Definition clock_reads (log : list call) : nat := length (filter is_millis log).

Definition line_reads (log : list call) : nat := length (filter is_read log).

Definition logging (clock line : nat -> Z) (coeff : nat -> Z -> float)
  : Platform (list call) :=
  {| pinMode := fun pin log => log ++ [PinMode pin];
     delay := fun ms log => log ++ [Delay ms];
     delayMicroseconds := fun us log => log ++ [DelayMicroseconds us];
     millis := fun log => (clock (clock_reads log), log ++ [Millis]);
     analogRead := fun pin log => (line (line_reads log), log ++ [AnalogRead pin]);
     tone_coeff := coeff |}.

(** The engine after the first [k] samples of a run of [singleDetect] that
    starts at reading number [first] of the line: every sample goes through
    [ProcessSample] on the engine as the samples before it have left it. *)
Definition after_samples (line : nat -> Z) (first : nat) (d : PhoneDTMF)
    (k : nat) : PhoneDTMF :=
  for_loop k
    (fun j a => ProcessSample (wrap_int16 (line (first + j)%nat)) a) d.

(** A clock that advances 11 ms between two reads. *)
Definition even_clock (k : nat) : Z := 11 * Z.of_nat k.

(** An engine whose eight tones stand at the same level, 13421779. *)
Definition high_engine : PhoneDTMF :=
  set_Q1 (repeat (F32.of_Z 13421779) TONES) (PhoneDTMF_new 128).
(** * Properties *)

(** ** Arrays and loops *)

Lemma aset_length (i : nat) (v : float) (a : list float) :
  length (aset i v a) = length a.
Proof.
  revert i; induction a as [|x a IH]; intros [|i]; simpl; auto.
Qed.

Lemma aget_aset_same (i : nat) (v : float) (a : list float) :
  (i < length a)%nat -> aget i (aset i v a) = v.
Proof.
  unfold aget; revert i; induction a as [|x a IH]; intros [|i] H; simpl in *;
    try lia; auto.
  apply IH; lia.
Qed.

Lemma aget_aset_other (i j : nat) (v : float) (a : list float) :
  i <> j -> aget j (aset i v a) = aget j a.
Proof.
  unfold aget; revert i j; induction a as [|x a IH]; intros [|i] [|j] H;
    simpl; auto; try congruence.
Qed.

Lemma aset_repeat_prefix (k n : nat) (v : float) (pre : list float) :
  length pre = k -> (k < n)%nat ->
  aset k v (pre ++ repeat F32.zero (n - k)) =
  (pre ++ [v]) ++ repeat F32.zero (n - S k).
Proof.
  revert k n; induction pre as [|x pre IH]; intros k n Hk Hn; simpl in *; subst.
  - destruct n as [|n]; [lia|]. simpl. now rewrite Nat.sub_0_r.
  - simpl. f_equal. destruct n as [|n]; [lia|].
    apply (IH (length pre) n); [reflexivity | lia].
Qed.

Lemma for_loop_0 {S : Type} (body : nat -> S -> S) (s : S) :
  for_loop 0 body s = s.
Proof. reflexivity. Qed.

Lemma for_loop_S {S : Type} (n : nat) (body : nat -> S -> S) (s : S) :
  for_loop (Datatypes.S n) body s = body n (for_loop n body s).
Proof.
  unfold for_loop. rewrite seq_S, fold_left_app. reflexivity.
Qed.

(** A loop invariant indexed by the number of turns done. *)
Lemma for_loop_invariant {S : Type} (I : nat -> S -> Prop)
    (n : nat) (body : nat -> S -> S) (s : S) :
  I O s ->
  (forall i a, (i < n)%nat -> I i a -> I (Datatypes.S i) (body i a)) ->
  I n (for_loop n body s).
Proof.
  intros H0 Hstep.
  assert (H : forall k, (k <= n)%nat -> I k (for_loop k body s)).
  { induction k as [|k IH]; intros Hk.
    - exact H0.
    - rewrite for_loop_S. apply Hstep; [lia | apply IH; lia]. }
  apply H; lia.
Qed.

(** Two loops whose bodies preserve a relation end in related states. *)
Lemma for_loop_related {S T : Type} (R : S -> T -> Prop) (n : nat)
    (f : nat -> S -> S) (g : nat -> T -> T) (s : S) (t : T) :
  R s t ->
  (forall i a b, R a b -> R (f i a) (g i b)) ->
  R (for_loop n f s) (for_loop n g t).
Proof.
  intros H0 Hstep. induction n as [|n IH].
  - exact H0.
  - rewrite !for_loop_S. now apply Hstep.
Qed.

Lemma Ok_inj {A : Type} (a b : A) : Ok a = Ok b -> a = b.
Proof. intros H. now inversion H. Qed.

Lemma pair4_inj {A B C D : Type} (a a' : A) (b b' : B) (c c' : C) (d d' : D) :
  (a, b, c, d) = (a', b', c', d') -> a = a' /\ b = b' /\ c = c' /\ d = d'.
Proof. intros H. now inversion H. Qed.

Lemma pair3_inj {A B C : Type} (a a' : A) (b b' : B) (c c' : C) :
  (a, b, c) = (a', b', c') -> a = a' /\ b = b' /\ c = c'.
Proof. intros H. now inversion H. Qed.

Lemma wrap_uint_small (bits z : Z) :
  0 <= z < 2 ^ bits -> wrap_uint bits z = z.
Proof. intros H. unfold wrap_uint. now apply Z.mod_small. Qed.

(** ** [ProcessSample] *)

Lemma ProcessSample_iter_frame (sample : Z) (i j : nat) (d : PhoneDTMF) :
  i <> j ->
  aget j (_afQ1 (ProcessSample_iter sample i d)) = aget j (_afQ1 d) /\
  aget j (_afQ2 (ProcessSample_iter sample i d)) = aget j (_afQ2 d).
Proof.
  intros H. unfold ProcessSample_iter; simpl.
  split; now apply aget_aset_other.
Qed.

Lemma ProcessSample_iter_wf (sample : Z) (i : nat) (d : PhoneDTMF) :
  wf_arrays d -> wf_arrays (ProcessSample_iter sample i d).
Proof.
  intros (Hc & H1 & H2). unfold wf_arrays, ProcessSample_iter; simpl.
  now rewrite !aset_length.
Qed.

Lemma ProcessSample_processed (sample : Z) (d : PhoneDTMF) :
  wf_arrays d -> processed sample d TONES (ProcessSample sample d).
Proof.
  intros Hwf. unfold ProcessSample.
  apply (for_loop_invariant (processed sample d)).
  - repeat split; auto; try apply Hwf; intros; lia.
  - intros i a Hi (Hwa & Hc & Hadc & Hlow & Hhigh).
    destruct (Hhigh i (Nat.le_refl i)) as [Hq1 Hq2].
    destruct Hwa as (Lc & L1 & L2).
    split; [now apply ProcessSample_iter_wf|].
    split; [exact Hc|]. split; [exact Hadc|]. split.
    + intros j Hj. destruct (Nat.eq_dec i j) as [->|Hne].
      * unfold ProcessSample_iter; simpl.
        rewrite !aget_aset_same by (rewrite ?aset_length; lia).
        rewrite Hc, Hadc, Hq1, Hq2. auto.
      * destruct (ProcessSample_iter_frame sample i j a Hne) as [-> ->].
        apply Hlow; lia.
    + intros j Hj.
      destruct (ProcessSample_iter_frame sample i j a) as [-> ->]; [lia|].
      apply Hhigh; lia.
Qed.

Lemma ProcessSample_wf (sample : Z) (d : PhoneDTMF) :
  wf_arrays d -> wf_arrays (ProcessSample sample d).
Proof. intros H. now destruct (ProcessSample_processed sample d H). Qed.

(** C1: one call of [ProcessSample] replaces, for every tone [i], [Q2[i]] by
    the old [Q1[i]] and [Q1[i]] by [coeff[i]*Q1[i] - Q2[i] + (sample -
    adcCenter)], each operation rounded to single precision in this order;
    the turn of the loop for tone [i] writes no other tone's accumulators,
    and the coefficients and the ADC centre are not written at all. *)
Theorem ProcessSample_updates_each_tone
    (sample : Z) (d : PhoneDTMF) (i : nat) :
  wf_arrays d -> (i < TONES)%nat ->
  aget i (_afQ2 (ProcessSample sample d)) = aget i (_afQ1 d) /\
  aget i (_afQ1 (ProcessSample sample d)) =
    F32.add
      (F32.sub (F32.mul (aget i (_afToneCoeff d)) (aget i (_afQ1 d)))
               (aget i (_afQ2 d)))
      (F32.of_Z (sample - _iAdcCentre d)) /\
  (forall (d0 : PhoneDTMF) (j : nat), j <> i ->
     aget j (_afQ1 (ProcessSample_iter sample i d0)) = aget j (_afQ1 d0) /\
     aget j (_afQ2 (ProcessSample_iter sample i d0)) = aget j (_afQ2 d0)) /\
  _afToneCoeff (ProcessSample sample d) = _afToneCoeff d /\
  _iAdcCentre (ProcessSample sample d) = _iAdcCentre d.
Proof.
  intros Hwf Hi.
  destruct (ProcessSample_processed sample d Hwf)
    as (_ & Hc & Hadc & Hlow & _).
  destruct (Hlow i Hi) as [H2 H1].
  split; [exact H2|]. split; [exact H1|]. split; [|now split].
  intros d0 j Hne. apply ProcessSample_iter_frame. congruence.
Qed.

Lemma ProcessSample_updates_each_tone_witness :
  aget 0 (_afQ2 (ProcessSample 5 excited_engine)) = F32.of_Z 3 /\
  aget 0 (_afQ1 (ProcessSample 5 excited_engine)) = F32.of_Z 5.
Proof.
  destruct (ProcessSample_updates_each_tone 5 excited_engine 0)
    as (H2 & H1 & _).
  - repeat split.
  - unfold TONES; lia.
  - split; [rewrite H2 | rewrite H1]; reflexivity.
Defined.

(** ** [ResetDTMF] *)

Lemma all_equal_repeat (n : nat) (v : float) (a : list float) :
  length a = n -> (forall j, (j < n)%nat -> aget j a = v) -> a = repeat v n.
Proof.
  revert n; induction a as [|x a IH]; intros [|n] Hlen Hall; simpl in *;
    try discriminate; auto.
  f_equal.
  - apply (Hall O); lia.
  - apply IH; [lia|]. intros j Hj. apply (Hall (S j)); lia.
Qed.

Lemma same_settings_refl (d : PhoneDTMF) : same_settings d d.
Proof. repeat split. Qed.

Lemma same_settings_trans (a b c : PhoneDTMF) :
  same_settings a b -> same_settings b c -> same_settings a c.
Proof.
  unfold same_settings. intros H1 H2.
  decompose [and] H1; decompose [and] H2; repeat split; congruence.
Qed.

Lemma PhoneDTMF_ext (d d' : PhoneDTMF) :
  same_settings d d' -> _afQ1 d' = _afQ1 d -> _afQ2 d' = _afQ2 d -> d' = d.
Proof.
  destruct d, d'; unfold same_settings; simpl.
  intros H H1 H2. decompose [and] H. subst. reflexivity.
Qed.

Lemma ResetDTMF_iter_settings (i : nat) (d : PhoneDTMF) :
  same_settings d (ResetDTMF_iter i d).
Proof. repeat split. Qed.

Lemma ProcessSample_iter_settings (sample : Z) (i : nat) (d : PhoneDTMF) :
  same_settings d (ProcessSample_iter sample i d).
Proof. repeat split. Qed.

Lemma ResetDTMF_settings (d : PhoneDTMF) : same_settings d (ResetDTMF d).
Proof.
  unfold ResetDTMF.
  apply (for_loop_invariant (fun _ a => same_settings d a)).
  - apply same_settings_refl.
  - intros i a _ H.
    exact (same_settings_trans _ _ _ H (ResetDTMF_iter_settings i a)).
Qed.

Lemma ProcessSample_settings (sample : Z) (d : PhoneDTMF) :
  same_settings d (ProcessSample sample d).
Proof.
  unfold ProcessSample.
  apply (for_loop_invariant (fun _ a => same_settings d a)).
  - apply same_settings_refl.
  - intros i a _ H.
    exact (same_settings_trans _ _ _ H (ProcessSample_iter_settings sample i a)).
Qed.

Lemma ResetDTMF_zero (d : PhoneDTMF) :
  wf_arrays d -> resonators_zero (ResetDTMF d).
Proof.
  intros (Hc & H1 & H2).
  assert (H : length (_afQ1 (ResetDTMF d)) = TONES /\
              length (_afQ2 (ResetDTMF d)) = TONES /\
              forall j, (j < TONES)%nat ->
                aget j (_afQ1 (ResetDTMF d)) = F32.zero /\
                aget j (_afQ2 (ResetDTMF d)) = F32.zero).
  { unfold ResetDTMF.
    apply (for_loop_invariant
             (fun k a => length (_afQ1 a) = TONES /\ length (_afQ2 a) = TONES /\
                forall j, (j < k)%nat ->
                  aget j (_afQ1 a) = F32.zero /\ aget j (_afQ2 a) = F32.zero)).
    - repeat split; auto; lia.
    - intros i a Hi (L1 & L2 & Hz). unfold ResetDTMF_iter; simpl.
      rewrite !aset_length. repeat split; auto;
        (destruct (Nat.eq_dec i j) as [->|Hne];
         [ now rewrite aget_aset_same by lia
         | rewrite aget_aset_other by exact Hne; apply Hz; lia ]). }
  destruct H as (L1 & L2 & Hz).
  split; apply all_equal_repeat; auto; intros j Hj; now apply Hz.
Qed.

Lemma ResetDTMF_wf (d : PhoneDTMF) : wf_arrays d -> wf_arrays (ResetDTMF d).
Proof.
  intros H. destruct (ResetDTMF_zero d H) as [H1 H2].
  destruct (ResetDTMF_settings d) as (_ & _ & _ & _ & _ & _ & _ & Hc).
  destruct H as (Lc & _ & _).
  unfold wf_arrays. rewrite H1, H2, Hc, !repeat_length. auto.
Qed.

Lemma ResetDTMF_idempotent (d : PhoneDTMF) :
  wf_arrays d -> ResetDTMF (ResetDTMF d) = ResetDTMF d.
Proof.
  intros H. pose proof (ResetDTMF_wf d H) as H'.
  destruct (ResetDTMF_zero d H) as [H1 H2].
  destruct (ResetDTMF_zero _ H') as [H1' H2'].
  apply PhoneDTMF_ext.
  - apply ResetDTMF_settings.
  - congruence.
  - congruence.
Qed.

(** ** The sampling loops keep the arrays well formed *)

Section Sampling.

Context {W : Type} {P : Platform W}.

Lemma repeat_io_S (n : nat) (body : PhoneDTMF -> W -> PhoneDTMF * W)
    (d : PhoneDTMF) (w : W) :
  repeat_io (S n) body d w =
  repeat_io n body (fst (body d w)) (snd (body d w)).
Proof. simpl. now destruct (body d w). Qed.

Lemma repeat_io_invariant (I : PhoneDTMF -> Prop)
    (body : PhoneDTMF -> W -> PhoneDTMF * W) (n : nat) :
  (forall d w, I d -> I (fst (body d w))) ->
  forall d w, I d -> I (fst (repeat_io n body d w)).
Proof.
  intros Hbody. induction n as [|n IH]; intros d w Hd; simpl.
  - exact Hd.
  - specialize (Hbody d w Hd). destruct (body d w) as [d1 w1].
    now apply IH.
Qed.

Lemma singleDetect_wf (d : PhoneDTMF) (w : W) :
  wf_arrays d -> wf_arrays (fst (singleDetect d w)).
Proof.
  intros H. unfold singleDetect.
  destruct (analogRead (_Pin d) w) as [v w1]; simpl.
  now apply ProcessSample_wf.
Qed.

Lemma paced_sample_wf (d : PhoneDTMF) (w : W) :
  wf_arrays d -> wf_arrays (fst (paced_sample d w)).
Proof.
  intros H. unfold paced_sample.
  pose proof (singleDetect_wf d w H) as H1.
  destruct (singleDetect d w) as [d1 w1]. exact H1.
Qed.

Lemma singleDetect_settings (d : PhoneDTMF) (w : W) :
  same_settings d (fst (singleDetect d w)).
Proof.
  unfold singleDetect.
  destruct (analogRead (_Pin d) w) as [v w1]; simpl.
  apply ProcessSample_settings.
Qed.

Lemma paced_sample_settings (d : PhoneDTMF) (w : W) :
  same_settings d (fst (paced_sample d w)).
Proof.
  unfold paced_sample.
  pose proof (singleDetect_settings d w) as H1.
  destruct (singleDetect d w) as [d1 w1]. exact H1.
Qed.

Lemma repeat_io_settings (body : PhoneDTMF -> W -> PhoneDTMF * W) (n : nat) :
  (forall d w, same_settings d (fst (body d w))) ->
  forall d w, same_settings d (fst (repeat_io n body d w)).
Proof.
  intros Hbody d w.
  apply (repeat_io_invariant (same_settings d)).
  - intros d1 w1 H. exact (same_settings_trans _ _ _ H (Hbody d1 w1)).
  - apply same_settings_refl.
Qed.

(** What [detect] returns, in terms of the state the sampling loop left. *)
Lemma detect_inv (pMagnitudes : option (list float)) (magnitude : float)
    (d : PhoneDTMF) (w : W) r :
  detect pMagnitudes magnitude d w = Ok r ->
  exists d1 f,
    (wf_arrays d -> wf_arrays d1) /\
    same_settings d d1 /\
    F32.to_unsigned 32
      (block_frequency
         (wrap_uint 32
            (fst (millis (snd (repeat_io (Z.to_nat (_iSamplesCount d))
                                 paced_sample d (snd (millis w)))))
             - wrap_uint 32 (fst (millis w))))
         (_iSamplesCount d)) = Some f /\
    fst (fst r) =
      (fst (fst (calculateMeasurement pMagnitudes magnitude
                   (set_RealFrequence f d1))),
       snd (fst (calculateMeasurement pMagnitudes magnitude
                   (set_RealFrequence f d1)))) /\
    snd (fst r) = ResetDTMF (set_RealFrequence f d1) /\
    snd r = snd (millis (snd (repeat_io (Z.to_nat (_iSamplesCount d))
                                paced_sample d (snd (millis w))))).
Proof.
  unfold detect.
  destruct (millis w) as [t0 w0]; cbn [fst snd].
  pose proof (repeat_io_invariant wf_arrays paced_sample
                (Z.to_nat (_iSamplesCount d)) paced_sample_wf d w0) as Hwf.
  pose proof (repeat_io_settings paced_sample (Z.to_nat (_iSamplesCount d))
                paced_sample_settings d w0) as Hset.
  destruct (repeat_io (Z.to_nat (_iSamplesCount d)) paced_sample d w0)
    as [d1 w1]; cbn [fst snd] in *.
  destruct (millis w1) as [t1 w2]; cbn [fst snd].
  assert (Hcount : _iSamplesCount d1 = _iSamplesCount d) by apply Hset.
  rewrite Hcount.
  destruct (F32.to_unsigned 32 _) as [f|]; unfold defined, bind;
    [|discriminate].
  destruct (calculateMeasurement pMagnitudes magnitude (set_RealFrequence f d1))
    as [[dtmf buf] d2] eqn:E.
  intros H; apply Ok_inj in H; subst r. exists d1, f. rewrite E. cbn [fst snd].
  split; [exact Hwf|]. split; [exact Hset|].
  split; [reflexivity|]. split; [reflexivity|].
  split; [|reflexivity].
  unfold calculateMeasurement in E.
  apply pair3_inj in E. now destruct E as (_ & _ & <-).
Qed.

End Sampling.

(** C9: after the classification step, and so after every [detect] that
    returns, every accumulator [Q1[i]] and [Q2[i]] is [0.0f], whatever the
    block has put into them; resetting twice is the same as resetting once
    and leaves them at zero. *)
Theorem resonators_zero_after_every_block
    {W : Type} {P : Platform W}
    (pRet : option (list float)) (magnitude : float)
    (d : PhoneDTMF) (w : W) :
  wf_arrays d ->
  resonators_zero (snd (calculateMeasurement pRet magnitude d)) /\
  (forall r, detect pRet magnitude d w = Ok r ->
     resonators_zero (snd (fst r))) /\
  ResetDTMF (ResetDTMF d) = ResetDTMF d /\
  resonators_zero (ResetDTMF (ResetDTMF d)).
Proof.
  intros Hwf. split; [|split; [|split]].
  - unfold calculateMeasurement; simpl. now apply ResetDTMF_zero.
  - intros r Hr.
    destruct (detect_inv pRet magnitude d w r Hr)
      as (d1 & f & Hwf1 & _ & _ & _ & -> & _).
    apply ResetDTMF_zero. apply Hwf1 in Hwf.
    destruct Hwf as (Hc & H1 & H2). now repeat split.
  - now apply ResetDTMF_idempotent.
  - apply ResetDTMF_zero. now apply ResetDTMF_wf.
Qed.

Lemma resonators_zero_after_every_block_witness :
  resonators_zero
    (snd (calculateMeasurement None default_magnitude excited_engine)) /\
  ResetDTMF (ResetDTMF excited_engine) = ResetDTMF excited_engine.
Proof.
  destruct (resonators_zero_after_every_block (P := sim idle_line idle_line probe_coeff)
              None default_magnitude excited_engine sim_start)
    as (H1 & _ & H2 & _).
  - repeat split.
  - split; [exact H1 | exact H2].
Defined.

(** ** [calculateMeasurement]: the magnitudes *)

Lemma measure_iter_mags (d : PhoneDTMF) (i : nat) (l : measure) :
  dtmf_mag (measure_iter d i l) = aset i (magnitude_of d i) (dtmf_mag l).
Proof.
  unfold measure_iter. now destruct (F32.ltb _ _).
Qed.

Lemma measure_iter_mid (d : PhoneDTMF) (i : nat) (l : measure) :
  midMag (measure_iter d i l) =
  F32.add (midMag l) (aget i (aset i (magnitude_of d i) (dtmf_mag l))).
Proof.
  unfold measure_iter. now destruct (F32.ltb _ _).
Qed.

(** After [k] turns the first [k] magnitudes are in place. *)
Lemma measure_prefix (d : PhoneDTMF) (k : nat) :
  (k <= TONES)%nat ->
  dtmf_mag (for_loop k (measure_iter d)
              {| dtmf_mag := repeat F32.zero TONES;
                 midMag := F32.of_Z 0;
                 maxMag := F32.mul (_fBaseMagnitude d) (F32.of_Z 3) |}) =
  map (magnitude_of d) (seq 0 k) ++ repeat F32.zero (TONES - k).
Proof.
  induction k as [|k IH]; intros Hk.
  - simpl. reflexivity.
  - rewrite for_loop_S, measure_iter_mags, IH by lia.
    rewrite seq_S, map_app.
    change (map (magnitude_of d) [(0 + k)%nat]) with [magnitude_of d k].
    apply aset_repeat_prefix; [|lia].
    now rewrite length_map, length_seq.
Qed.

Lemma measure_all_mags (d : PhoneDTMF) :
  dtmf_mag (measure_all d) = map (magnitude_of d) (seq 0 TONES).
Proof.
  unfold measure_all. rewrite measure_prefix by lia.
  rewrite Nat.sub_diag. apply app_nil_r.
Qed.

(** C2: the magnitude the classification step computes for tone [i] is
    [sqrt(Q1[i]*Q1[i] + Q2[i]*Q2[i] - coeff[i]*Q1[i]*Q2[i])], in single
    precision and in the order of the source; a buffer given by the caller
    receives exactly these [TONES] values in its first [TONES] cells and is
    otherwise kept, and without a buffer nothing is copied. *)
Theorem calculateMeasurement_magnitudes
    (magnitude : float) (d : PhoneDTMF) (buffer : list float) :
  dtmf_mag (measure_all d) =
    map (fun i =>
           F32.sqrt
             (F32.sub
                (F32.add (F32.mul (aget i (_afQ1 d)) (aget i (_afQ1 d)))
                         (F32.mul (aget i (_afQ2 d)) (aget i (_afQ2 d))))
                (F32.mul (F32.mul (aget i (_afToneCoeff d)) (aget i (_afQ1 d)))
                         (aget i (_afQ2 d)))))
        (seq 0 TONES) /\
  snd (fst (calculateMeasurement (Some buffer) magnitude d)) =
    Some (dtmf_mag (measure_all d) ++ skipn TONES buffer) /\
  length (dtmf_mag (measure_all d)) = TONES /\
  snd (fst (calculateMeasurement None magnitude d)) = None.
Proof.
  pose proof (measure_all_mags d) as H.
  assert (L : length (dtmf_mag (measure_all d)) = TONES).
  { now rewrite H, length_map, length_seq. }
  split; [exact H|]. split; [|split; [exact L | reflexivity]].
  unfold calculateMeasurement. cbn [fst snd option_map]. unfold memcpy.
  rewrite firstn_all2 by lia. reflexivity.
Qed.

(** ** [calculateMeasurement]: [maxMag] is dead *)

Lemma measure_ignores_maxMag (d : PhoneDTMF) (n : nat) (l1 l2 : measure) :
  dtmf_mag l1 = dtmf_mag l2 -> midMag l1 = midMag l2 ->
  dtmf_mag (for_loop n (measure_iter d) l1) =
    dtmf_mag (for_loop n (measure_iter d) l2) /\
  midMag (for_loop n (measure_iter d) l1) =
    midMag (for_loop n (measure_iter d) l2).
Proof.
  intros Hm Hs.
  apply (for_loop_related
           (fun a b => dtmf_mag a = dtmf_mag b /\ midMag a = midMag b)).
  - now split.
  - intros i a b [Ha Hb].
    rewrite !measure_iter_mags, !measure_iter_mid, Ha, Hb. now split.
Qed.

(** C10: the bitmask of the classification step is the same for any two
    values of [_fBaseMagnitude], with an explicit threshold and with the
    automatic one: [maxMag], the only value computed from it, reaches
    neither the threshold nor the flags. *)
Theorem bitmask_independent_of_baseMagnitude
    (pRet : option (list float)) (magnitude : float) (d : PhoneDTMF)
    (b1 b2 : float) :
  fst (fst (calculateMeasurement pRet magnitude (set_BaseMagnitude b1 d))) =
  fst (fst (calculateMeasurement pRet magnitude (set_BaseMagnitude b2 d))) /\
  resolve_threshold magnitude (measure_all (set_BaseMagnitude b1 d)) =
  resolve_threshold magnitude (measure_all (set_BaseMagnitude b2 d)).
Proof.
  assert (H : dtmf_mag (measure_all (set_BaseMagnitude b1 d)) =
              dtmf_mag (measure_all (set_BaseMagnitude b2 d)) /\
              midMag (measure_all (set_BaseMagnitude b1 d)) =
              midMag (measure_all (set_BaseMagnitude b2 d))).
  { unfold measure_all.
    apply (for_loop_related
             (fun a b => dtmf_mag a = dtmf_mag b /\ midMag a = midMag b)).
    - now split.
    - intros i a b [Ha Hb].
      rewrite !measure_iter_mags, !measure_iter_mid, Ha, Hb. now split. }
  destruct H as [Hm Hs].
  assert (Ht : resolve_threshold magnitude (measure_all (set_BaseMagnitude b1 d)) =
               resolve_threshold magnitude (measure_all (set_BaseMagnitude b2 d))).
  { unfold resolve_threshold. now rewrite Hs. }
  split; [|exact Ht].
  unfold calculateMeasurement; simpl. now rewrite Hm, Ht.
Qed.

(** ** [tone2char] *)

Lemma tone2char_from_hit (DTMF_MAP : list Z) (DTMF_CHAR : list ascii)
    (js : list nat) (dtmf : Z) (j : nat) :
  In j js -> nth j DTMF_MAP 0 = dtmf ->
  exists k, In k js /\ nth k DTMF_MAP 0 = dtmf /\
            tone2char_from DTMF_MAP DTMF_CHAR js dtmf =
              nth k DTMF_CHAR Ascii.zero.
Proof.
  induction js as [|x js IH]; intros Hin Hj; [contradiction|].
  simpl. destruct (Z.eqb_spec dtmf (nth x DTMF_MAP 0)) as [E|E].
  - exists x. split; [now left|]. split; [now symmetry | reflexivity].
  - destruct Hin as [->|Hin]; [congruence|].
    destruct (IH Hin Hj) as (k & Hk & Hm & Hr).
    exists k. split; [now right|]. now split.
Qed.

Lemma tone2char_from_miss (DTMF_MAP : list Z) (DTMF_CHAR : list ascii)
    (js : list nat) (dtmf : Z) :
  (forall j, In j js -> nth j DTMF_MAP 0 <> dtmf) ->
  tone2char_from DTMF_MAP DTMF_CHAR js dtmf = Ascii.zero.
Proof.
  induction js as [|x js IH]; intros H; simpl; [reflexivity|].
  destruct (Z.eqb_spec dtmf (nth x DTMF_MAP 0)) as [E|E].
  - exfalso. apply (H x); [now left | auto].
  - apply IH. intros j Hj. apply H. now right.
Qed.

(** C8: for a symbol table that is a mapping, [tone2char] returns, for the
    pattern of every one of the [2*TONES] entries, the character of that
    entry; for a bitmask that is the pattern of none of the entries it
    returns the character 0. *)
Theorem tone2char_round_trip (DTMF_MAP : list Z) (DTMF_CHAR : list ascii) :
  table_is_mapping DTMF_MAP DTMF_CHAR ->
  (forall j, (j < TONES * 2)%nat ->
     tone2char DTMF_MAP DTMF_CHAR (nth j DTMF_MAP 0) =
       nth j DTMF_CHAR Ascii.zero) /\
  (forall dtmf,
     (forall j, (j < TONES * 2)%nat -> nth j DTMF_MAP 0 <> dtmf) ->
     tone2char DTMF_MAP DTMF_CHAR dtmf = Ascii.zero).
Proof.
  intros Hmap. split.
  - intros j Hj. unfold tone2char.
    destruct (tone2char_from_hit DTMF_MAP DTMF_CHAR (seq 0 (TONES * 2))
                (nth j DTMF_MAP 0) j) as (k & Hk & Hm & ->).
    + apply in_seq. lia.
    + reflexivity.
    + apply in_seq in Hk. apply Hmap; auto; lia.
  - intros dtmf Hmiss. unfold tone2char.
    apply tone2char_from_miss. intros j Hj. apply in_seq in Hj.
    apply Hmiss. lia.
Qed.

Lemma keypad_is_mapping : table_is_mapping keypad_map keypad_char.
Proof.
  intros j k Hj Hk.
  do 16 (destruct j as [|j];
         [ do 16 (destruct k as [|k];
                  [ simpl; intros E; (reflexivity || discriminate E) |]);
           unfold TONES in Hk; simpl in Hk; lia |]).
  unfold TONES in Hj; simpl in Hj; lia.
Qed.

Lemma tone2char_round_trip_witness :
  tone2char keypad_map keypad_char 34 = "5"%char /\
  tone2char keypad_map keypad_char 3 = Ascii.zero.
Proof.
  destruct (tone2char_round_trip keypad_map keypad_char keypad_is_mapping)
    as [Hhit Hmiss].
  split.
  - apply (Hhit 4%nat). unfold TONES; simpl; lia.
  - apply Hmiss. intros j Hj.
    do 16 (destruct j as [|j]; [simpl; discriminate|]).
    unfold TONES in Hj; simpl in Hj; lia.
Defined.

(** ** The blocks of [detect] and the loop of [begin] *)

Lemma adjust_settings (maxFrequence : Z) (d : PhoneDTMF) :
  _iRealFrequence (adjust maxFrequence d) = _iRealFrequence d /\
  _iSamplesCount (adjust maxFrequence d) = _iSamplesCount d /\
  _Pin (adjust maxFrequence d) = _Pin d /\
  _afQ1 (adjust maxFrequence d) = _afQ1 d /\
  _afQ2 (adjust maxFrequence d) = _afQ2 d /\
  _afToneCoeff (adjust maxFrequence d) = _afToneCoeff d.
Proof.
  unfold adjust.
  destruct ((maxFrequence <? _iRealFrequence d) && (_iCompensation d <? 200));
    match goal with
    | |- context [if ?c then _ else _] => destruct c
    end; repeat split.
Qed.

(** Every step of the loop keeps a delay of [0..200] in [0..200]. *)
Lemma adjust_keeps_delay_in_range (maxFrequence : Z) (d : PhoneDTMF) :
  0 <= _iCompensation d <= 200 ->
  0 <= _iCompensation (adjust maxFrequence d) <= 200 /\
  Z.abs (_iCompensation (adjust maxFrequence d) - _iCompensation d) <= 1.
Proof.
  intros H. unfold adjust.
  destruct (maxFrequence <? _iRealFrequence d) eqn:E1;
    destruct (Z.ltb_spec (_iCompensation d) 200) as [E2|E2]; simpl;
    match goal with
    | |- context [if ?c && ?b then _ else _] =>
        destruct c; destruct b eqn:E3; simpl
    end;
    try (apply Z.ltb_lt in E3; simpl in E3); lia.
Qed.

Section Blocks.

Context {W : Type} {P : Platform W}.

(** [detect] without the destructuring. *)
Lemma detect_eq (pMagnitudes : option (list float)) (magnitude : float)
    (d : PhoneDTMF) (w : W) :
  detect pMagnitudes magnitude d w =
  let r := repeat_io (Z.to_nat (_iSamplesCount d)) paced_sample d
             (snd (millis w)) in
  let fTemp := wrap_uint 32 (fst (millis (snd r)) - wrap_uint 32 (fst (millis w))) in
  match F32.to_unsigned 32 (block_frequency fTemp (_iSamplesCount d)) with
  | Some f =>
      Ok (fst (fst (calculateMeasurement pMagnitudes magnitude
                      (set_RealFrequence f (fst r)))),
          snd (fst (calculateMeasurement pMagnitudes magnitude
                      (set_RealFrequence f (fst r)))),
          ResetDTMF (set_RealFrequence f (fst r)),
          snd (millis (snd r)))
  | None => Undefined
  end.
Proof.
  unfold detect. cbv zeta.
  destruct (millis w) as [t0 w0]; cbn [fst snd].
  pose proof (repeat_io_settings paced_sample (Z.to_nat (_iSamplesCount d))
                paced_sample_settings d w0) as Hset.
  destruct (repeat_io (Z.to_nat (_iSamplesCount d)) paced_sample d w0)
    as [d1 w1]; cbn [fst snd] in *.
  destruct (millis w1) as [t1 w2]; cbn [fst snd].
  assert (Hcount : _iSamplesCount d1 = _iSamplesCount d) by apply Hset.
  rewrite Hcount.
  destruct (F32.to_unsigned 32 _) as [f|]; unfold defined, bind;
    [|reflexivity].
  destruct (calculateMeasurement pMagnitudes magnitude (set_RealFrequence f d1))
    as [[dtmf buf] d2] eqn:E. cbn [fst snd].
  unfold calculateMeasurement in E.
  apply pair3_inj in E. now destruct E as (_ & _ & <-).
Qed.

Lemma rate_adjust_S (fuel : nat) (maxFrequence : Z) (mags : list float)
    (d : PhoneDTMF) (w : W) :
  rate_adjust (S fuel) maxFrequence mags d w =
  match detect (Some mags) default_magnitude d w with
  | Ok (_, buf, d1, w1) =>
      let mags1 := match buf with Some b => b | None => mags end in
      if _iRealFrequence d =? _iRealFrequence (adjust maxFrequence d1)
      then Ok (mags1, adjust maxFrequence d1, w1)
      else rate_adjust fuel maxFrequence mags1 (adjust maxFrequence d1) w1
  | Undefined => Undefined
  | OutOfFuel => OutOfFuel
  end.
Proof.
  cbn [rate_adjust]. unfold bind.
  destruct (detect (Some mags) default_magnitude d w) as [[[[m b] d1] w1]| |];
    reflexivity.
Qed.

(** More fuel does not change a result. *)
Lemma rate_adjust_more_fuel (fuel extra : nat) (maxFrequence : Z) :
  forall (mags : list float) (d : PhoneDTMF) (w : W) r,
  rate_adjust fuel maxFrequence mags d w = Ok r ->
  rate_adjust (fuel + extra) maxFrequence mags d w = Ok r.
Proof.
  induction fuel as [|fuel IH]; intros mags d w r H; [discriminate|].
  change (S fuel + extra)%nat with (S (fuel + extra)).
  rewrite rate_adjust_S in *.
  destruct (detect (Some mags) default_magnitude d w) as [[[[m b] d1] w1]| |];
    try discriminate.
  cbv zeta in *.
  destruct (_iRealFrequence d =? _iRealFrequence (adjust maxFrequence d1));
    [exact H | now apply IH].
Qed.
End Blocks.

(** ** The loop of [begin], turn by turn *)

Section LoopFacts.

Context {W : Type} {P : Platform W}.

Lemma rate_adjust_turn (fuel : nat) (maxFrequence : Z) (mags : list float)
    (d : PhoneDTMF) (w : W) :
  rate_adjust (S fuel) maxFrequence mags d w =
  match turn maxFrequence (mags, d, w) with
  | Ok s' =>
      if settled (mags, d, w) s'
      then Ok s'
      else rate_adjust fuel maxFrequence (fst (fst s')) (snd (fst s')) (snd s')
  | Undefined => Undefined
  | OutOfFuel => OutOfFuel
  end.
Proof.
  rewrite rate_adjust_S. unfold turn, bind.
  destruct (detect (Some mags) default_magnitude d w) as [[[[m b] d1] w1]| |];
    reflexivity.
Qed.

Lemma turns_S (n : nat) (maxFrequence : Z) (s : loop_state) :
  turns (S n) maxFrequence s =
  match turn maxFrequence s with
  | Ok s' => turns n maxFrequence s'
  | Undefined => Undefined
  | OutOfFuel => OutOfFuel
  end.
Proof. reflexivity. Qed.

Lemma goes_on_0 (maxFrequence : Z) (s : loop_state) :
  goes_on maxFrequence s 0 <->
  exists s', turn maxFrequence s = Ok s' /\ settled s s' = false.
Proof.
  unfold goes_on. split.
  - intros (sj & sj' & H0 & H1 & H2). apply Ok_inj in H0. subst sj.
    now exists sj'.
  - intros (s' & H1 & H2). now exists s, s'.
Qed.

Lemma goes_on_S (maxFrequence : Z) (s s' : loop_state) (j : nat) :
  turn maxFrequence s = Ok s' ->
  goes_on maxFrequence s (S j) <-> goes_on maxFrequence s' j.
Proof.
  intros H. unfold goes_on. now rewrite turns_S, H.
Qed.

(** The loop with [fuel] turns allowed returns [r] exactly when one of its
    first [fuel] turns is the first to end at a fixed point, and leaves
    [r]. *)
Lemma rate_adjust_returns (fuel : nat) (maxFrequence : Z) :
  forall (s r : loop_state),
  rate_adjust fuel maxFrequence (fst (fst s)) (snd (fst s)) (snd s) = Ok r <->
  exists n sn, (n < fuel)%nat /\ first_fixed_point maxFrequence n s sn r.
Proof.
  induction fuel as [|fuel IH]; intros [[mags d] w] r; cbn [fst snd].
  - split; [discriminate|]. intros (n & sn & Hn & _). lia.
  - rewrite rate_adjust_turn. split.
    + destruct (turn maxFrequence (mags, d, w)) as [s'| |] eqn:Et;
        try discriminate.
      destruct (settled (mags, d, w) s') eqn:Es.
      * intros H. apply Ok_inj in H. subst s'.
        exists 0%nat, (mags, d, w). split; [lia|].
        split; [reflexivity|]. split; [exact Et|]. split; [exact Es|].
        intros j Hj. lia.
      * intros H. apply IH in H. destruct H as (n & sn & Hn & H1 & H2 & H3 & H4).
        exists (S n), sn. split; [lia|].
        split; [now rewrite turns_S, Et|]. split; [exact H2|].
        split; [exact H3|].
        intros [|j] Hj.
        -- apply goes_on_0. now exists s'.
        -- apply (goes_on_S _ _ _ _ Et). apply H4. lia.
    + intros (n & sn & Hn & H1 & H2 & H3 & H4).
      destruct n as [|n].
      * apply Ok_inj in H1. subst sn. now rewrite H2, H3.
      * destruct (proj1 (goes_on_0 _ _) (H4 0%nat ltac:(lia))) as (s' & Et & Es).
        rewrite Et, Es. apply IH. exists n, sn. split; [lia|].
        rewrite turns_S, Et in H1.
        split; [exact H1|]. split; [exact H2|]. split; [exact H3|].
        intros j Hj. apply (goes_on_S _ _ _ _ Et). apply H4. lia.
Qed.

(** It is still running after [fuel] turns exactly when each of them was
    run and sent it round again. *)
Lemma rate_adjust_still_running (fuel : nat) (maxFrequence : Z) :
  forall (s : loop_state),
  rate_adjust fuel maxFrequence (fst (fst s)) (snd (fst s)) (snd s) = OutOfFuel <->
  forall j, (j < fuel)%nat -> goes_on maxFrequence s j.
Proof.
  induction fuel as [|fuel IH]; intros [[mags d] w]; cbn [fst snd].
  - split; [intros _ j Hj; lia | reflexivity].
  - rewrite rate_adjust_turn. split.
    + destruct (turn maxFrequence (mags, d, w)) as [s'| |] eqn:Et;
        try discriminate.
      2:{ exfalso. unfold turn, bind in Et. rewrite detect_eq in Et.
          cbv zeta in Et.
          destruct (F32.to_unsigned 32 _) as [f|]; discriminate. }
      destruct (settled (mags, d, w) s') eqn:Es; [discriminate|].
      intros H [|j] Hj.
      * apply goes_on_0. now exists s'.
      * apply (goes_on_S _ _ _ _ Et). apply (proj1 (IH s') H). lia.
    + intros H.
      destruct (proj1 (goes_on_0 _ _) (H 0%nat ltac:(lia))) as (s' & Et & Es).
      rewrite Et, Es. apply IH. intros j Hj.
      apply (goes_on_S _ _ _ _ Et). apply H. lia.
Qed.

(** A block fills the array with its magnitudes. *)
Lemma turn_magnitudes (maxFrequence : Z) (s r : loop_state) :
  length (fst (fst s)) = TONES ->
  turn maxFrequence s = Ok r ->
  fst (fst r) = dtmf_mag (measure_all (sampled (snd (fst s)) (snd s))) /\
  length (fst (fst r)) = TONES.
Proof.
  destruct s as [[mags d] w]. cbn [fst snd]. intros Hlen H.
  unfold turn, bind in H. rewrite detect_eq in H. cbv zeta in H.
  destruct (F32.to_unsigned 32 _) as [f|]; [|discriminate].
  apply Ok_inj in H. subst r. cbn [fst snd].
  unfold calculateMeasurement. cbn [fst snd option_map]. unfold memcpy.
  assert (Hm : dtmf_mag (measure_all (set_RealFrequence f (sampled d w))) =
               dtmf_mag (measure_all (sampled d w))).
  { rewrite !measure_all_mags. reflexivity. }
  fold (sampled d w). rewrite Hm.
  assert (L : length (dtmf_mag (measure_all (sampled d w))) = TONES).
  { now rewrite measure_all_mags, length_map, length_seq. }
  rewrite firstn_all2, skipn_all2, app_nil_r by lia.
  split; [reflexivity | exact L].
Qed.

Lemma turns_length (maxFrequence : Z) (n : nat) :
  forall s sn : loop_state,
  length (fst (fst s)) = TONES ->
  turns n maxFrequence s = Ok sn -> length (fst (fst sn)) = TONES.
Proof.
  induction n as [|n IH]; intros s sn Hlen H.
  - apply Ok_inj in H. now subst sn.
  - rewrite turns_S in H.
    destruct (turn maxFrequence s) as [s'| |] eqn:Et; try discriminate.
    apply (IH s' sn); [|exact H].
    now destruct (turn_magnitudes maxFrequence s s' Hlen Et).
Qed.

End LoopFacts.

(** ** Blocks on a scripted board *)

Section Scripted.

Variables (clock line : nat -> Z) (coeff : nat -> Z -> float).

Lemma sim_paced_sample_step_ticks (d : PhoneDTMF) (w : sim_world) :
  ticks (snd (paced_sample (P := sim clock line coeff) d w)) = ticks w.
Proof. reflexivity. Qed.

Lemma sim_paced_sample_ticks (n : nat) :
  forall (d : PhoneDTMF) (w : sim_world),
  ticks (snd (repeat_io n (paced_sample (P := sim clock line coeff)) d w)) =
  ticks w.
Proof.
  induction n as [|n IH]; intros d w; [reflexivity|].
  rewrite repeat_io_S, IH. apply sim_paced_sample_step_ticks.
Qed.

End Scripted.

Lemma wrap_elapsed (a b : Z) :
  wrap_uint 32 (a + b - wrap_uint 32 a) = wrap_uint 32 b.
Proof.
  unfold wrap_uint. rewrite Zminus_mod_idemp_r. f_equal. lia.
Qed.

Lemma block_clock_start (warm : Z) (dur : nat -> Z) (j : nat) :
  block_clock warm dur (S (S (2 * j))) = warm + elapsed_before dur j.
Proof.
  unfold block_clock.
  rewrite Nat.div2_double.
  replace (Nat.odd (2 * j)) with false; [lia|].
  symmetry. rewrite <- Nat.negb_even, Nat.even_mul. reflexivity.
Qed.

Lemma block_clock_stop (warm : Z) (dur : nat -> Z) (j : nat) :
  block_clock warm dur (S (S (S (2 * j)))) =
  warm + elapsed_before dur j + dur j.
Proof.
  unfold block_clock.
  rewrite Nat.div2_succ_double.
  replace (Nat.odd (S (2 * j))) with true; [lia|].
  symmetry. rewrite Nat.odd_succ, Nat.even_mul. reflexivity.
Qed.

(** Block [j] of a board with clock [block_clock warm dur]: the elapsed
    time [detect] computes is [dur j]. *)
Lemma sim_block_elapsed (warm : Z) (dur line : nat -> Z)
    (coeff : nat -> Z -> float) (d : PhoneDTMF) (w : sim_world) (j n : nat) :
  ticks w = S (S (2 * j)) -> 0 <= dur j < 2 ^ 32 ->
  wrap_uint 32
    (fst (millis (Platform := sim (block_clock warm dur) line coeff)
            (snd (repeat_io n
                    (paced_sample (P := sim (block_clock warm dur) line coeff)) d
                    (snd (millis (Platform := sim (block_clock warm dur) line coeff) w)))))
     - wrap_uint 32
         (fst (millis (Platform := sim (block_clock warm dur) line coeff) w)))
  = dur j /\
  ticks (snd (millis (Platform := sim (block_clock warm dur) line coeff)
                (snd (repeat_io n
                        (paced_sample (P := sim (block_clock warm dur) line coeff)) d
                        (snd (millis (Platform := sim (block_clock warm dur) line coeff) w))))))
  = S (S (2 * S j)).
Proof.
  intros Ht Hd.
  pose proof (sim_paced_sample_ticks (block_clock warm dur) line coeff n d
                (snd (millis (Platform := sim (block_clock warm dur) line coeff) w)))
    as Hticks.
  set (w1 := snd (repeat_io n _ d _)) in *.
  change (wrap_uint 32 (block_clock warm dur (ticks w1)
                        - wrap_uint 32 (block_clock warm dur (ticks w))) = dur j /\
          S (ticks w1) = S (S (2 * S j))).
  change (ticks w1 = S (ticks w)) in Hticks.
  rewrite Hticks, Ht, block_clock_start, block_clock_stop.
  split.
  - rewrite wrap_elapsed. now apply wrap_uint_small.
  - lia.
Qed.

Lemma jitter_block_frequency (j : nat) :
  F32.to_unsigned 32 (block_frequency (jitter_dur j) 128) = Some (jitter_freq j).
Proof.
  unfold jitter_dur, jitter_freq. destruct (Nat.odd j); vm_compute; reflexivity.
Qed.

(** On the jitter board the loop of [begin] is still running after any
    number of turns. *)
Lemma jitter_never_settles (fuel : nat) :
  forall (j : nat) (mags : list float) (d : PhoneDTMF) (w : sim_world),
  ticks w = S (S (2 * j)) ->
  _iSamplesCount d = 128 ->
  _iRealFrequence d <> jitter_freq j ->
  rate_adjust (P := jitter_board) fuel MAX_FREQ mags d w = OutOfFuel.
Proof.
  induction fuel as [|fuel IH]; intros j mags d w Ht Hn Hf; [reflexivity|].
  rewrite rate_adjust_S, detect_eq. cbv zeta.
  assert (Hdur : 0 <= jitter_dur j < 2 ^ 32).
  { unfold jitter_dur. destruct (Nat.odd j); lia. }
  destruct (sim_block_elapsed 200 jitter_dur idle_line probe_coeff d w j
              (Z.to_nat (_iSamplesCount d)) Ht Hdur) as [He Ht'].
  unfold jitter_board at 1 2 3 4 5.
  rewrite He.
  replace (block_frequency (jitter_dur j) (_iSamplesCount d))
    with (block_frequency (jitter_dur j) 128) by (now rewrite Hn).
  rewrite jitter_block_frequency.
  set (r := repeat_io _ _ d _) in *.
  set (w1 := snd (millis (snd r))) in *.
  set (d1 := ResetDTMF (set_RealFrequence (jitter_freq j) (fst r))).
  assert (Hreal : _iRealFrequence (adjust MAX_FREQ d1) = jitter_freq j).
  { destruct (adjust_settings MAX_FREQ d1) as (-> & _).
    unfold d1. now destruct (ResetDTMF_settings (set_RealFrequence (jitter_freq j) (fst r)))
      as (_ & _ & _ & _ & _ & -> & _). }
  assert (Hcount : _iSamplesCount (adjust MAX_FREQ d1) = 128).
  { destruct (adjust_settings MAX_FREQ d1) as (_ & -> & _).
    unfold d1. destruct (ResetDTMF_settings (set_RealFrequence (jitter_freq j) (fst r)))
      as (_ & -> & _).
    change (_iSamplesCount (fst r) = 128).
    destruct (repeat_io_settings
                (paced_sample (P := sim (block_clock 200 jitter_dur) idle_line probe_coeff))
                (Z.to_nat (_iSamplesCount d))
                paced_sample_settings d
                (snd (millis (Platform := sim (block_clock 200 jitter_dur) idle_line probe_coeff) w)))
      as (_ & Hc & _).
    exact (eq_trans Hc Hn). }
  rewrite Hreal.
  destruct (Z.eqb_spec (_iRealFrequence d) (jitter_freq j)) as [E|_];
    [contradiction|].
  apply (IH (S j)).
  - exact Ht'.
  - exact Hcount.
  - rewrite Hreal. unfold jitter_freq. rewrite Nat.odd_succ, <- Nat.negb_odd.
    destruct (Nat.odd j); cbn [negb]; lia.
Qed.

(** ** The loop of [begin] has no bound *)

Lemma jitter_warmup :
  exists d1 w1,
    warmup (P := jitter_board) 4 MAX_FREQ (PhoneDTMF_new 128) sim_start
      = Ok (d1, w1) /\
    ticks w1 = 2%nat /\ _iSamplesCount d1 = 128 /\ _iRealFrequence d1 = 0.
Proof.
  destruct (warmup (P := jitter_board) 4 MAX_FREQ (PhoneDTMF_new 128) sim_start)
    as [[d1 w1]| |] eqn:E.
  - exists d1, w1. split; [reflexivity|].
    pose proof (f_equal (fun o => match o with
                                  | Ok (d, w) =>
                                      (ticks w, _iSamplesCount d, _iRealFrequence d)
                                  | _ => (0%nat, 0, 0)
                                  end) E) as H.
    vm_compute in H. apply pair3_inj in H. destruct H as (H1 & H2 & H3).
    now repeat split.
  - apply (f_equal (fun o => match o with Ok _ => true | _ => false end)) in E.
    vm_compute in E. discriminate E.
  - apply (f_equal (fun o => match o with Ok _ => true | _ => false end)) in E.
    vm_compute in E. discriminate E.
Qed.

(** C5, as stated, fails: on a board whose blocks take 21 ms and 22 ms in
    turn the loop of [begin] never measures the same frequency twice in a
    row; [begin] is still in the loop after 50 turns, and after any number
    of turns. *)
Lemma rate_adjust_loop_is_unbounded :
  begin (P := jitter_board) 50 4 MAX_FREQ (PhoneDTMF_new 128) sim_start
    = OutOfFuel /\
  (forall fuel : nat,
     begin (P := jitter_board) fuel 4 MAX_FREQ (PhoneDTMF_new 128) sim_start
       = OutOfFuel).
Proof.
  assert (H : forall fuel : nat,
     begin (P := jitter_board) fuel 4 MAX_FREQ (PhoneDTMF_new 128) sim_start
       = OutOfFuel).
  { intros fuel. unfold begin.
    destruct jitter_warmup as (d1 & w1 & -> & Ht & Hn & Hf).
    unfold bind.
    rewrite (jitter_never_settles fuel 0 (repeat F32.zero TONES) d1 w1);
      [reflexivity | exact Ht | exact Hn | ].
    rewrite Hf. discriminate. }
  split; [apply H | exact H].
Qed.

Section LoopFacts2.

Context {W : Type} {P : Platform W}.

(** The first fixed point decides the outcome for every fuel. *)
Lemma rate_adjust_by_fuel (maxFrequence : Z) (n : nat) (s sn r : loop_state) :
  first_fixed_point maxFrequence n s sn r ->
  forall fuel : nat,
    rate_adjust fuel maxFrequence (fst (fst s)) (snd (fst s)) (snd s) =
    if (fuel <=? n)%nat then OutOfFuel else Ok r.
Proof.
  intros H fuel. destruct (Nat.leb_spec fuel n) as [Hle|Hlt].
  - apply rate_adjust_still_running. intros j Hj.
    destruct H as (_ & _ & _ & H). apply H. lia.
  - apply rate_adjust_returns. now exists n, sn.
Qed.

Lemma begin_more_fuel (fuel extra : nat) (sensorPin maxFrequence : Z)
    (d : PhoneDTMF) (w : W) x :
  begin fuel sensorPin maxFrequence d w = Ok x ->
  begin (fuel + extra) sensorPin maxFrequence d w = Ok x.
Proof.
  unfold begin. destruct (warmup sensorPin maxFrequence d w) as [[d1 w1]| |];
    unfold bind; try discriminate.
  destruct (rate_adjust fuel maxFrequence (repeat F32.zero TONES) d1 w1)
    as [[[mags d2] w2]| |] eqn:E; try discriminate.
  now rewrite (rate_adjust_more_fuel fuel extra _ _ _ _ _ E).
Qed.

End LoopFacts2.

(** C5, amended: the loop has no bound on its turns and no failure to
    report.  With [fuel] turns allowed it returns [r] exactly when one of
    these turns is the first after which the engine holds the frequency it
    held before the turn, and [r] is what that turn left; it is still
    running after [fuel] turns exactly when every one of them was run and
    changed the frequency.  The turn at which it returns does not depend on
    the fuel: with less it is still running, with more the result is the
    same. *)
Theorem rate_adjust_returns_at_fixed_point
    {W : Type} {P : Platform W} (fuel : nat) (maxFrequence : Z)
    (mags : list float) (d : PhoneDTMF) (w : W) :
  (forall r,
     rate_adjust fuel maxFrequence mags d w = Ok r <->
     exists n sn,
       (n < fuel)%nat /\ first_fixed_point maxFrequence n (mags, d, w) sn r) /\
  (rate_adjust fuel maxFrequence mags d w = OutOfFuel <->
   forall j, (j < fuel)%nat -> goes_on maxFrequence (mags, d, w) j) /\
  (forall n sn r,
     first_fixed_point maxFrequence n (mags, d, w) sn r ->
     forall fuel' : nat,
       rate_adjust fuel' maxFrequence mags d w =
       if (fuel' <=? n)%nat then OutOfFuel else Ok r).
Proof.
  split; [|split].
  - intros r. exact (rate_adjust_returns fuel maxFrequence (mags, d, w) r).
  - exact (rate_adjust_still_running fuel maxFrequence (mags, d, w)).
  - intros n sn r H fuel'.
    exact (rate_adjust_by_fuel maxFrequence n (mags, d, w) sn r H fuel').
Qed.

Lemma rate_adjust_returns_at_fixed_point_witness :
  exists n sn r,
    (n < 3)%nat /\
    first_fixed_point (P := steady_board) MAX_FREQ n
      (repeat F32.zero TONES, PhoneDTMF_new 128,
       {| ticks := 2; reads := 0; paused := 0 |}) sn r /\
    _iRealFrequence (snd (fst r)) = 5818 /\
    rate_adjust (P := steady_board) 7 MAX_FREQ (repeat F32.zero TONES)
      (PhoneDTMF_new 128) {| ticks := 2; reads := 0; paused := 0 |} = Ok r.
Proof.
  destruct (rate_adjust_returns_at_fixed_point (P := steady_board) 3 MAX_FREQ
              (repeat F32.zero TONES) (PhoneDTMF_new 128)
              {| ticks := 2; reads := 0; paused := 0 |}) as (Hok & _ & Hfuel).
  destruct (rate_adjust (P := steady_board) 3 MAX_FREQ (repeat F32.zero TONES)
              (PhoneDTMF_new 128) {| ticks := 2; reads := 0; paused := 0 |})
    as [r| |] eqn:E.
  - destruct (proj1 (Hok r) eq_refl) as (n & sn & Hn & Hfix).
    exists n, sn, r. split; [exact Hn|]. split; [exact Hfix|]. split.
    + apply (f_equal (fun o => match o with
                               | Ok (_, d, _) => _iRealFrequence d
                               | _ => 0
                               end)) in E.
      vm_compute in E. destruct r as [[m d] w]. symmetry. exact E.
    + rewrite (Hfuel n sn r Hfix 7%nat).
      destruct (Nat.leb_spec 7 n) as [Hle|Hlt]; [lia | reflexivity].
  - apply (f_equal (fun o => match o with Ok _ => true | _ => false end)) in E.
    vm_compute in E. discriminate E.
  - apply (f_equal (fun o => match o with Ok _ => true | _ => false end)) in E.
    vm_compute in E. discriminate E.
Defined.

(** ** The base magnitude *)

(** C7, as stated, fails: on a board that settles at the second block,
    [begin] has read 1000 + 1 + 2 * 128 samples when it returns, where the
    calibration with one more block reads 128 more, and the two leave
    different base magnitudes; what the calibration with one more block
    returns is not what any turn of the loop has left. *)
Lemma begin_runs_no_extra_block :
  option_map reads
    (world_of (begin (P := steady_board) 5 4 MAX_FREQ (PhoneDTMF_new 128) sim_start))
    = Some 1257%nat /\
  option_map reads
    (world_of (begin_with_extra_block (P := steady_board) 5 4 MAX_FREQ
                 (PhoneDTMF_new 128) sim_start))
    = Some 1385%nat /\
  option_map _fBaseMagnitude
    (engine_of (begin (P := steady_board) 5 4 MAX_FREQ (PhoneDTMF_new 128) sim_start))
    = Some (S754_finite false 8526735 (-18)) /\
  option_map _fBaseMagnitude
    (engine_of (begin_with_extra_block (P := steady_board) 5 4 MAX_FREQ
                  (PhoneDTMF_new 128) sim_start))
    = Some (S754_finite false 8897463 (-20)) /\
  (forall r d' w',
     begin_with_extra_block (P := steady_board) 5 4 MAX_FREQ
       (PhoneDTMF_new 128) sim_start = Ok (r, d', w') ->
     ~ exists d1 w1 n sn mags dL,
         warmup (P := steady_board) 4 MAX_FREQ (PhoneDTMF_new 128) sim_start
           = Ok (d1, w1) /\
         first_fixed_point (P := steady_board) MAX_FREQ n
           (repeat F32.zero TONES, d1, w1) sn (mags, dL, w') /\
         finish (P := steady_board) mags dL = (r, d')).
Proof.
  split; [vm_compute; reflexivity|].
  split; [vm_compute; reflexivity|].
  split; [vm_compute; reflexivity|].
  split; [vm_compute; reflexivity|].
  intros r d' w' Hx (d1 & w1 & n & sn & mags & dL & Hw & Hfix & Hfin).
  assert (Hb : begin (P := steady_board) (S n) 4 MAX_FREQ (PhoneDTMF_new 128)
                 sim_start = Ok (r, d', w')).
  { unfold begin. rewrite Hw. unfold bind.
    assert (E : rate_adjust (P := steady_board) (S n) MAX_FREQ
                  (repeat F32.zero TONES) d1 w1 = Ok (mags, dL, w')).
    { exact (proj2 (rate_adjust_returns (P := steady_board) (S n) MAX_FREQ
                      (repeat F32.zero TONES, d1, w1) (mags, dL, w'))
               (ex_intro _ n (ex_intro _ sn (conj (Nat.lt_succ_diag_r n) Hfix)))). }
    rewrite E. now rewrite Hfin. }
  apply (begin_more_fuel (P := steady_board) (S n) 5) in Hb.
  destruct (begin (P := steady_board) 5 4 MAX_FREQ (PhoneDTMF_new 128) sim_start)
    as [x| |] eqn:E5.
  - pose proof (begin_more_fuel (P := steady_board) 5 (S n) _ _ _ _ _ E5) as E6.
    replace (5 + S n)%nat with (S n + 5)%nat in E6 by lia.
    rewrite E6 in Hb. apply Ok_inj in Hb. subst x.
    apply (f_equal (fun o => option_map reads (world_of o))) in Hx.
    apply (f_equal (fun o => option_map reads (world_of o))) in E5.
    vm_compute in Hx. vm_compute in E5.
    rewrite <- E5 in Hx. discriminate Hx.
  - apply (f_equal (fun o => match o with Ok _ => true | _ => false end)) in E5.
    vm_compute in E5. discriminate E5.
  - apply (f_equal (fun o => match o with Ok _ => true | _ => false end)) in E5.
    vm_compute in E5. discriminate E5.
Qed.

Section Finish.

Context {W : Type} {P : Platform W}.

Lemma compute_coefficients_settings (d : PhoneDTMF) :
  _fBaseMagnitude (compute_coefficients d) = _fBaseMagnitude d /\
  _iRealFrequence (compute_coefficients d) = _iRealFrequence d /\
  length (_afToneCoeff (compute_coefficients d)) = length (_afToneCoeff d).
Proof.
  unfold compute_coefficients.
  apply (for_loop_invariant
           (fun _ a => _fBaseMagnitude a = _fBaseMagnitude d /\
                       _iRealFrequence a = _iRealFrequence d /\
                       length (_afToneCoeff a) = length (_afToneCoeff d))).
  - now repeat split.
  - intros i a _ (H1 & H2 & H3). simpl. now rewrite aset_length.
Qed.

(** Every coefficient is computed from the frequency the engine holds. *)
Lemma compute_coefficients_from_frequency (d : PhoneDTMF) (i : nat) :
  length (_afToneCoeff d) = TONES -> (i < TONES)%nat ->
  aget i (_afToneCoeff (compute_coefficients d)) =
  tone_coeff i (_iRealFrequence d).
Proof.
  intros Hlen Hi. unfold compute_coefficients.
  assert (H : forall k, (k <= TONES)%nat ->
            let a := for_loop k
              (fun i d => set_ToneCoeff
                 (aset i (tone_coeff i (_iRealFrequence d)) (_afToneCoeff d)) d) d in
            _iRealFrequence a = _iRealFrequence d /\
            length (_afToneCoeff a) = TONES /\
            forall j, (j < k)%nat ->
              aget j (_afToneCoeff a) = tone_coeff j (_iRealFrequence d)).
  { induction k as [|k IH]; intros Hk.
    - simpl. repeat split; auto. intros j Hj; lia.
    - cbv zeta. rewrite for_loop_S.
      destruct (IH ltac:(lia)) as (Hf & Hl & Hc). cbv zeta in Hf, Hl, Hc.
      simpl. rewrite aset_length, Hf. repeat split; auto.
      intros j Hj. destruct (Nat.eq_dec k j) as [->|Hne].
      + now rewrite aget_aset_same by lia.
      + rewrite aget_aset_other by exact Hne. apply Hc. lia. }
  destruct (H TONES (Nat.le_refl _)) as (_ & _ & Hc). now apply Hc.
Qed.

Lemma finish_base_magnitude (mags : list float) (d : PhoneDTMF) :
  _fBaseMagnitude (snd (finish mags d)) = mean_magnitude mags.
Proof.
  unfold finish. cbv zeta. cbn [snd].
  destruct (ResetDTMF_settings
              (compute_coefficients (set_BaseMagnitude (mean_magnitude mags) d)))
    as (_ & _ & _ & _ & _ & _ & -> & _).
  now destruct (compute_coefficients_settings
                  (set_BaseMagnitude (mean_magnitude mags) d)) as (-> & _).
Qed.

End Finish.

(** C7, amended: [begin] runs no block after the loop.  It returns exactly
    when the warm-up returns and one of the turns allowed is the first to
    end at a fixed point; the world it returns is the world that turn
    left, the array averaged into [_fBaseMagnitude] holds the magnitudes of
    the block of that turn, the last of the loop, and the engine and the
    result are what lines 73-92 make of the engine that turn left. *)
Theorem begin_base_magnitude_of_last_loop_block
    {W : Type} {P : Platform W} (fuel : nat) (sensorPin maxFrequence : Z)
    (d : PhoneDTMF) (w : W) (r : Z) (d' : PhoneDTMF) (w' : W) :
  begin fuel sensorPin maxFrequence d w = Ok (r, d', w') <->
  exists d1 w1 n sn mags dL,
    warmup sensorPin maxFrequence d w = Ok (d1, w1) /\
    (n < fuel)%nat /\
    first_fixed_point maxFrequence n (repeat F32.zero TONES, d1, w1) sn
      (mags, dL, w') /\
    mags = dtmf_mag (measure_all (sampled (snd (fst sn)) (snd sn))) /\
    finish mags dL = (r, d') /\
    _fBaseMagnitude d' = mean_magnitude mags.
Proof.
  unfold begin. split.
  - intros H.
    destruct (warmup sensorPin maxFrequence d w) as [[d1 w1]| |];
      unfold bind in H; try discriminate.
    destruct (rate_adjust fuel maxFrequence (repeat F32.zero TONES) d1 w1)
      as [[[mags d2] w2]| |] eqn:E; try discriminate.
    destruct (proj1 (rate_adjust_returns fuel maxFrequence
                       (repeat F32.zero TONES, d1, w1) (mags, d2, w2)) E)
      as (n & sn & Hn & Hfix).
    pose proof (finish_base_magnitude mags d2) as Hbase.
    destruct (finish mags d2) as [r' d3] eqn:Ef.
    apply Ok_inj, pair3_inj in H. destruct H as (-> & -> & ->).
    exists d1, w1, n, sn, mags, d2.
    split; [reflexivity|]. split; [exact Hn|]. split; [exact Hfix|].
    split; [|split; [exact Ef | exact Hbase]].
    destruct Hfix as (Hturns & Hturn & _).
    assert (L : length (fst (fst sn)) = TONES).
    { apply (turns_length maxFrequence n (repeat F32.zero TONES, d1, w1) sn);
        [apply repeat_length | exact Hturns]. }
    exact (proj1 (turn_magnitudes maxFrequence sn (mags, d2, w') L Hturn)).
  - intros (d1 & w1 & n & sn & mags & dL & Hw & Hn & Hfix & _ & Hfin & _).
    rewrite Hw. unfold bind.
    assert (E : rate_adjust fuel maxFrequence (repeat F32.zero TONES) d1 w1 =
                Ok (mags, dL, w')).
    { exact (proj2 (rate_adjust_returns fuel maxFrequence
                      (repeat F32.zero TONES, d1, w1) (mags, dL, w'))
               (ex_intro _ n (ex_intro _ sn (conj Hn Hfix)))). }
    rewrite E. now rewrite Hfin.
Qed.

Lemma begin_base_magnitude_of_last_loop_block_witness :
  exists r d' w' d1 w1 n sn mags dL,
    begin (P := steady_board) 5 4 MAX_FREQ (PhoneDTMF_new 128) sim_start
      = Ok (r, d', w') /\
    warmup (P := steady_board) 4 MAX_FREQ (PhoneDTMF_new 128) sim_start
      = Ok (d1, w1) /\
    first_fixed_point (P := steady_board) MAX_FREQ n
      (repeat F32.zero TONES, d1, w1) sn (mags, dL, w') /\
    _fBaseMagnitude d' = mean_magnitude mags /\
    reads w' = 1257%nat.
Proof.
  destruct (begin (P := steady_board) 5 4 MAX_FREQ (PhoneDTMF_new 128) sim_start)
    as [[[r d'] w']| |] eqn:E.
  - destruct (proj1 (begin_base_magnitude_of_last_loop_block
                       (P := steady_board) 5 4 MAX_FREQ
                       (PhoneDTMF_new 128) sim_start r d' w') E)
      as (d1 & w1 & n & sn & mags & dL & Hw & _ & Hfix & _ & _ & Hbase).
    exists r, d', w', d1, w1, n, sn, mags, dL.
    split; [reflexivity|]. split; [exact Hw|]. split; [exact Hfix|].
    split; [exact Hbase|].
    apply (f_equal (fun o => match o with
                             | Ok (_, _, w) => reads w
                             | _ => 0%nat
                             end)) in E.
    vm_compute in E. symmetry. exact E.
  - apply (f_equal (fun o => match o with Ok _ => true | _ => false end)) in E.
    vm_compute in E. discriminate E.
  - apply (f_equal (fun o => match o with Ok _ => true | _ => false end)) in E.
    vm_compute in E. discriminate E.
Defined.

(** ** The seed of the delay *)

(** C6 at the failing input: with [maxFrequence = 4000] on a board that
    reads 1000 samples in 20 ms the warm-up seeds the delay with 230
    microseconds, the loop (whose steps stop at 200) leaves it there, and
    [begin] returns with a delay of 230. *)
Lemma seed_delay_is_not_clamped :
  seed_compensation 4000 (warmup_frequency 20) (PhoneDTMF_new 128)
    = Ok (set_Compensation 230 (PhoneDTMF_new 128)) /\
  option_map _iCompensation
    (engine_of (begin (P := fast_board) 5 4 4000 (PhoneDTMF_new 128) sim_start))
    = Some 230 /\
  returned (begin (P := fast_board) 5 4 4000 (PhoneDTMF_new 128) sim_start)
    = Some 3878.
Proof.
  repeat split; vm_compute; reflexivity.
Qed.

(** ** The rate measurement has no guard *)

(** C4 at the failing inputs: no rate measurement tests its divisor.  With
    a sample count of zero [detect] measures the frequency 0 without
    reporting anything, and [begin] returns 0 after it has computed every
    coefficient from the frequency 0; with an elapsed time of zero the
    frequency is infinite and its conversion to an integer is undefined. *)
Lemma rate_measurement_is_not_guarded :
  returned (begin (P := slow_block_board) 5 4 MAX_FREQ (PhoneDTMF_new 0) sim_start)
    = Some 0 /\
  option_map _iRealFrequence
    (engine_of (begin (P := slow_block_board) 5 4 MAX_FREQ (PhoneDTMF_new 0) sim_start))
    = Some 0 /\
  option_map _afToneCoeff
    (engine_of (begin (P := slow_block_board) 5 4 MAX_FREQ (PhoneDTMF_new 0) sim_start))
    = Some (map (fun i => probe_coeff i 0) (seq 0 TONES)) /\
  block_frequency 0 128 = S754_infinity false /\
  detect (P := sim (fun _ => 5) idle_line probe_coeff) None default_magnitude
    (PhoneDTMF_new 128) sim_start = Undefined.
Proof.
  repeat split; vm_compute; reflexivity.
Qed.

(** * Further properties of the code *)


(** ** The flags of the bitmask *)

Lemma flag_loop_bits (mags : list float) (thr : float) (k : nat) :
  (k <= 8)%nat ->
  0 <= for_loop k (flag_iter mags thr) 0 < 256 /\
  forall i : nat,
    Z.testbit (for_loop k (flag_iter mags thr) 0) (Z.of_nat i) =
    (i <? k)%nat && F32.gtb (aget i mags) thr.
Proof.
  induction k as [|k IH]; intros Hk.
  - rewrite for_loop_0. split; [lia|]. intros i. now rewrite Z.bits_0.
  - destruct (IH ltac:(lia)) as [Hr Hb]. rewrite for_loop_S.
    set (acc := for_loop k (flag_iter mags thr) 0) in *.
    unfold flag_iter.
    destruct (F32.gtb (aget k mags) thr) eqn:Eg.
    + split.
      * unfold wrap_uint. change 256 with (2 ^ 8). apply Z.mod_pos_bound. lia.
      * intros i. unfold wrap_uint.
        rewrite Z.testbit_mod_pow2 by lia.
        rewrite Z.lor_spec, Hb, Z.shiftl_1_l, Z.pow2_bits_eqb by lia.
        destruct (Nat.eq_dec i k) as [->|Hne].
        -- rewrite Z.eqb_refl, Eg, orb_true_r.
           replace (Z.of_nat k <? 8) with true by (symmetry; apply Z.ltb_lt; lia).
           replace (k <? S k)%nat with true by (symmetry; apply Nat.ltb_lt; lia).
           reflexivity.
        -- replace (Z.of_nat k =? Z.of_nat i) with false
             by (symmetry; apply Z.eqb_neq; lia).
           rewrite orb_false_r.
           destruct (Nat.ltb_spec i k) as [Hlt|Hge].
           ++ replace (Z.of_nat i <? 8) with true by (symmetry; apply Z.ltb_lt; lia).
              replace (i <? S k)%nat with true by (symmetry; apply Nat.ltb_lt; lia).
              reflexivity.
           ++ replace (i <? S k)%nat with false by (symmetry; apply Nat.ltb_ge; lia).
              now rewrite andb_false_r.
    + split; [exact Hr|]. intros i. rewrite Hb.
      destruct (Nat.eq_dec i k) as [->|Hne].
      * rewrite Eg, !andb_false_r. reflexivity.
      * f_equal. destruct (Nat.ltb_spec i k), (Nat.ltb_spec i (S k)); auto; lia.
Qed.

(** X1: the bitmask is an 8-bit number and, for every tone [i], its bit [i] is
    set exactly when the magnitude of tone [i] is strictly greater than the
    threshold in force; no other bit is ever set. *)
Theorem calculateMeasurement_flags
    (pRet : option (list float)) (magnitude : float) (d : PhoneDTMF) (i : nat) :
  0 <= fst (fst (calculateMeasurement pRet magnitude d)) < 256 /\
  Z.testbit (fst (fst (calculateMeasurement pRet magnitude d))) (Z.of_nat i) =
    (i <? TONES)%nat &&
    F32.gtb (magnitude_of d i) (resolve_threshold magnitude (measure_all d)).
Proof.
  unfold calculateMeasurement. cbn [fst].
  destruct (flag_loop_bits (dtmf_mag (measure_all d))
              (resolve_threshold magnitude (measure_all d)) TONES
              (Nat.le_refl _)) as [Hr Hb].
  split; [exact Hr|]. rewrite Hb.
  destruct (Nat.ltb_spec i TONES) as [Hi|Hi]; [|reflexivity].
  cbn [andb]. f_equal. rewrite measure_all_mags. unfold aget.
  rewrite (nth_indep _ F32.zero (magnitude_of d 0)) by (now rewrite length_map, length_seq).
  rewrite map_nth, seq_nth by exact Hi. reflexivity.
Qed.


(** ** Silence *)

Lemma for_loop_related_below {S T : Type} (R : S -> T -> Prop) (n : nat)
    (f : nat -> S -> S) (g : nat -> T -> T) (s : S) (t : T) :
  R s t ->
  (forall i a b, (i < n)%nat -> R a b -> R (f i a) (g i b)) ->
  R (for_loop n f s) (for_loop n g t).
Proof.
  intros H0 Hstep.
  assert (H : forall k, (k <= n)%nat -> R (for_loop k f s) (for_loop k g t)).
  { induction k as [|k IH]; intros Hk.
    - exact H0.
    - rewrite !for_loop_S. apply Hstep; [lia | apply IH; lia]. }
  apply H. lia.
Qed.

(** [midMag] is the sum of the magnitudes in the order of the tones,
    starting from [0.0f]. *)
Lemma measure_all_mid (d : PhoneDTMF) :
  midMag (measure_all d) = magnitude_sum d.
Proof.
  unfold measure_all, magnitude_sum.
  apply (for_loop_related_below
           (fun l acc => midMag l = acc /\ length (dtmf_mag l) = TONES)).
  - split; [reflexivity | apply repeat_length].
  - intros i l acc Hi [Hm Hl].
    rewrite measure_iter_mid, measure_iter_mags, aset_length.
    rewrite aget_aset_same by lia. now rewrite Hm.
Qed.

Lemma silent_update (c : float) :
  is_number c = true ->
  F32.add (F32.sub (F32.mul c F32.zero) F32.zero) (F32.of_Z 0) = F32.zero.
Proof.
  destruct c as [s|s| |s m e]; try discriminate; intros _;
    destruct s; reflexivity.
Qed.

Lemma silent_magnitude (c : float) :
  is_number c = true ->
  F32.sqrt
    (F32.sub (F32.add (F32.mul F32.zero F32.zero) (F32.mul F32.zero F32.zero))
             (F32.mul (F32.mul c F32.zero) F32.zero)) = F32.zero.
Proof.
  destruct c as [s|s| |s m e]; try discriminate; intros _;
    destruct s; reflexivity.
Qed.

Lemma aget_zeros (i n : nat) : aget i (repeat F32.zero n) = F32.zero.
Proof. unfold aget. apply nth_repeat. Qed.

Lemma ProcessSample_silent (d : PhoneDTMF) :
  wf_arrays d -> resonators_zero d ->
  (forall i, (i < TONES)%nat -> is_number (aget i (_afToneCoeff d)) = true) ->
  ProcessSample (_iAdcCentre d) d = d.
Proof.
  intros Hwf [Hq1 Hq2] Hc.
  destruct (ProcessSample_processed (_iAdcCentre d) d Hwf)
    as ((_ & L1 & L2) & _ & _ & Hlow & _).
  apply PhoneDTMF_ext.
  - apply ProcessSample_settings.
  - rewrite Hq1. apply all_equal_repeat; [exact L1|].
    intros j Hj. destruct (Hlow j Hj) as [_ ->].
    rewrite Hq1, Hq2, !aget_zeros, Z.sub_diag. now apply silent_update, Hc.
  - rewrite Hq2. apply all_equal_repeat; [exact L2|].
    intros j Hj. destruct (Hlow j Hj) as [-> _].
    rewrite Hq1. apply aget_zeros.
Qed.

Lemma silent_magnitudes (d : PhoneDTMF) (i : nat) :
  resonators_zero d ->
  (forall i, (i < TONES)%nat -> is_number (aget i (_afToneCoeff d)) = true) ->
  (i < TONES)%nat -> magnitude_of d i = F32.zero.
Proof.
  intros [Hq1 Hq2] Hc Hi. unfold magnitude_of. cbv zeta.
  rewrite Hq1, Hq2, !aget_zeros. now apply silent_magnitude, Hc.
Qed.

Lemma iter_fixed_point {A : Type} (f : A -> A) (x : A) (n : nat) :
  f x = x -> Nat.iter n f x = x.
Proof.
  intros H. induction n as [|n IH]; [reflexivity|].
  change (f (Nat.iter n f x) = x). now rewrite IH.
Qed.

Lemma silent_block_magnitudes (d : PhoneDTMF) :
  resonators_zero d ->
  (forall i, (i < TONES)%nat -> is_number (aget i (_afToneCoeff d)) = true) ->
  dtmf_mag (measure_all d) = repeat F32.zero TONES.
Proof.
  intros Hz Hc. apply all_equal_repeat.
  - now rewrite measure_all_mags, length_map, length_seq.
  - intros j Hj. rewrite measure_all_mags. unfold aget.
    rewrite (nth_indep _ F32.zero (magnitude_of d 0))
      by (now rewrite length_map, length_seq).
    rewrite map_nth, seq_nth by exact Hj. now apply silent_magnitudes.
Qed.

Lemma silent_sum (d : PhoneDTMF) :
  resonators_zero d ->
  (forall i, (i < TONES)%nat -> is_number (aget i (_afToneCoeff d)) = true) ->
  magnitude_sum d = F32.zero.
Proof.
  intros Hz Hc. unfold magnitude_sum.
  apply (for_loop_invariant (fun _ acc => acc = F32.zero)).
  - reflexivity.
  - intros i acc Hi ->. now rewrite silent_magnitudes.
Qed.

Lemma zero_mean_threshold :
  F32.mul (F32.div F32.zero (F32.of_Z (Z.of_nat TONES))) (F32.of_Z 2) = F32.zero.
Proof. vm_compute. reflexivity. Qed.

Lemma silent_threshold (d : PhoneDTMF) (magnitude : float) :
  resonators_zero d ->
  (forall i, (i < TONES)%nat -> is_number (aget i (_afToneCoeff d)) = true) ->
  F32.gtb F32.zero (resolve_threshold magnitude (measure_all d)) = false.
Proof.
  intros Hz Hc. unfold resolve_threshold.
  destruct (F32.ltb magnitude (F32.of_Z 0)) eqn:E.
  - rewrite measure_all_mid, silent_sum, zero_mean_threshold by assumption.
    reflexivity.
  - exact E.
Qed.

Lemma flags_of_silence (thr : float) (n : nat) :
  F32.gtb F32.zero thr = false ->
  for_loop n (flag_iter (repeat F32.zero TONES) thr) 0 = 0.
Proof.
  intros Hthr.
  apply (for_loop_invariant (fun _ acc => acc = 0)).
  - reflexivity.
  - intros i acc Hi ->. unfold flag_iter. now rewrite aget_zeros, Hthr.
Qed.

(** X2: an engine whose accumulators are zero and whose coefficients are
    numbers is not moved by samples that equal the ADC centre: after any
    number of such samples the engine is the same, every magnitude of the
    block is [0.0f], and the bitmask is 0 whatever the threshold argument
    (automatic or explicit). *)
Theorem silence_sets_no_bit (d : PhoneDTMF) (n : nat)
    (pRet : option (list float)) (magnitude : float) :
  wf_arrays d -> resonators_zero d ->
  (forall i, (i < TONES)%nat -> is_number (aget i (_afToneCoeff d)) = true) ->
  Nat.iter n (ProcessSample (_iAdcCentre d)) d = d /\
  dtmf_mag (measure_all (Nat.iter n (ProcessSample (_iAdcCentre d)) d)) =
    repeat F32.zero TONES /\
  fst (fst (calculateMeasurement pRet magnitude
              (Nat.iter n (ProcessSample (_iAdcCentre d)) d))) = 0.
Proof.
  intros Hwf Hz Hc.
  rewrite (iter_fixed_point (ProcessSample (_iAdcCentre d)) d n
             (ProcessSample_silent d Hwf Hz Hc)).
  split; [reflexivity|]. split; [now apply silent_block_magnitudes|].
  unfold calculateMeasurement. cbn [fst].
  rewrite silent_block_magnitudes by assumption.
  apply flags_of_silence. now apply silent_threshold.
Qed.

Lemma silence_sets_no_bit_witness :
  Nat.iter 128 (ProcessSample 512) idle_engine = idle_engine /\
  fst (fst (calculateMeasurement None default_magnitude
              (Nat.iter 128 (ProcessSample 512) idle_engine))) = 0.
Proof.
  destruct (silence_sets_no_bit idle_engine 128 None default_magnitude)
    as (H1 & _ & H3).
  - repeat split.
  - repeat split.
  - intros i Hi. do 8 (destruct i as [|i]; [reflexivity|]).
    unfold TONES in Hi. lia.
  - split; [exact H1 | exact H3].
Defined.


(** ** What a block writes *)

Lemma to_unsigned_range (bits : Z) (x : float) (z : Z) :
  F32.to_unsigned bits x = Some z -> 0 <= z < 2 ^ bits.
Proof.
  unfold F32.to_unsigned. destruct (F32.trunc x) as [t|]; [|discriminate].
  destruct (Z.leb_spec 0 t) as [H0|H0];
    destruct (Z.ltb_spec t (2 ^ bits)) as [H1|H1]; cbn [andb];
    intros E; inversion E; subst; lia.
Qed.

Lemma same_calibration_of_settings (d d1 : PhoneDTMF) (f : Z) :
  same_settings d d1 ->
  same_calibration d (ResetDTMF (set_RealFrequence f d1)).
Proof.
  intros H.
  pose proof (ResetDTMF_settings (set_RealFrequence f d1)) as H'.
  unfold same_settings in H, H'. unfold same_calibration.
  cbn [set_RealFrequence _Pin _iSamplesCount _iCompensation _iAdcCentre
       _iSamplesFrequence _fBaseMagnitude _afToneCoeff] in H'.
  decompose [and] H. decompose [and] H'. repeat split; congruence.
Qed.

Section Frame.

Context {W : Type} {P : Platform W}.

Lemma detect_frame (pMagnitudes : option (list float)) (magnitude : float)
    (d : PhoneDTMF) (w : W) r :
  detect pMagnitudes magnitude d w = Ok r ->
  same_calibration d (snd (fst r)) /\
  0 <= _iRealFrequence (snd (fst r)) < 2 ^ 32 /\
  0 <= fst (fst (fst r)) < 256.
Proof.
  intros H.
  destruct (detect_inv pMagnitudes magnitude d w r H)
    as (d1 & f & _ & Hset & Hf & Hm & Hd & _).
  rewrite Hd. split; [now apply same_calibration_of_settings|]. split.
  - destruct (ResetDTMF_settings (set_RealFrequence f d1))
      as (_ & _ & _ & _ & _ & -> & _).
    exact (to_unsigned_range _ _ _ Hf).
  - rewrite Hm. cbn [fst]. unfold calculateMeasurement. cbn [fst].
    exact (proj1 (flag_loop_bits _ _ TONES (Nat.le_refl _))).
Qed.

End Frame.

(** X3: a call of [detect] that returns gives an 8-bit mask and stores a
    frequency that fits 32 bits; it leaves the pin, the sample count, the
    delay, the ADC centre, the sample frequency, the base magnitude and
    every coefficient as they were.  In particular the coefficients are not
    recomputed for the frequency the block has just measured. *)
Theorem detect_keeps_the_calibration
    {W : Type} {P : Platform W}
    (pMagnitudes : option (list float)) (magnitude : float)
    (d : PhoneDTMF) (w : W)
    (dtmf : Z) (buf : option (list float)) (d' : PhoneDTMF) (w' : W) :
  detect pMagnitudes magnitude d w = Ok (dtmf, buf, d', w') ->
  same_calibration d d' /\
  0 <= getRealFrequence d' < 2 ^ 32 /\
  0 <= dtmf < 256.
Proof.
  intros H. exact (detect_frame pMagnitudes magnitude d w _ H).
Qed.

Lemma detect_keeps_the_calibration_witness :
  match detect (P := fast_board) None default_magnitude idle_engine
          {| ticks := 2; reads := 0; paused := 0 |} with
  | Ok (dtmf, buf, d', w') =>
      same_calibration idle_engine d' /\ 0 <= getRealFrequence d' < 2 ^ 32
  | _ => False
  end.
Proof.
  destruct (detect (P := fast_board) None default_magnitude idle_engine
              {| ticks := 2; reads := 0; paused := 0 |})
    as [[[[dtmf buf] d'] w']| |] eqn:E.
  - destruct (detect_keeps_the_calibration None default_magnitude idle_engine
                {| ticks := 2; reads := 0; paused := 0 |} dtmf buf d' w' E)
      as (H1 & H2 & _).
    split; [exact H1 | exact H2].
  - apply (f_equal (fun o => match o with Ok _ => true | _ => false end)) in E.
    vm_compute in E. discriminate E.
  - apply (f_equal (fun o => match o with Ok _ => true | _ => false end)) in E.
    vm_compute in E. discriminate E.
Defined.

(** ** The delay over the whole loop *)

Section Loop.

Context {W : Type} {P : Platform W}.

(** X4: a delay that enters the loop of [begin] within [0..200] is within
    [0..200] when the loop returns, however many blocks it ran. *)
Theorem rate_adjust_keeps_delay_in_range (fuel : nat) (maxFrequence : Z) :
  forall (mags : list float) (d : PhoneDTMF) (w : W) mags' d' w',
  0 <= _iCompensation d <= 200 ->
  rate_adjust fuel maxFrequence mags d w = Ok (mags', d', w') ->
  0 <= _iCompensation d' <= 200.
Proof.
  induction fuel as [|fuel IH]; intros mags d w mags' d' w' Hc H;
    [discriminate|].
  rewrite rate_adjust_S in H.
  destruct (detect (Some mags) default_magnitude d w)
    as [[[[m b] d1] w1]| |] eqn:Edet; try discriminate.
  destruct (detect_frame _ _ _ _ _ Edet) as ((_ & _ & Hcomp & _) & _).
  cbn [fst snd] in Hcomp.
  assert (Hc1 : 0 <= _iCompensation (adjust maxFrequence d1) <= 200).
  { apply adjust_keeps_delay_in_range. now rewrite Hcomp. }
  cbv zeta in H.
  destruct (_iRealFrequence d =? _iRealFrequence (adjust maxFrequence d1)).
  - apply Ok_inj, pair3_inj in H. destruct H as (_ & <- & _). exact Hc1.
  - exact (IH _ _ _ _ _ _ Hc1 H).
Qed.

End Loop.

Lemma rate_adjust_keeps_delay_in_range_witness :
  match rate_adjust (P := steady_board) 3 MAX_FREQ (repeat F32.zero TONES)
          (set_Compensation 200 (PhoneDTMF_new 128))
          {| ticks := 2; reads := 0; paused := 0 |} with
  | Ok (mags', d', w') => 0 <= _iCompensation d' <= 200
  | _ => False
  end.
Proof.
  destruct (rate_adjust (P := steady_board) 3 MAX_FREQ (repeat F32.zero TONES)
              (set_Compensation 200 (PhoneDTMF_new 128))
              {| ticks := 2; reads := 0; paused := 0 |})
    as [[[mags' d'] w']| |] eqn:E.
  - apply (rate_adjust_keeps_delay_in_range (P := steady_board) 3 MAX_FREQ
             (repeat F32.zero TONES) (set_Compensation 200 (PhoneDTMF_new 128))
             {| ticks := 2; reads := 0; paused := 0 |} mags' d' w');
      [cbn [set_Compensation _iCompensation]; lia | exact E].
  - apply (f_equal (fun o => match o with Ok _ => true | _ => false end)) in E.
    vm_compute in E. discriminate E.
  - apply (f_equal (fun o => match o with Ok _ => true | _ => false end)) in E.
    vm_compute in E. discriminate E.
Defined.


(** ** What [begin] leaves and returns *)

Section Begin.

Context {W : Type} {P : Platform W}.

Lemma rate_adjust_frequency_range (fuel : nat) (maxFrequence : Z) :
  forall (mags : list float) (d : PhoneDTMF) (w : W) mags' d' w',
  rate_adjust fuel maxFrequence mags d w = Ok (mags', d', w') ->
  0 <= _iRealFrequence d' < 2 ^ 32.
Proof.
  induction fuel as [|fuel IH]; intros mags d w mags' d' w' H; [discriminate|].
  rewrite rate_adjust_S in H.
  destruct (detect (Some mags) default_magnitude d w)
    as [[[[m b] d1] w1]| |] eqn:Edet; try discriminate.
  destruct (detect_frame _ _ _ _ _ Edet) as (_ & Hf & _).
  cbn [fst snd] in Hf. cbv zeta in H.
  destruct (_iRealFrequence d =? _iRealFrequence (adjust maxFrequence d1)).
  - apply Ok_inj, pair3_inj in H. destruct H as (_ & <- & _).
    now destruct (adjust_settings maxFrequence d1) as (-> & _).
  - exact (IH _ _ _ _ _ _ H).
Qed.

Lemma finish_spec (mags : list float) (d : PhoneDTMF) :
  fst (finish mags d) = wrap_uint 16 (_iRealFrequence d) /\
  _iRealFrequence (snd (finish mags d)) = _iRealFrequence d /\
  (wf_arrays d ->
   resonators_zero (snd (finish mags d)) /\
   forall i, (i < TONES)%nat ->
     aget i (_afToneCoeff (snd (finish mags d))) =
     tone_coeff i (_iRealFrequence d)).
Proof.
  unfold finish. cbv zeta. cbn [fst snd].
  set (d1 := set_BaseMagnitude (mean_magnitude mags) d).
  destruct (ResetDTMF_settings (compute_coefficients d1))
    as (_ & _ & _ & _ & _ & Hrf & _ & Hco).
  destruct (compute_coefficients_settings d1) as (_ & Hrf1 & Hlen).
  rewrite Hrf, Hrf1. split; [reflexivity|]. split; [reflexivity|].
  intros (Lc & L1 & L2). split.
  - apply ResetDTMF_zero. unfold wf_arrays.
    rewrite Hlen. repeat split; [exact Lc | | ].
    + assert (E : _afQ1 (compute_coefficients d1) = _afQ1 d1).
      { unfold compute_coefficients.
        apply (for_loop_invariant (fun _ a => _afQ1 a = _afQ1 d1));
          [reflexivity | now intros i a _ H]. }
      rewrite E. exact L1.
    + assert (E : _afQ2 (compute_coefficients d1) = _afQ2 d1).
      { unfold compute_coefficients.
        apply (for_loop_invariant (fun _ a => _afQ2 a = _afQ2 d1));
          [reflexivity | now intros i a _ H]. }
      rewrite E. exact L2.
  - intros i Hi. rewrite Hco.
    now rewrite compute_coefficients_from_frequency.
Qed.

Lemma warmup_wf (sensorPin maxFrequence : Z) (d : PhoneDTMF) (w : W) r :
  wf_arrays d -> warmup sensorPin maxFrequence d w = Ok r -> wf_arrays (fst r).
Proof.
  intros Hwf. unfold warmup. cbv zeta.
  destruct (millis (delay 10 (pinMode (_Pin (set_Pin sensorPin d)) w)))
    as [t0 w0].
  pose proof (repeat_io_invariant wf_arrays singleDetect 1000
                singleDetect_wf (set_Pin sensorPin d) w0 Hwf) as H1.
  destruct (repeat_io 1000 singleDetect (set_Pin sensorPin d) w0) as [d1 w1].
  cbn [fst] in H1.
  destruct (millis w1) as [t1 w2].
  unfold seed_compensation.
  destruct (F32.gtb _ _).
  - destruct (F32.to_unsigned compensation_bits _) as [c|];
      unfold defined, bind; [|discriminate].
    destruct (analogRead _ w2) as [centre w3].
    destruct (F32.to_unsigned 32 _); [|discriminate].
    intros H. apply Ok_inj in H. subst r. exact H1.
  - unfold bind.
    destruct (analogRead _ w2) as [centre w3].
    destruct (F32.to_unsigned 32 _); unfold defined; [|discriminate].
    intros H. apply Ok_inj in H. subst r. exact H1.
Qed.

Lemma rate_adjust_wf (fuel : nat) (maxFrequence : Z) :
  forall (mags : list float) (d : PhoneDTMF) (w : W) mags' d' w',
  wf_arrays d ->
  rate_adjust fuel maxFrequence mags d w = Ok (mags', d', w') ->
  wf_arrays d'.
Proof.
  induction fuel as [|fuel IH]; intros mags d w mags' d' w' Hwf H;
    [discriminate|].
  rewrite rate_adjust_S in H.
  destruct (detect (Some mags) default_magnitude d w)
    as [[[[m b] d1] w1]| |] eqn:Edet; try discriminate.
  destruct (detect_inv _ _ _ _ _ Edet) as (d0 & f & Hwf0 & _ & _ & _ & Hd & _).
  cbn [fst snd] in Hd.
  assert (Hwf1 : wf_arrays (adjust maxFrequence d1)).
  { destruct (adjust_settings maxFrequence d1) as (_ & _ & _ & E1 & E2 & Ec).
    unfold wf_arrays. rewrite E1, E2, Ec. subst d1.
    apply ResetDTMF_wf. exact (Hwf0 Hwf). }
  cbv zeta in H.
  destruct (_iRealFrequence d =? _iRealFrequence (adjust maxFrequence d1)).
  - apply Ok_inj, pair3_inj in H. destruct H as (_ & <- & _). exact Hwf1.
  - exact (IH _ _ _ _ _ _ Hwf1 H).
Qed.

(** X5: when [begin] returns, the accumulators are zero, every coefficient is
    the one of its tone at the frequency the engine now holds, and that
    frequency fits 32 bits; the value returned is this frequency reduced
    modulo 2^16 (the return type is [uint16_t]), so it is the frequency
    itself only below 65536 Hz. *)
Theorem begin_postcondition (fuel : nat) (sensorPin maxFrequence : Z)
    (d : PhoneDTMF) (w : W) (r : Z) (d' : PhoneDTMF) (w' : W) :
  wf_arrays d ->
  begin fuel sensorPin maxFrequence d w = Ok (r, d', w') ->
  resonators_zero d' /\
  (forall i, (i < TONES)%nat ->
     aget i (_afToneCoeff d') = tone_coeff i (getRealFrequence d')) /\
  0 <= getRealFrequence d' < 2 ^ 32 /\
  r = getRealFrequence d' mod 2 ^ 16 /\
  (r = getRealFrequence d' <-> getRealFrequence d' < 65536).
Proof.
  intros Hwf H. unfold begin in H.
  destruct (warmup sensorPin maxFrequence d w) as [[d1 w1]| |] eqn:Ew;
    unfold bind in H; try discriminate.
  destruct (rate_adjust fuel maxFrequence (repeat F32.zero TONES) d1 w1)
    as [[[mags d2] w2]| |] eqn:E; try discriminate.
  pose proof (warmup_wf _ _ _ _ _ Hwf Ew) as Hwf1. cbn [fst] in Hwf1.
  pose proof (rate_adjust_wf _ _ _ _ _ _ _ _ Hwf1 E) as Hwf2.
  pose proof (rate_adjust_frequency_range _ _ _ _ _ _ _ _ E) as Hrange.
  destruct (finish_spec mags d2) as (Hr & Hf & Hrest).
  destruct (Hrest Hwf2) as [Hz Hc].
  destruct (finish mags d2) as [r' d3]. cbn [fst snd] in *.
  apply Ok_inj, pair3_inj in H. destruct H as (<- & <- & <-).
  unfold getRealFrequence. rewrite Hf.
  split; [exact Hz|]. split; [exact Hc|]. split; [exact Hrange|].
  split; [exact Hr|]. rewrite Hr. unfold wrap_uint.
  change (2 ^ 16) with 65536. split.
  - intros Heq. rewrite <- Heq. apply Z.mod_pos_bound. lia.
  - intros Hlt. apply Z.mod_small. lia.
Qed.

End Begin.

Lemma begin_postcondition_witness :
  match begin (P := racing_board) 5 4 MAX_FREQ (PhoneDTMF_new 128) sim_start with
  | Ok (r, d', w') =>
      r = 62463 /\ getRealFrequence d' = 127999 /\ resonators_zero d'
  | _ => False
  end.
Proof.
  destruct (begin (P := racing_board) 5 4 MAX_FREQ (PhoneDTMF_new 128) sim_start)
    as [[[r d'] w']| |] eqn:E.
  - destruct (begin_postcondition (P := racing_board) 5 4 MAX_FREQ
                (PhoneDTMF_new 128) sim_start r d' w') as (Hz & _ & _ & Hr & _).
    + repeat split.
    + exact E.
    + pose proof (f_equal (fun o => match o with
                                    | Ok (_, d, _) => getRealFrequence d
                                    | _ => 0
                                    end) E) as Hf.
      vm_compute in Hf.
      split; [|split; [symmetry; exact Hf | exact Hz]].
      change (127999 = getRealFrequence d') in Hf.
      rewrite Hr, <- Hf. reflexivity.
  - apply (f_equal (fun o => match o with Ok _ => true | _ => false end)) in E.
    vm_compute in E. discriminate E.
  - apply (f_equal (fun o => match o with Ok _ => true | _ => false end)) in E.
    vm_compute in E. discriminate E.
Defined.


(** ** Division by zero *)

Lemma block_frequency_no_time (samples : Z) :
  F32.to_unsigned 32 (block_frequency 0 samples) = None.
Proof.
  unfold block_frequency.
  change (F32.div (F32.of_Z 0) (F32.of_Z 1000)) with (S754_zero false).
  destruct (F32.of_Z samples) as [s|s| |s m e]; try destruct s; reflexivity.
Qed.

(** X6: when the millisecond clock reads the same (modulo 2^32) before and
    after the block, [detect] divides by zero: the frequency is an infinity
    or a NaN for every sample count, its conversion to [uint32_t] is
    undefined, and the call has no defined result. *)
Theorem detect_without_clock_progress_is_undefined
    {W : Type} {P : Platform W}
    (pMagnitudes : option (list float)) (magnitude : float)
    (d : PhoneDTMF) (w : W) :
  wrap_uint 32
    (fst (millis (snd (repeat_io (Z.to_nat (_iSamplesCount d)) paced_sample d
                         (snd (millis w)))))
     - wrap_uint 32 (fst (millis w))) = 0 ->
  detect pMagnitudes magnitude d w = Undefined.
Proof.
  intros H. rewrite detect_eq. cbv zeta. rewrite H.
  now rewrite block_frequency_no_time.
Qed.

Lemma detect_without_clock_progress_is_undefined_witness :
  detect (P := sim (fun _ => 5) idle_line probe_coeff) None default_magnitude
    (PhoneDTMF_new 128) sim_start = Undefined.
Proof.
  apply (detect_without_clock_progress_is_undefined
           (P := sim (fun _ => 5) idle_line probe_coeff)).
  reflexivity.
Defined.

(** X7: [getMeasurementTime] divides 1000 by the frequency of the engine;
    while that is 0 (as the constructor leaves it, until [begin] or [detect]
    has measured one) the quotient is infinite, the product with the sample
    count is an infinity or a NaN, and the conversion to [uint16_t] is
    undefined, for every sample count. *)
Theorem getMeasurementTime_undefined_at_zero_frequency (d : PhoneDTMF) :
  getRealFrequence d = 0 -> getMeasurementTime d = None.
Proof.
  unfold getRealFrequence, getMeasurementTime. intros ->.
  change (F32.div (F32.of_Z 1000) (F32.of_Z 0)) with (S754_infinity false).
  destruct (F32.of_Z (_iSamplesCount d)) as [s|s| |s m e]; try destruct s;
    reflexivity.
Qed.

Lemma getMeasurementTime_undefined_at_zero_frequency_witness :
  getMeasurementTime (PhoneDTMF_new 128) = None.
Proof.
  apply getMeasurementTime_undefined_at_zero_frequency. reflexivity.
Defined.

(** ** [tone2char] without the mapping assumption *)

(** X8: [tone2char] returns the character of the first entry whose pattern
    is the bitmask: an entry is found by its pattern only if no earlier entry
    has the same pattern, and a later entry with that pattern is never
    returned. *)
Theorem tone2char_first_match (DTMF_MAP : list Z) (DTMF_CHAR : list ascii)
    (dtmf : Z) (j : nat) :
  (j < TONES * 2)%nat ->
  nth j DTMF_MAP 0 = dtmf ->
  (forall k, (k < j)%nat -> nth k DTMF_MAP 0 <> dtmf) ->
  tone2char DTMF_MAP DTMF_CHAR dtmf = nth j DTMF_CHAR Ascii.zero.
Proof.
  intros Hj Hm Hfirst. unfold tone2char.
  assert (H : forall (n start : nat),
            (start <= j < start + n)%nat ->
            (forall k, (start <= k < j)%nat -> nth k DTMF_MAP 0 <> dtmf) ->
            tone2char_from DTMF_MAP DTMF_CHAR (seq start n) dtmf =
            nth j DTMF_CHAR Ascii.zero).
  { induction n as [|n IH]; intros start Hr Hk; [lia|].
    cbn [seq tone2char_from].
    destruct (Z.eqb_spec dtmf (nth start DTMF_MAP 0)) as [E|E].
    - destruct (Nat.eq_dec start j) as [->|Hne]; [reflexivity|].
      exfalso. apply (Hk start); [lia | now symmetry].
    - destruct (Nat.eq_dec start j) as [->|Hne]; [congruence|].
      apply IH; [lia|]. intros k Hk'. apply Hk. lia. }
  apply H; [lia|]. intros k Hk. apply Hfirst. lia.
Qed.

Lemma tone2char_first_match_witness :
  tone2char shadowed_map keypad_char 17 = "1"%char.
Proof.
  apply (tone2char_first_match shadowed_map keypad_char 17 0).
  - unfold TONES. lia.
  - reflexivity.
  - intros k Hk. lia.
Defined.


(** ** What a block and the warm-up ask of the board *)

Section WarmupInv.

Context {W : Type} {P : Platform W}.

Lemma seed_compensation_frame (maxFrequence : Z) (sampleFrequence : float)
    (d dC : PhoneDTMF) :
  seed_compensation maxFrequence sampleFrequence d = Ok dC ->
  _Pin dC = _Pin d /\ _iAdcCentre dC = _iAdcCentre d /\
  _afQ1 dC = _afQ1 d /\ _afQ2 dC = _afQ2 d.
Proof.
  unfold seed_compensation.
  destruct (F32.gtb sampleFrequence (F32.of_Z maxFrequence)).
  - destruct (F32.to_unsigned compensation_bits
                (seed_delay maxFrequence sampleFrequence)) as [c|];
      unfold defined, bind; [|discriminate].
    intros H. apply Ok_inj in H. subst dC. repeat split.
  - intros H. apply Ok_inj in H. subst dC. repeat split.
Qed.

Lemma centre_frame (sf centre : Z) (d : PhoneDTMF) :
  _Pin (set_SamplesFrequence sf (set_AdcCentre centre d)) = _Pin d /\
  _iAdcCentre (set_SamplesFrequence sf (set_AdcCentre centre d)) = centre /\
  _afQ1 (set_SamplesFrequence sf (set_AdcCentre centre d)) = _afQ1 d /\
  _afQ2 (set_SamplesFrequence sf (set_AdcCentre centre d)) = _afQ2 d.
Proof. repeat split. Qed.

(** The steps of a warm-up that returns. *)
Lemma warmup_inv (sensorPin maxFrequence : Z) (d : PhoneDTMF) (w : W)
    (d' : PhoneDTMF) (w' : W) :
  warmup sensorPin maxFrequence d w = Ok (d', w') ->
  exists t0 w0 d1 w1 t1 w2 dC centre sf,
    millis (delay 10 (pinMode (_Pin (set_Pin sensorPin d)) w)) = (t0, w0) /\
    repeat_io 1000 singleDetect (set_Pin sensorPin d) w0 = (d1, w1) /\
    millis w1 = (t1, w2) /\
    seed_compensation maxFrequence
      (warmup_frequency (wrap_uint 32 (t1 - wrap_uint 32 t0))) d1 = Ok dC /\
    analogRead (_Pin dC) w2 = (centre, w') /\
    F32.to_unsigned 32
      (warmup_frequency (wrap_uint 32 (t1 - wrap_uint 32 t0))) = Some sf /\
    d' = set_SamplesFrequence sf (set_AdcCentre centre dC).
Proof.
  unfold warmup. cbv zeta.
  destruct (millis (delay 10 (pinMode (_Pin (set_Pin sensorPin d)) w)))
    as [t0 w0] eqn:E0.
  destruct (repeat_io 1000 singleDetect (set_Pin sensorPin d) w0)
    as [d1 w1] eqn:E1.
  destruct (millis w1) as [t1 w2] eqn:E2.
  destruct (seed_compensation maxFrequence
              (warmup_frequency (wrap_uint 32 (t1 - wrap_uint 32 t0))) d1)
    as [dC| |] eqn:E3; unfold bind; try discriminate.
  destruct (analogRead (_Pin dC) w2) as [centre w3] eqn:E4.
  destruct (F32.to_unsigned 32
              (warmup_frequency (wrap_uint 32 (t1 - wrap_uint 32 t0))))
    as [sf|] eqn:E5; unfold defined; [|discriminate].
  intros H. apply Ok_inj, pair_equal_spec in H. destruct H as [Hd Hw].
  exists t0, w0, d1, w1, t1, w2, dC, centre, sf.
  subst d' w'.
  split; [reflexivity|]. split; [exact E1|]. split; [exact E2|].
  split; [exact E3|]. split; [exact E4|]. split; [exact E5 | reflexivity].
Qed.

End WarmupInv.

Section Logged.

Variables (clock line : nat -> Z) (coeff : nat -> Z -> float).

Lemma repeat_io_snoc {W : Type} {P : Platform W} (n : nat)
    (body : PhoneDTMF -> W -> PhoneDTMF * W) :
  forall (d : PhoneDTMF) (w : W),
  repeat_io (S n) body d w =
  body (fst (repeat_io n body d w)) (snd (repeat_io n body d w)).
Proof.
  induction n as [|n IH]; intros d w.
  - cbn [repeat_io fst snd]. now destruct (body d w).
  - rewrite repeat_io_S, IH. now rewrite <- repeat_io_S.
Qed.

Lemma line_reads_app (a b : list call) :
  line_reads (a ++ b) = (line_reads a + line_reads b)%nat.
Proof. unfold line_reads. now rewrite filter_app, length_app. Qed.

Lemma clock_reads_app (a b : list call) :
  clock_reads (a ++ b) = (clock_reads a + clock_reads b)%nat.
Proof. unfold clock_reads. now rewrite filter_app, length_app. Qed.

Lemma line_reads_repeat (pin : Z) (n : nat) :
  line_reads (repeat (AnalogRead pin) n) = n.
Proof.
  induction n as [|n IH]; [reflexivity|].
  change (S (line_reads (repeat (AnalogRead pin) n)) = S n). now rewrite IH.
Qed.

Lemma after_samples_settings (first : nat) (d : PhoneDTMF) (k : nat) :
  same_settings d (after_samples line first d k).
Proof.
  unfold after_samples.
  apply (for_loop_invariant (fun _ a => same_settings d a)).
  - apply same_settings_refl.
  - intros i a _ H.
    exact (same_settings_trans _ _ _ H (ProcessSample_settings _ a)).
Qed.

Lemma after_samples_S (first : nat) (d : PhoneDTMF) (k : nat) :
  after_samples line first d (S k) =
  ProcessSample (wrap_int16 (line (first + k)%nat)) (after_samples line first d k).
Proof. unfold after_samples. now rewrite for_loop_S. Qed.

Lemma logging_analogRead (pin : Z) (log : list call) :
  analogRead (Platform := logging clock line coeff) pin log =
  (line (line_reads log), log ++ [AnalogRead pin]).
Proof. reflexivity. Qed.

Lemma logging_millis (log : list call) :
  millis (Platform := logging clock line coeff) log =
  (clock (clock_reads log), log ++ [Millis]).
Proof. reflexivity. Qed.

Lemma logging_singleDetect (d : PhoneDTMF) (log : list call) :
  singleDetect (P := logging clock line coeff) d log =
  (ProcessSample (wrap_int16 (line (line_reads log))) d,
   log ++ [AnalogRead (_Pin d)]).
Proof. reflexivity. Qed.

(** A run of [n] calls of [singleDetect]. *)
Lemma logging_sampling (n : nat) (d : PhoneDTMF) (log : list call) :
  repeat_io n (singleDetect (P := logging clock line coeff)) d log =
  (after_samples line (line_reads log) d n,
   log ++ repeat (AnalogRead (_Pin d)) n).
Proof.
  induction n as [|n IH].
  - cbn [repeat_io repeat]. now rewrite app_nil_r.
  - rewrite (repeat_io_snoc (P := logging clock line coeff)), IH. cbn [fst snd].
    rewrite logging_singleDetect, after_samples_S.
    destruct (after_samples_settings (line_reads log) d n) as (-> & _).
    rewrite line_reads_app, line_reads_repeat.
    rewrite <- app_assoc.
    change (AnalogRead (_Pin d) :: repeat (AnalogRead (_Pin d)) n)
      with (repeat (AnalogRead (_Pin d)) (S n)).
    now rewrite <- repeat_cons.
Qed.

Lemma logging_paced_sample (d : PhoneDTMF) (log : list call) :
  snd (paced_sample (P := logging clock line coeff) d log) =
  log ++ [AnalogRead (_Pin d); DelayMicroseconds (_iCompensation d)].
Proof.
  change (snd (paced_sample (P := logging clock line coeff) d log))
    with ((log ++ [AnalogRead (_Pin d)])
          ++ [DelayMicroseconds
                (_iCompensation
                   (ProcessSample (wrap_int16 (line (line_reads log))) d))]).
  destruct (ProcessSample_settings (wrap_int16 (line (line_reads log))) d)
    as (_ & _ & -> & _).
  now rewrite <- app_assoc.
Qed.

(** A run of [n] turns of the sampling loop of [detect]: a read, then the
    pause, [n] times. *)
Lemma logging_paced_sampling (n : nat) :
  forall (d : PhoneDTMF) (log : list call),
  snd (repeat_io n (paced_sample (P := logging clock line coeff)) d log) =
  log ++ concat (repeat [AnalogRead (_Pin d);
                         DelayMicroseconds (_iCompensation d)] n).
Proof.
  induction n as [|n IH]; intros d log.
  - cbn [repeat_io repeat concat snd]. now rewrite app_nil_r.
  - rewrite repeat_io_S, IH, logging_paced_sample.
    destruct (paced_sample_settings (P := logging clock line coeff) d log)
      as (-> & _ & -> & _).
    cbn [repeat concat]. now rewrite <- app_assoc.
Qed.

(** X9: the calls of [detect], in their order.  A call that returns has
    asked the clock, then for each of the [_iSamplesCount] samples (none
    when the count is not positive) has read the analog line on the pin of
    the engine and after it paused for [_iCompensation] microseconds, and
    then has asked the clock again; it has made no other call. *)
Theorem detect_samples_and_pauses
    (pMagnitudes : option (list float)) (magnitude : float)
    (d : PhoneDTMF) (log : list call)
    (dtmf : Z) (buf : option (list float)) (d' : PhoneDTMF) (log' : list call) :
  detect (P := logging clock line coeff) pMagnitudes magnitude d log
    = Ok (dtmf, buf, d', log') ->
  log' =
    log ++ [Millis]
        ++ concat (repeat [AnalogRead (_Pin d);
                           DelayMicroseconds (_iCompensation d)]
                          (Z.to_nat (_iSamplesCount d)))
        ++ [Millis].
Proof.
  intros H.
  destruct (detect_inv (P := logging clock line coeff) pMagnitudes magnitude
              d log _ H) as (_ & _ & _ & _ & _ & _ & _ & Hw).
  cbn [snd] in Hw. subst log'.
  change (snd (millis (Platform := logging clock line coeff) log))
    with (log ++ [Millis]).
  rewrite (surjective_pairing
             (millis (Platform := logging clock line coeff)
                (snd (repeat_io (Z.to_nat (_iSamplesCount d))
                        (paced_sample (P := logging clock line coeff)) d
                        (log ++ [Millis]))))).
  cbn [snd].
  change (snd (millis (Platform := logging clock line coeff)
                 (snd (repeat_io (Z.to_nat (_iSamplesCount d))
                         (paced_sample (P := logging clock line coeff)) d
                         (log ++ [Millis])))))
    with (snd (repeat_io (Z.to_nat (_iSamplesCount d))
                 (paced_sample (P := logging clock line coeff)) d
                 (log ++ [Millis])) ++ [Millis]).
  rewrite logging_paced_sampling. now rewrite <- !app_assoc.
Qed.

(** X10: the calls of the warm-up of [begin], in their order, and what
    they leave.  A warm-up that returns has set the pin mode, waited 10 ms,
    asked the clock, read the line 1000 times on the pin given, asked the
    clock again and read the line once more, and has made no other call.
    Each of the 1000 timed samples went through [ProcessSample] against the
    ADC centre the engine held before the call; the accumulators are as
    these samples left them; the ADC centre is the reading taken after
    them, and the pin is the one given. *)
Theorem warmup_reads_then_centres
    (sensorPin maxFrequence : Z) (d : PhoneDTMF) (log : list call)
    (d' : PhoneDTMF) (log' : list call) :
  warmup (P := logging clock line coeff) sensorPin maxFrequence d log
    = Ok (d', log') ->
  log' =
    log ++ [PinMode sensorPin; Delay 10; Millis]
        ++ repeat (AnalogRead sensorPin) 1000
        ++ [Millis; AnalogRead sensorPin] /\
  (forall k, (k <= 1000)%nat ->
     _iAdcCentre (after_samples line (line_reads log) (set_Pin sensorPin d) k)
     = _iAdcCentre d) /\
  _afQ1 d' =
    _afQ1 (after_samples line (line_reads log) (set_Pin sensorPin d) 1000) /\
  _afQ2 d' =
    _afQ2 (after_samples line (line_reads log) (set_Pin sensorPin d) 1000) /\
  _iAdcCentre d' = line (line_reads log + 1000)%nat /\
  _Pin d' = sensorPin.
Proof.
  intros H.
  destruct (warmup_inv (P := logging clock line coeff) _ _ _ _ _ _ H)
    as (t0 & w0 & d1 & w1 & t1 & w2 & dC & centre & sf
        & E0 & E1 & E2 & E3 & E4 & _ & E6).
  clear H.
  rewrite logging_millis in E0. apply pair_equal_spec in E0.
  destruct E0 as [_ E0].
  assert (F0 : w0 = log ++ [PinMode sensorPin; Delay 10; Millis]).
  { rewrite <- E0.
    change (((log ++ [PinMode sensorPin]) ++ [Delay 10]) ++ [Millis] =
            log ++ [PinMode sensorPin; Delay 10; Millis]).
    now rewrite <- !app_assoc. }
  clear E0. subst w0.
  rewrite logging_sampling in E1. apply pair_equal_spec in E1.
  destruct E1 as [E1d E1w].
  change (_Pin (set_Pin sensorPin d)) with sensorPin in E1w.
  assert (Hr : line_reads (log ++ [PinMode sensorPin; Delay 10; Millis]) =
               line_reads log).
  { rewrite line_reads_app. cbn. lia. }
  rewrite Hr in E1d.
  rewrite logging_millis in E2. apply pair_equal_spec in E2.
  destruct E2 as [_ E2].
  destruct (seed_compensation_frame _ _ _ _ E3) as (S1 & S2 & S3 & S4).
  rewrite logging_analogRead in E4. apply pair_equal_spec in E4.
  destruct E4 as [E4c E4w].
  destruct (centre_frame sf centre dC) as (C1 & C2 & C3 & C4).
  rewrite <- E6 in C1, C2, C3, C4.
  destruct (after_samples_settings (line_reads log) (set_Pin sensorPin d) 1000)
    as (A1 & _).
  change (_Pin (set_Pin sensorPin d)) with sensorPin in A1.
  split.
  { rewrite <- E4w, <- E2, <- E1w, S1, <- E1d, A1.
    now rewrite <- !app_assoc. }
  split.
  { intros k _.
    now destruct (after_samples_settings (line_reads log)
                    (set_Pin sensorPin d) k) as (_ & _ & _ & -> & _). }
  split; [rewrite E1d; exact (eq_trans C3 S3)|].
  split; [rewrite E1d; exact (eq_trans C4 S4)|].
  split.
  - rewrite C2, <- E4c, <- E2, <- E1w, !line_reads_app, line_reads_repeat.
    f_equal. cbn. lia.
  - rewrite E1d in A1. exact (eq_trans C1 (eq_trans S1 A1)).
Qed.

End Logged.

Lemma detect_samples_and_pauses_witness :
  exists dtmf buf d',
    detect (P := logging even_clock idle_line probe_coeff) None
      default_magnitude (set_Compensation 7 (set_Pin 4 (PhoneDTMF_new 2))) []
    = Ok (dtmf, buf, d',
          [Millis; AnalogRead 4; DelayMicroseconds 7;
           AnalogRead 4; DelayMicroseconds 7; Millis]).
Proof.
  destruct (detect (P := logging even_clock idle_line probe_coeff) None
              default_magnitude (set_Compensation 7 (set_Pin 4 (PhoneDTMF_new 2)))
              [])
    as [[[[dtmf buf] d'] log']| |] eqn:E.
  - exists dtmf, buf, d'.
    rewrite (detect_samples_and_pauses even_clock idle_line probe_coeff None
               default_magnitude (set_Compensation 7 (set_Pin 4 (PhoneDTMF_new 2)))
               [] dtmf buf d' log' E).
    reflexivity.
  - apply (f_equal (fun o => match o with Ok _ => true | _ => false end)) in E.
    vm_compute in E. discriminate E.
  - apply (f_equal (fun o => match o with Ok _ => true | _ => false end)) in E.
    vm_compute in E. discriminate E.
Defined.

Lemma warmup_reads_then_centres_witness :
  exists d' log',
    warmup (P := logging even_clock sawtooth_line probe_coeff) 4 MAX_FREQ
      (PhoneDTMF_new 128) [] = Ok (d', log') /\
    log' = [PinMode 4; Delay 10; Millis] ++ repeat (AnalogRead 4) 1000
           ++ [Millis; AnalogRead 4] /\
    _iAdcCentre d' = 514 /\ _Pin d' = 4.
Proof.
  destruct (warmup (P := logging even_clock sawtooth_line probe_coeff) 4
              MAX_FREQ (PhoneDTMF_new 128) [])
    as [[d' log']| |] eqn:E.
  - destruct (warmup_reads_then_centres even_clock sawtooth_line probe_coeff
                4 MAX_FREQ (PhoneDTMF_new 128) [] d' log' E)
      as (H1 & _ & _ & _ & H5 & H6).
    exists d', log'. split; [reflexivity|]. split; [exact H1|].
    split; [|exact H6]. rewrite H5. reflexivity.
  - apply (f_equal (fun o => match o with Ok _ => true | _ => false end)) in E.
    vm_compute in E. discriminate E.
  - apply (f_equal (fun o => match o with Ok _ => true | _ => false end)) in E.
    vm_compute in E. discriminate E.
Defined.

(** ** Thresholds that are not numbers *)

Lemma gtb_nan (x : float) : F32.gtb x S754_nan = false.
Proof. reflexivity. Qed.

Lemma gtb_infinity (x : float) : F32.gtb x (S754_infinity false) = false.
Proof. destruct x as [s|s| |s m e]; try destruct s; reflexivity. Qed.

Lemma no_flag_above (mags : list float) (thr : float) (n : nat) :
  (forall x, F32.gtb x thr = false) ->
  for_loop n (flag_iter mags thr) 0 = 0.
Proof.
  intros H. apply (for_loop_invariant (fun _ acc => acc = 0)).
  - reflexivity.
  - intros i acc _ ->. unfold flag_iter. now rewrite H.
Qed.

(** X11: how the threshold argument is resolved.  A negative argument
    (minus infinity included) is replaced by twice the mean of the
    magnitudes, the sum being taken from [0.0f] in the order of the tones;
    any other argument is used as it is.  An argument that is a NaN or plus
    infinity therefore sets no bit, whatever the magnitudes are. *)
Theorem threshold_resolution
    (pRet : option (list float)) (magnitude : float) (d : PhoneDTMF) :
  resolve_threshold magnitude (measure_all d) =
    (if F32.ltb magnitude F32.zero
     then F32.mul (F32.div (magnitude_sum d) (F32.of_Z 8)) (F32.of_Z 2)
     else magnitude) /\
  F32.ltb (S754_infinity true) F32.zero = true /\
  fst (fst (calculateMeasurement pRet S754_nan d)) = 0 /\
  fst (fst (calculateMeasurement pRet (S754_infinity false) d)) = 0.
Proof.
  split; [|split; [reflexivity | split]].
  - unfold resolve_threshold. rewrite measure_all_mid. reflexivity.
  - unfold calculateMeasurement. cbn [fst].
    apply no_flag_above. exact gtb_nan.
  - unfold calculateMeasurement. cbn [fst].
    apply no_flag_above. exact gtb_infinity.
Qed.


(** ** Single-precision rounding *)

(** ** Rounding to binary32 *)

Lemma digits2_pos_size (p : positive) : digits2_pos p = Pos.size p.
Proof. induction p as [p IH|p IH|]; simpl; congruence. Qed.

(** The number of binary digits of a positive mantissa. *)
Lemma digits_bounds (p : positive) :
  2 ^ (Z.pos (digits2_pos p) - 1) <= Z.pos p < 2 ^ Z.pos (digits2_pos p).
Proof.
  rewrite digits2_pos_size.
  pose proof (Pos.size_gt p) as Hgt. pose proof (Pos.size_le p) as Hle.
  split.
  - apply Pos2Z.pos_le_pos in Hle. rewrite Pos2Z.inj_pow in Hle.
    change (Z.pos p~0) with (2 * Z.pos p) in Hle.
    replace (Z.pos (Pos.size p)) with (Z.succ (Z.pos (Pos.size p) - 1)) in Hle by lia.
    rewrite Z.pow_succ_r in Hle by lia. lia.
  - apply Pos2Z.pos_lt_pos in Hgt. now rewrite Pos2Z.inj_pow in Hgt.
Qed.

Lemma digits_unique (p : positive) (n : Z) :
  2 ^ (n - 1) <= Z.pos p < 2 ^ n -> Z.pos (digits2_pos p) = n.
Proof.
  intros [Hlo Hhi]. pose proof (digits_bounds p) as [Dlo Dhi].
  destruct (Z.lt_trichotomy (Z.pos (digits2_pos p)) n) as [H|[H|H]]; [|exact H|].
  - exfalso. assert (2 ^ Z.pos (digits2_pos p) <= 2 ^ (n - 1))
      by (apply Z.pow_le_mono_r; lia). lia.
  - exfalso. destruct (Z.le_gt_cases 0 n) as [Hn|Hn].
    + assert (2 ^ n <= 2 ^ (Z.pos (digits2_pos p) - 1))
        by (apply Z.pow_le_mono_r; lia). lia.
    + rewrite (Z.pow_neg_r 2 n) in Hhi by lia. lia.
Qed.

Lemma shr_1_m (r : shr_record) :
  0 <= shr_m r -> shr_m (shr_1 r) = shr_m r / 2.
Proof.
  destruct r as [m b s]. cbn [shr_m]. intros Hm.
  destruct m as [|p|p]; [reflexivity | | lia].
  destruct p as [p|p|]; cbn [shr_1 shr_m].
  - rewrite Pos2Z.inj_xI. apply (Z.div_unique _ _ _ 1); lia.
  - rewrite Pos2Z.inj_xO. apply (Z.div_unique _ _ _ 0); lia.
  - reflexivity.
Qed.

Lemma iter_pos_nat {A : Type} (f : A -> A) (n : positive) (x : A) :
  iter_pos f n x = Nat.iter (Pos.to_nat n) f x.
Proof.
  revert x. induction n as [n IH|n IH|]; intros x; cbn [iter_pos].
  - rewrite !IH, Pos2Nat.inj_xI.
    replace (S (2 * Pos.to_nat n))
      with (Pos.to_nat n + (Pos.to_nat n + 1))%nat by lia.
    rewrite !Nat.iter_add. reflexivity.
  - rewrite !IH, Pos2Nat.inj_xO.
    replace (2 * Pos.to_nat n)%nat with (Pos.to_nat n + Pos.to_nat n)%nat by lia.
    now rewrite Nat.iter_add.
  - reflexivity.
Qed.

Lemma shr_iter_m (n : nat) (r : shr_record) :
  0 <= shr_m r ->
  0 <= shr_m (Nat.iter n shr_1 r) /\
  shr_m (Nat.iter n shr_1 r) = shr_m r / 2 ^ Z.of_nat n.
Proof.
  intros Hm. induction n as [|n [IH0 IH]].
  - cbn [Nat.iter nat_rect]. split; [exact Hm|]. now rewrite Z.div_1_r.
  - change (Nat.iter (S n) shr_1 r) with (shr_1 (Nat.iter n shr_1 r)).
    rewrite shr_1_m by exact IH0. rewrite IH.
    rewrite Nat2Z.inj_succ, Z.pow_succ_r by lia.
    assert (Hp : 0 < 2 ^ Z.of_nat n) by (apply Z.pow_pos_nonneg; lia).
    rewrite Z.div_div by lia.
    split; [|f_equal; lia].
    apply Z.div_pos; [exact Hm | lia].
Qed.

(** The mantissa and the exponent [shr] leaves: a floor division. *)
Lemma shr_m_e (m : Z) (l : location) (e n : Z) :
  0 <= m ->
  shr_m (fst (shr (shr_record_of_loc m l) e n)) = m / 2 ^ Z.max 0 n /\
  snd (shr (shr_record_of_loc m l) e n) = e + Z.max 0 n.
Proof.
  intros Hm.
  assert (Hrec : shr_m (shr_record_of_loc m l) = m).
  { destruct l as [|[| |]]; reflexivity. }
  destruct n as [|p|p]; cbn [shr fst snd].
  - rewrite Hrec. change (Z.max 0 0) with 0. rewrite Z.div_1_r. split; [reflexivity|lia].
  - rewrite iter_pos_nat.
    destruct (shr_iter_m (Pos.to_nat p) (shr_record_of_loc m l)) as [_ ->];
      [now rewrite Hrec|].
    rewrite Hrec, positive_nat_Z. rewrite Z.max_r by lia. split; reflexivity.
  - rewrite Hrec. rewrite Z.max_l by lia. rewrite Z.div_1_r. split; [reflexivity|lia].
Qed.

Lemma round_nearest_even_cases (m : Z) (l : location) :
  round_nearest_even m l = m \/ round_nearest_even m l = m + 1.
Proof.
  destruct l as [|[| |]]; cbn [round_nearest_even]; auto.
  destruct (Z.even m); auto.
Qed.

Lemma fexp_eq (x : Z) : fexp 24 128 x = Z.max (x - 24) (-149).
Proof. reflexivity. Qed.

Lemma Zdigits2_pos (p : positive) : Zdigits2 (Z.pos p) = Z.pos (digits2_pos p).
Proof. reflexivity. Qed.

Lemma Zdigits2_bounds (z : Z) :
  0 < z -> 2 ^ (Zdigits2 z - 1) <= z < 2 ^ Zdigits2 z.
Proof.
  destruct z as [|p|p]; try lia. intros _. apply digits_bounds.
Qed.

Lemma Zdigits2_unique (z n : Z) :
  0 < z -> 2 ^ (n - 1) <= z < 2 ^ n -> Zdigits2 z = n.
Proof.
  destruct z as [|p|p]; try lia. intros _. apply digits_unique.
Qed.

Lemma Zdigits2_positive (z : Z) : 0 < z -> 0 < Zdigits2 z.
Proof. destruct z; cbn; lia. Qed.

Lemma Zdigits2_le (a b : Z) : 0 < a -> a <= b -> Zdigits2 a <= Zdigits2 b.
Proof.
  intros Ha Hab.
  pose proof (Zdigits2_bounds a Ha) as [Ha1 _].
  pose proof (Zdigits2_bounds b ltac:(lia)) as [_ Hb2].
  destruct (Z.le_gt_cases (Zdigits2 a) (Zdigits2 b)) as [H|H]; [exact H|].
  exfalso.
  assert (2 ^ Zdigits2 b <= 2 ^ (Zdigits2 a - 1))
    by (apply Z.pow_le_mono_r; lia).
  lia.
Qed.

Lemma Zdigits2_succ (a : Z) : 0 < a -> Zdigits2 (a + 1) <= Zdigits2 a + 1.
Proof.
  intros Ha.
  pose proof (Zdigits2_bounds a Ha) as [_ Ha2].
  pose proof (Zdigits2_bounds (a + 1) ltac:(lia)) as [Hb1 _].
  pose proof (Zdigits2_positive a Ha).
  destruct (Z.le_gt_cases (Zdigits2 (a + 1)) (Zdigits2 a + 1)) as [H'|H'];
    [exact H'|].
  exfalso.
  assert (2 ^ (Zdigits2 a + 1) <= 2 ^ (Zdigits2 (a + 1) - 1))
    by (apply Z.pow_le_mono_r; lia).
  rewrite Z.pow_add_r in * by lia. lia.
Qed.

(** The digits of a mantissa shifted right by [k] places. *)
Lemma Zdigits2_shr (a k : Z) :
  0 < a -> 0 <= k < Zdigits2 a -> Zdigits2 (a / 2 ^ k) = Zdigits2 a - k.
Proof.
  intros Ha Hk.
  pose proof (Zdigits2_bounds a Ha) as [Ha1 Ha2].
  assert (Hp : 0 < 2 ^ k) by (apply Z.pow_pos_nonneg; lia).
  assert (Hlo : 2 ^ (Zdigits2 a - k - 1) <= a / 2 ^ k).
  { apply Z.div_le_lower_bound; [exact Hp|].
    rewrite <- Z.pow_add_r by lia.
    replace (k + (Zdigits2 a - k - 1)) with (Zdigits2 a - 1) by lia. exact Ha1. }
  assert (Hhi : a / 2 ^ k < 2 ^ (Zdigits2 a - k)).
  { apply Z.div_lt_upper_bound; [exact Hp|].
    rewrite <- Z.pow_add_r by lia.
    replace (k + (Zdigits2 a - k)) with (Zdigits2 a) by lia. exact Ha2. }
  apply Zdigits2_unique; [|split; assumption].
  assert (0 < 2 ^ (Zdigits2 a - k - 1)) by (apply Z.pow_pos_nonneg; lia). lia.
Qed.

(** A mantissa shifted right by at least its number of digits is 0. *)
Lemma shr_to_zero (a k : Z) : 0 < a -> Zdigits2 a <= k -> a / 2 ^ k = 0.
Proof.
  intros Ha Hk. pose proof (Zdigits2_bounds a Ha) as [_ Ha2].
  pose proof (Zdigits2_positive a Ha).
  apply Z.div_small. split; [lia|].
  assert (2 ^ Zdigits2 a <= 2 ^ k) by (apply Z.pow_le_mono_r; lia). lia.
Qed.

Lemma shr_positive (a k : Z) : 0 < a -> 0 <= k < Zdigits2 a -> 0 < a / 2 ^ k.
Proof.
  intros Ha Hk. pose proof (Zdigits2_bounds a Ha) as [Ha1 _].
  assert (Hp : 0 < 2 ^ k) by (apply Z.pow_pos_nonneg; lia).
  apply Z.div_str_pos. split; [exact Hp|].
  assert (2 ^ k <= 2 ^ (Zdigits2 a - 1)) by (apply Z.pow_le_mono_r; lia). lia.
Qed.

(** [binary_round_aux] on a positive mantissa: a right shift by [k1], a
    rounding step that keeps the mantissa or adds one, a second right
    shift by [k2], and the test for overflow. *)
Lemma binary_round_aux_cases (m : positive) (e : Z) (l : location) :
  exists m2,
    (m2 = Z.pos m / 2 ^ Z.max 0 (fexp 24 128 (Z.pos (digits2_pos m) + e) - e) \/
     m2 = Z.pos m / 2 ^ Z.max 0 (fexp 24 128 (Z.pos (digits2_pos m) + e) - e) + 1) /\
    binary_round_aux 24 128 false (Z.pos m) e l =
      match m2 / 2 ^ Z.max 0 (fexp 24 128
                                (Zdigits2 m2
                                 + (e + Z.max 0 (fexp 24 128 (Z.pos (digits2_pos m) + e) - e)))
                              - (e + Z.max 0 (fexp 24 128 (Z.pos (digits2_pos m) + e) - e)))
      with
      | Z0 => S754_zero false
      | Z.pos p =>
          if e + Z.max 0 (fexp 24 128 (Z.pos (digits2_pos m) + e) - e)
             + Z.max 0 (fexp 24 128
                          (Zdigits2 m2
                           + (e + Z.max 0 (fexp 24 128 (Z.pos (digits2_pos m) + e) - e)))
                        - (e + Z.max 0 (fexp 24 128 (Z.pos (digits2_pos m) + e) - e)))
             <=? 104
          then S754_finite false p
                 (e + Z.max 0 (fexp 24 128 (Z.pos (digits2_pos m) + e) - e)
                  + Z.max 0 (fexp 24 128
                               (Zdigits2 m2
                                + (e + Z.max 0 (fexp 24 128 (Z.pos (digits2_pos m) + e) - e)))
                             - (e + Z.max 0 (fexp 24 128 (Z.pos (digits2_pos m) + e) - e))))
          else S754_infinity false
      | Z.neg _ => S754_nan
      end.
Proof.
  unfold binary_round_aux, shr_fexp. rewrite Zdigits2_pos.
  set (n1 := fexp 24 128 (Z.pos (digits2_pos m) + e) - e).
  destruct (shr_m_e (Z.pos m) l e n1 ltac:(lia)) as [Hm1 He1].
  destruct (shr (shr_record_of_loc (Z.pos m) l) e n1) as [mrs1 e1].
  cbn [fst snd] in Hm1, He1.
  set (m2 := round_nearest_even (shr_m mrs1) (loc_of_shr_record mrs1)).
  exists m2. split.
  - unfold m2. rewrite <- Hm1. apply round_nearest_even_cases.
  - assert (H0 : 0 <= m2).
    { assert (0 <= shr_m mrs1).
      { rewrite Hm1. apply Z.div_pos; [lia|]. apply Z.pow_pos_nonneg; lia. }
      unfold m2. destruct (round_nearest_even_cases (shr_m mrs1)
                             (loc_of_shr_record mrs1)) as [-> | ->]; lia. }
    rewrite <- He1.
    set (n2 := fexp 24 128 (Zdigits2 m2 + e1) - e1).
    destruct (shr_m_e m2 loc_Exact e1 n2 H0) as [Hm3 He3].
    destruct (shr (shr_record_of_loc m2 loc_Exact) e1 n2) as [mrs3 e3].
    cbn [fst snd] in Hm3, He3. rewrite Hm3, He3. reflexivity.
Qed.

Lemma bounded_intro (m : positive) (e : Z) :
  fexp 24 128 (Z.pos (digits2_pos m) + e) = e -> e <= 104 ->
  bounded 24 128 m e = true.
Proof.
  intros H1 H2. unfold bounded, canonical_mantissa.
  rewrite H1, Z.eqb_refl. cbn [andb]. apply Z.leb_le. exact H2.
Qed.

Lemma bounded_elim (m : positive) (e : Z) :
  bounded 24 128 m e = true ->
  fexp 24 128 (Z.pos (digits2_pos m) + e) = e /\ e <= 104.
Proof.
  unfold bounded, canonical_mantissa. intros H.
  apply andb_prop in H. destruct H as [H1 H2].
  apply Z.eqb_eq in H1. apply Z.leb_le in H2. split; [exact H1 | exact H2].
Qed.

(** What [binary_round_aux] returns for a positive mantissa: with
    [k1] the first shift and [m1] the mantissa it leaves, the result is plus
    infinity, or zero (then [m1 = 0]), or a positive float not below
    [m1 * 2^(e + k1)]; it is canonical when the input was not coarser than
    its format allows. *)
Lemma binary_round_aux_spec (m : positive) (e : Z) (l : location) :
  forall k1 m1 : Z,
  k1 = Z.max 0 (fexp 24 128 (Z.pos (digits2_pos m) + e) - e) ->
  m1 = Z.pos m / 2 ^ k1 ->
  (binary_round_aux 24 128 false (Z.pos m) e l = S754_infinity false /\
   104 <= e + k1) \/
  (binary_round_aux 24 128 false (Z.pos m) e l = S754_zero false /\ m1 = 0) \/
  exists m' e',
    binary_round_aux 24 128 false (Z.pos m) e l = S754_finite false m' e' /\
    e' <= 104 /\
    ((e' = e + k1 /\ m1 <= Z.pos m') \/ (e' = e + k1 + 1 /\ m1 <= 2 * Z.pos m')) /\
    (e <= fexp 24 128 (Z.pos (digits2_pos m) + e) -> bounded 24 128 m' e' = true).
Proof.
  intros k1 m1 Hk1 Hm1.
  destruct (binary_round_aux_cases m e l) as (m2 & Hm2 & ->).
  rewrite <- Hk1 in *. rewrite <- Hm1 in Hm2.
  set (d := Z.pos (digits2_pos m)) in *.
  set (e1 := e + k1) in *.
  set (k2 := Z.max 0 (fexp 24 128 (Zdigits2 m2 + e1) - e1)).
  pose proof (Zdigits2_bounds (Z.pos m) ltac:(lia)) as Hd.
  rewrite Zdigits2_pos in Hd. fold d in Hd.
  assert (Hdpos : 0 < d) by (unfold d; lia).
  assert (Hk1' : 0 <= k1) by lia.
  assert (Hp1 : 0 < 2 ^ k1) by (apply Z.pow_pos_nonneg; lia).
  assert (Hm1' : 0 <= m1) by (rewrite Hm1; apply Z.div_pos; lia).
  (* the first shift leaves a canonical mantissa, or nothing *)
  assert (Hfirst : (0 < m1 /\ Zdigits2 m1 = d - k1) \/
                   (m1 = 0 /\ d <= k1)).
  { destruct (Z.lt_ge_cases k1 d) as [Hlt|Hge].
    - left. rewrite Hm1. split.
      + apply shr_positive; [lia | rewrite Zdigits2_pos; fold d; lia].
      + rewrite Zdigits2_shr; rewrite ?Zdigits2_pos; fold d; lia.
    - right. split; [|lia]. rewrite Hm1.
      apply shr_to_zero; [lia | rewrite Zdigits2_pos; fold d; lia]. }
  assert (Hk2 : 0 <= k2) by (unfold k2; lia).
  assert (Hp2 : 0 < 2 ^ k2) by (apply Z.pow_pos_nonneg; lia).
  assert (Hm2' : 0 <= m2) by lia.
  (* the second shift is by at most one place, and only after a carry *)
  assert (Hsecond : k2 = 0 \/ (k2 = 1 /\ m2 = m1 + 1 /\ 0 < m1)).
  { destruct Hfirst as [[Hpos Hdig]|[Hzero Hdk]].
    - assert (Hd2 : Zdigits2 m2 <= Zdigits2 m1 + 1).
      { destruct Hm2 as [->| ->]; [lia | now apply Zdigits2_succ]. }
      assert (Hd2' : Zdigits2 m1 <= Zdigits2 m2).
      { apply Zdigits2_le; lia. }
      unfold k2, e1 in *. rewrite !fexp_eq in *.
      destruct Hm2 as [E|E].
      + left. rewrite E in *. lia.
      + destruct (Z.eq_dec (Z.max 0 (Z.max (Zdigits2 m2 + (e + k1) - 24) (-149) - (e + k1))) 0)
          as [Hz|Hnz]; [left; exact Hz|].
        right. split; [lia|]. split; [exact E | exact Hpos].
    - left. unfold k2, e1 in *. rewrite !fexp_eq in *.
      assert (Zdigits2 m2 <= 1).
      { destruct Hm2 as [->| ->]; rewrite Hzero; cbn; lia. }
      lia. }
  destruct (m2 / 2 ^ k2) as [|p|p] eqn:Ediv.
  - right. left. split; [reflexivity|].
    destruct Hsecond as [Hz|(Ho & E & Hpos)].
    + rewrite Hz, Z.div_1_r in Ediv. lia.
    + rewrite Ho, E in Ediv. change (2 ^ 1) with 2 in Ediv.
      assert (1 <= (m1 + 1) / 2) by (apply Z.div_le_lower_bound; lia). lia.
  - destruct (Z.leb_spec (e1 + k2) 104) as [Hle|Hgt].
    2:{ left. split; [reflexivity|]. unfold e1 in Hgt.
        destruct Hsecond as [Hz|(Ho & _)]; lia. }
    right. right. exists p, (e1 + k2). split; [reflexivity|].
    split; [exact Hle|]. split.
    + destruct Hsecond as [Hz|(Ho & E & Hpos)].
      * left. rewrite Hz, Z.div_1_r in Ediv. unfold e1. split; lia.
      * right. rewrite Ho, E in Ediv. change (2 ^ 1) with 2 in Ediv.
        unfold e1. split; [lia|].
        pose proof (Z.div_mod (m1 + 1) 2 ltac:(lia)).
        pose proof (Z.mod_pos_bound (m1 + 1) 2 ltac:(lia)). lia.
    + intros Hcan. apply bounded_intro; [|exact Hle].
      fold d in Hcan.
      assert (He1 : e1 = fexp 24 128 (d + e)) by (unfold e1; lia).
      assert (Hpd : Z.pos (digits2_pos p) = Zdigits2 (m2 / 2 ^ k2))
        by (now rewrite Ediv).
      rewrite Hpd.
      assert (Hm2pos : 0 < m2).
      { destruct (Z.eq_dec m2 0) as [Hz|Hnz]; [|lia].
        rewrite Hz, Z.div_0_l in Ediv by lia. discriminate. }
      destruct Hsecond as [Hz|(Ho & E & Hpos)].
      * rewrite Hz, Z.div_1_r, Z.add_0_r.
        assert (Hge : fexp 24 128 (Zdigits2 m2 + e1) <= e1) by (unfold k2 in Hz; lia).
        apply Z.le_antisymm; [exact Hge|].
        destruct Hfirst as [[Hpos Hdig]|[Hzero Hdk]].
        -- assert (Zdigits2 m1 <= Zdigits2 m2) by (apply Zdigits2_le; lia).
           rewrite !fexp_eq in *. lia.
        -- rewrite !fexp_eq in *. lia.
      * rewrite Zdigits2_shr; [|exact Hm2pos|].
        -- unfold k2 in *. rewrite !fexp_eq in *. lia.
        -- pose proof (Zdigits2_positive m2 Hm2pos).
           assert (2 <= m2) by lia.
           assert (2 <= Zdigits2 m2).
           { pose proof (Zdigits2_bounds m2 Hm2pos) as [_ Hhi].
             destruct (Z.le_gt_cases 2 (Zdigits2 m2)) as [?|Hlt]; [assumption|].
             assert (Zdigits2 m2 = 1) by lia.
             rewrite H1 in Hhi. change (2 ^ 1) with 2 in Hhi. lia. }
           lia.
  - exfalso. assert (0 <= m2 / 2 ^ k2) by (apply Z.div_pos; lia). lia.
Qed.

Lemma pos_iter_xO (m d : positive) :
  Z.pos (Pos.iter xO m d) = Z.pos m * 2 ^ Z.pos d.
Proof.
  induction d as [|d IH] using Pos.peano_ind.
  - cbn [Pos.iter]. rewrite Pos2Z.inj_xO. change (2 ^ 1) with 2. lia.
  - rewrite Pos.iter_succ, Pos2Z.inj_xO, IH, Pos2Z.inj_succ, Z.pow_succ_r by lia.
    lia.
Qed.

(** [shl_align] keeps the value and lowers the exponent to [ex'] when that
    is smaller. *)
Lemma shl_align_spec (mx : positive) (ex ex' : Z) :
  Z.pos (fst (shl_align mx ex ex')) = Z.pos mx * 2 ^ Z.max 0 (ex - ex') /\
  snd (shl_align mx ex ex') = Z.min ex ex'.
Proof.
  unfold shl_align. destruct (ex' - ex) as [|p|p] eqn:E; cbn [fst snd].
  - replace (Z.max 0 (ex - ex')) with 0 by lia. rewrite Z.mul_1_r. split; lia.
  - replace (Z.max 0 (ex - ex')) with 0 by lia. rewrite Z.mul_1_r. split; lia.
  - rewrite pos_iter_xO. replace (Z.max 0 (ex - ex')) with (Z.pos p) by lia.
    split; lia.
Qed.

Lemma Zdigits2_shl (a k : Z) :
  0 < a -> 0 <= k -> Zdigits2 (a * 2 ^ k) = Zdigits2 a + k.
Proof.
  intros Ha Hk. pose proof (Zdigits2_bounds a Ha) as [H1 H2].
  pose proof (Zdigits2_positive a Ha).
  assert (Hp : 0 < 2 ^ k) by (apply Z.pow_pos_nonneg; lia).
  apply Zdigits2_unique; [nia|].
  replace (Zdigits2 a + k - 1) with (Zdigits2 a - 1 + k) by lia.
  rewrite !Z.pow_add_r by lia. nia.
Qed.

(** A canonical mantissa has at most 24 digits, and exactly 24 above the
    smallest exponent. *)
Lemma bounded_digits (m : positive) (e : Z) :
  bounded 24 128 m e = true ->
  -149 <= e <= 104 /\
  Z.pos (digits2_pos m) <= 24 /\
  (-149 < e -> Z.pos (digits2_pos m) = 24).
Proof.
  intros H. apply bounded_elim in H. destruct H as [H1 H2].
  rewrite fexp_eq in H1. lia.
Qed.

(** [binary_round] on a positive mantissa: the result is plus infinity, or
    zero, or a canonical positive float whose exponent is [g] or [g + 1],
    where [g] is the exponent the format gives the value, and which is not
    below the value truncated at [g]. *)
Lemma binary_round_spec (p : positive) (e : Z) :
  forall g m1 : Z,
  g = fexp 24 128 (Z.pos (digits2_pos p) + e) ->
  m1 = Z.pos p * 2 ^ Z.max 0 (e - g) / 2 ^ Z.max 0 (g - e) ->
  (binary_round 24 128 false p e = S754_infinity false /\ 104 <= g) \/
  (binary_round 24 128 false p e = S754_zero false /\ m1 = 0) \/
  exists m' e',
    binary_round 24 128 false p e = S754_finite false m' e' /\
    bounded 24 128 m' e' = true /\
    ((e' = g /\ m1 <= Z.pos m') \/ (e' = g + 1 /\ m1 <= 2 * Z.pos m')).
Proof.
  intros g m1 Hg Hm1. unfold binary_round.
  destruct (shl_align_spec p e (fexp 24 128 (Z.pos (digits2_pos p) + e)))
    as [Hmz Hez].
  destruct (shl_align p e (fexp 24 128 (Z.pos (digits2_pos p) + e))) as [mz ez].
  cbn [fst snd] in Hmz, Hez. rewrite <- Hg in *.
  assert (Hdz : Z.pos (digits2_pos mz) + ez = Z.pos (digits2_pos p) + e).
  { rewrite <- (Zdigits2_pos mz), Hmz, Zdigits2_shl, Zdigits2_pos by lia. lia. }
  assert (Hk : Z.max 0 (fexp 24 128 (Z.pos (digits2_pos mz) + ez) - ez)
               = Z.max 0 (g - e)).
  { rewrite Hdz, <- Hg. lia. }
  destruct (binary_round_aux_spec mz ez loc_Exact (Z.max 0 (g - e)) m1)
    as [[Hinf Hbig]|[[Hz Hm0]|(m' & e' & Hr & Hle & Hcases & Hcan)]].
  - now rewrite Hk.
  - rewrite Hmz. exact Hm1.
  - left. split; [exact Hinf | lia].
  - right. left. split; assumption.
  - right. right. exists m', e'. split; [exact Hr|]. split.
    + apply Hcan. rewrite Hdz, <- Hg. lia.
    + replace (ez + Z.max 0 (g - e)) with g in Hcases by lia. exact Hcases.
Qed.

Lemma lose_mono (v w : Z) : v <= w -> lose v <= lose w.
Proof.
  unfold lose. intros H. change (2 ^ 23) with 8388608.
  pose proof (Z.div_mod v 8388608 ltac:(lia)).
  pose proof (Z.mod_pos_bound v 8388608 ltac:(lia)).
  pose proof (Z.div_mod w 8388608 ltac:(lia)).
  pose proof (Z.mod_pos_bound w 8388608 ltac:(lia)).
  lia.
Qed.

Lemma lose_bound (v : Z) :
  0 <= v -> 8388607 * v <= 8388608 * lose v /\ lose v <= v.
Proof.
  unfold lose. intros H. change (2 ^ 23) with 8388608.
  pose proof (Z.div_mod v 8388608 ltac:(lia)).
  pose proof (Z.mod_pos_bound v 8388608 ltac:(lia)).
  split; lia.
Qed.

Lemma at_least_le (x : float) (u v : Z) : at_least x u -> v <= u -> at_least x v.
Proof.
  destruct x as [[]|[]| |[] m e]; cbn [at_least]; try tauto; try lia.
  intros [Hb Hu] Hv. split; [exact Hb | lia].
Qed.

Lemma pow2_pos (k : Z) : 0 <= k -> 0 < 2 ^ k.
Proof. intros. apply Z.pow_pos_nonneg; lia. Qed.

(** Rounding a positive number of units of [2^-149] loses at most one part
    in [2^23]. *)
Lemma binary_round_at_least (p : positive) (e : Z) :
  -149 <= e ->
  at_least (binary_round 24 128 false p e) (lose (Z.pos p * 2 ^ (e + 149))).
Proof.
  intros He.
  pose proof (digits_bounds p) as [Hlo Hhi].
  remember (Z.pos (digits2_pos p)) as d eqn:Hd.
  assert (Hdp : 0 < d) by lia.
  remember (2 ^ (e + 149)) as c eqn:Hc.
  assert (Hcp : 0 < c) by (subst c; apply pow2_pos; lia).
  remember (fexp 24 128 (d + e)) as g eqn:Hg.
  pose proof Hg as Hg'. rewrite fexp_eq in Hg'.
  remember (Z.pos p * 2 ^ Z.max 0 (e - g) / 2 ^ Z.max 0 (g - e)) as m1 eqn:Hm1.
  assert (Hcore : lose (Z.pos p * c) <= m1 * 2 ^ (g + 149) /\ 0 <= m1).
  { destruct (Z_le_gt_dec g e) as [Hge|Hge].
    - replace (Z.max 0 (g - e)) with 0 in Hm1 by lia.
      replace (Z.max 0 (e - g)) with (e - g) in Hm1 by lia.
      change (2 ^ 0) with 1 in Hm1. rewrite Z.div_1_r in Hm1.
      pose proof (pow2_pos (e - g) ltac:(lia)).
      split; [|nia].
      rewrite Hm1, <- Z.mul_assoc, <- Z.pow_add_r by lia.
      replace (e - g + (g + 149)) with (e + 149) by lia. rewrite <- Hc.
      apply lose_bound. nia.
    - replace (Z.max 0 (g - e)) with (d - 24) in Hm1 by lia.
      replace (Z.max 0 (e - g)) with 0 in Hm1 by lia.
      change (2 ^ 0) with 1 in Hm1. rewrite Z.mul_1_r in Hm1.
      assert (Hk : 0 < d - 24) by lia.
      remember (2 ^ (d - 24)) as K eqn:HK.
      assert (HKp : 0 < K) by (subst K; apply pow2_pos; lia).
      assert (HpK : 8388608 * K <= Z.pos p).
      { replace (d - 1) with (23 + (d - 24)) in Hlo by lia.
        rewrite Z.pow_add_r in Hlo by lia. rewrite <- HK in Hlo.
        change (2 ^ 23) with 8388608 in Hlo. exact Hlo. }
      replace (g + 149) with ((d - 24) + (e + 149)) by lia.
      rewrite Z.pow_add_r by lia. rewrite <- HK, <- Hc.
      pose proof (Z.div_mod (Z.pos p) K ltac:(lia)) as Hdm.
      pose proof (Z.mod_pos_bound (Z.pos p) K HKp) as Hmod.
      rewrite <- Hm1 in Hdm.
      assert (HA : K * c <= Z.pos p * c / 2 ^ 23).
      { apply Z.div_le_lower_bound; [lia|]. change (2 ^ 23) with 8388608. nia. }
      unfold lose. split; [nia|].
      rewrite Hm1. apply Z.div_pos; lia. }
  destruct Hcore as [Hcore Hm1p].
  destruct (binary_round_spec p e g m1) as [[Hr _]|[[Hr Hz]|(m' & e' & Hr & Hb & Hcase)]].
  - rewrite <- Hd. exact Hg.
  - exact Hm1.
  - rewrite Hr. exact I.
  - rewrite Hr. cbn [at_least]. rewrite Hz in Hcore. lia.
  - rewrite Hr. cbn [at_least]. split; [exact Hb|].
    pose proof (pow2_pos (g + 149) ltac:(lia)) as HG.
    destruct Hcase as [[-> Hle]|[-> Hle]].
    + nia.
    + replace (g + 1 + 149) with (1 + (g + 149)) by lia.
      rewrite Z.pow_add_r by lia. change (2 ^ 1) with 2. nia.
Qed.

(** The sum of two positive floats. *)
Lemma add_at_least (x y : float) (u v : Z) :
  0 < u -> 0 < v -> at_least x u -> at_least y v ->
  at_least (F32.add x y) (lose (u + v)).
Proof.
  intros Hu Hv.
  destruct x as [[]|[]| |[] mx ex]; cbn [at_least]; try tauto; try lia;
    destruct y as [[]|[]| |[] my ey]; cbn [at_least]; try tauto; try lia.
  intros [Hbx Hux] [Hby Huy].
  destruct (bounded_digits mx ex Hbx) as [Hex _].
  destruct (bounded_digits my ey Hby) as [Hey _].
  unfold F32.add, SFadd, F32.prec, F32.emax. cbv zeta. cbn [cond_Zopp].
  destruct (shl_align_spec mx ex (Z.min ex ey)) as [Ha _].
  destruct (shl_align_spec my ey (Z.min ex ey)) as [Hb _].
  change (IntDef.Z.min ex ey) with (Z.min ex ey).
  remember (fst (shl_align mx ex (Z.min ex ey))) as a.
  remember (fst (shl_align my ey (Z.min ex ey))) as b.
  change (Z.pos a + Z.pos b) with (Z.pos (a + b)).
  cbn [binary_normalize].
  apply (at_least_le _ (lose (Z.pos (a + b) * 2 ^ (Z.min ex ey + 149)))).
  - apply binary_round_at_least. lia.
  - apply lose_mono. rewrite Pos2Z.inj_add, Z.mul_add_distr_r, Ha, Hb.
    rewrite <- !Z.mul_assoc, <- !Z.pow_add_r by lia.
    replace (Z.max 0 (ex - Z.min ex ey) + (Z.min ex ey + 149)) with (ex + 149) by lia.
    replace (Z.max 0 (ey - Z.min ex ey) + (Z.min ex ey + 149)) with (ey + 149) by lia.
    lia.
Qed.

Lemma of_Z_2 : F32.of_Z 2 = S754_finite false 8388608 (-22).
Proof. vm_compute. reflexivity. Qed.

Lemma of_Z_8 : F32.of_Z 8 = S754_finite false 8388608 (-20).
Proof. vm_compute. reflexivity. Qed.

(** Doubling is exact or overflows. *)
Lemma mul2_at_least (x : float) (u : Z) :
  at_least x u -> at_least (F32.mul x (F32.of_Z 2)) (2 * u).
Proof.
  rewrite of_Z_2.
  destruct x as [[]|[]| |[] mx ex]; cbn [at_least]; try tauto.
  - intros H. unfold F32.mul, SFmul. cbn [xorb at_least]. lia.
  - intros [Hb Hu].
    destruct (bounded_digits mx ex Hb) as (Hex & Hd24 & Hdn).
    unfold F32.mul, SFmul, F32.prec, F32.emax. cbn [xorb].
    assert (Hdig : Z.pos (digits2_pos (mx * 8388608)) = Z.pos (digits2_pos mx) + 23).
    { rewrite <- !Zdigits2_pos. rewrite Pos2Z.inj_mul.
      change (Z.pos 8388608) with (2 ^ 23). apply Zdigits2_shl; lia. }
    pose proof (digits_bounds mx) as [Hlo Hhi].
    remember (Z.pos (digits2_pos mx)) as dx eqn:Hdx.
    assert (Hdxp : 0 < dx) by lia.
    apply bounded_elim in Hb. destruct Hb as [Hcan _].
    rewrite <- Hdx, fexp_eq in Hcan.
    pose proof (pow2_pos (ex + 149) ltac:(lia)) as Hc.
    destruct (Z.eq_dec dx 24) as [E24|N24].
    + (* normal: the exponent moves up by one *)
      destruct (binary_round_aux_spec (mx * 8388608) (ex + -22) loc_Exact 23 (Z.pos mx))
        as [[Hr _]|[[Hr Hz]|(m' & e' & Hr & Hle & Hcase & Hcanon)]].
      * rewrite Hdig, fexp_eq. lia.
      * rewrite Pos2Z.inj_mul. change (Z.pos 8388608) with (2 ^ 23).
        now rewrite Z.div_mul by lia.
      * rewrite Hr. exact I.
      * lia.
      * rewrite Hr. cbn [at_least]. split.
        -- apply Hcanon. rewrite Hdig, fexp_eq. lia.
        -- destruct Hcase as [[-> Hm]|[-> Hm]].
           ++ replace (ex + -22 + 23 + 149) with (1 + (ex + 149)) by lia.
              rewrite Z.pow_add_r by lia. change (2 ^ 1) with 2. nia.
           ++ replace (ex + -22 + 23 + 1 + 149) with (2 + (ex + 149)) by lia.
              rewrite Z.pow_add_r by lia. change (2 ^ 2) with 4. nia.
    + (* subnormal: the exponent stays *)
      assert (Eex : ex = -149) by lia.
      destruct (binary_round_aux_spec (mx * 8388608) (ex + -22) loc_Exact 22 (2 * Z.pos mx))
        as [[Hr _]|[[Hr Hz]|(m' & e' & Hr & Hle & Hcase & Hcanon)]].
      * rewrite Hdig, fexp_eq. lia.
      * rewrite Pos2Z.inj_mul.
        replace (Z.pos mx * Z.pos 8388608) with (2 * Z.pos mx * 2 ^ 22)
          by (change (2 ^ 22) with 4194304; lia).
        now rewrite Z.div_mul by lia.
      * rewrite Hr. exact I.
      * lia.
      * rewrite Hr. cbn [at_least]. split.
        -- apply Hcanon. rewrite Hdig, fexp_eq. lia.
        -- destruct Hcase as [[-> Hm]|[-> Hm]].
           ++ replace (ex + -22 + 22 + 149) with (ex + 149) by lia. nia.
           ++ replace (ex + -22 + 22 + 1 + 149) with (1 + (ex + 149)) by lia.
              rewrite Z.pow_add_r by lia. change (2 ^ 1) with 2. nia.
Qed.

(** Comparison of a canonical positive float with one that is at least as
    large. *)
Lemma gtb_at_least (m : positive) (e : Z) (t : float) :
  bounded 24 128 m e = true ->
  at_least t (Z.pos m * 2 ^ (e + 149)) ->
  F32.gtb (S754_finite false m e) t = false.
Proof.
  intros Hb.
  destruct (bounded_digits m e Hb) as (He & Hd & Hn).
  pose proof (pow2_pos (e + 149) ltac:(lia)) as Hc.
  destruct t as [[]|[]| |[] mt et]; cbn [at_least]; try tauto.
  - intros H. nia.
  - intros [Hbt Hu].
    destruct (bounded_digits mt et Hbt) as (Het & Hdt & Hnt).
    unfold F32.gtb, SFltb, SFcompare.
    destruct (Z.compare_spec et e) as [Heq|Hlt|Hgt].
    + subst et. rewrite Pos.compare_cont_spec. cbn [Pos.switch_Eq].
      destruct (Pos.compare_spec mt m) as [H|H|H]; try reflexivity.
      exfalso. apply Pos2Z.pos_lt_pos in H. nia.
    + exfalso.
      pose proof (digits_bounds m) as [Hlo _].
      pose proof (digits_bounds mt) as [_ Hhi].
      rewrite Hn in Hlo by lia. change (2 ^ (24 - 1)) with 8388608 in Hlo.
      assert (Hmt : Z.pos mt < 16777216).
      { eapply Z.lt_le_trans; [exact Hhi|].
        change 16777216 with (2 ^ 24). apply Z.pow_le_mono_r; lia. }
      replace (e + 149) with ((e - et) + (et + 149)) in Hu, Hc by lia.
      rewrite Z.pow_add_r in Hu, Hc by lia.
      pose proof (pow2_pos (et + 149) ltac:(lia)) as Hct.
      assert (H2 : 2 <= 2 ^ (e - et)).
      { change 2 with (2 ^ 1) at 1. apply Z.pow_le_mono_r; lia. }
      nia.
    + reflexivity.
Qed.

Lemma div_core_by_8 (mx : positive) (ex e' s : Z) :
  e' = fexp 24 128 (Z.pos (digits2_pos mx) + ex - 4) ->
  s = ex + 20 - e' -> 0 < s ->
  SFdiv_core_binary 24 128 (Z.pos mx) ex (Z.pos 8388608) (-20) =
    (Z.pos mx * 2 ^ s / 8388608, e',
     new_location 8388608 ((Z.pos mx * 2 ^ s) mod 8388608)).
Proof.
  intros He' Hs Hsp. unfold SFdiv_core_binary. cbv zeta.
  rewrite Zdigits2_pos. change (Zdigits2 (Z.pos 8388608)) with 24.
  change IntDef.Z.min with Z.min. change IntDef.Z.shiftl with Z.shiftl.
  change IntDef.Z.div_eucl with Z.div_eucl.
  replace (Z.pos (digits2_pos mx) + ex - (24 + -20))
    with (Z.pos (digits2_pos mx) + ex - 4) by lia.
  rewrite <- He'. rewrite Z.min_l by lia.
  replace (ex - -20 - e') with s by lia.
  destruct s as [|sp|sp]; try lia.
  rewrite Z.shiftl_mul_pow2 by lia.
  unfold Z.div, Z.modulo.
  destruct (Z.div_eucl (Z.pos mx * 2 ^ Z.pos sp) (Z.pos 8388608)) as [q r].
  reflexivity.
Qed.

Lemma round_of_nothing (l : location) :
  binary_round_aux 24 128 false 0 (-149) l = S754_zero false \/
  binary_round_aux 24 128 false 0 (-149) l = S754_finite false 1 (-149).
Proof. destruct l as [|[]]; vm_compute; auto. Qed.

(** The eighth part: exact above the subnormal range, rounded to a
    neighbour below it. *)
Lemma div8_at_least (x : float) (u : Z) :
  at_least x u -> at_least (F32.div x (F32.of_Z 8)) (u / 8).
Proof.
  rewrite of_Z_8.
  destruct x as [[]|[]| |[] mx ex]; cbn [at_least]; try tauto.
  - intros H. unfold F32.div, SFdiv. cbn [xorb at_least].
    apply Z.div_le_upper_bound; lia.
  - intros [Hb Hu].
    destruct (bounded_digits mx ex Hb) as (Hex & Hd24 & Hdn).
    pose proof (digits_bounds mx) as [Hlo Hhi].
    remember (Z.pos (digits2_pos mx)) as dx eqn:Hdx.
    assert (Hdxp : 0 < dx) by lia.
    pose proof (pow2_pos (ex + 149) ltac:(lia)) as Hc.
    assert (Hu8 : u / 8 <= Z.pos mx * 2 ^ (ex + 149) / 8)
      by (apply Z.div_le_mono; lia).
    remember (fexp 24 128 (dx + ex - 4)) as e' eqn:He'.
    pose proof He' as He2. rewrite fexp_eq in He2.
    unfold F32.div, SFdiv, F32.prec, F32.emax. cbn [xorb].
    rewrite (div_core_by_8 mx ex e' (ex + 20 - e')) by (subst dx; lia || auto).
    remember (new_location 8388608 ((Z.pos mx * 2 ^ (ex + 20 - e')) mod 8388608)) as l.
    clear Heql.
    destruct (Z_le_gt_dec (-149) (dx + ex - 28)) as [HA|HB].
    + (* the quotient has 25 digits and is even *)
      assert (Ee : e' = dx + ex - 28) by lia.
      assert (Hq : Z.pos mx * 2 ^ (ex + 20 - e') / 8388608 =
                   Z.pos mx * 2 ^ (24 - dx) * 2).
      { replace (ex + 20 - e') with ((24 - dx) + 1 + 23) by lia.
        rewrite !Z.pow_add_r by lia. change (2 ^ 23) with 8388608.
        change (2 ^ 1) with 2. rewrite !Z.mul_assoc. apply Z.div_mul. lia. }
      rewrite Hq.
      pose proof (pow2_pos (24 - dx) ltac:(lia)) as Hp.
      destruct (Z.pos mx * 2 ^ (24 - dx) * 2) as [|q|q] eqn:Eq; try lia.
      assert (Hdq : Z.pos (digits2_pos q) = 25).
      { rewrite <- Zdigits2_pos, <- Eq.
        replace (Z.pos mx * 2 ^ (24 - dx) * 2) with (Z.pos mx * 2 ^ (25 - dx)).
        - rewrite Zdigits2_shl, Zdigits2_pos by lia. lia.
        - replace (25 - dx) with ((24 - dx) + 1) by lia.
          rewrite Z.pow_add_r by lia. change (2 ^ 1) with 2. lia. }
      destruct (binary_round_aux_spec q e' l 1 (Z.pos mx * 2 ^ (24 - dx)))
        as [[Hr _]|[[Hr Hz]|(m' & e2 & Hr & Hle & Hcase & Hcanon)]].
      * rewrite Hdq, fexp_eq. lia.
      * rewrite <- Eq. change (2 ^ 1) with 2. now rewrite Z.div_mul by lia.
      * rewrite Hr. exact I.
      * lia.
      * rewrite Hr. cbn [at_least]. split.
        -- apply Hcanon. rewrite Hdq, fexp_eq. lia.
        -- assert (Hval : Z.pos mx * 2 ^ (ex + 149) / 8 =
                          Z.pos mx * 2 ^ (24 - dx) * 2 ^ (e' + 1 + 149)).
           { rewrite <- Z.mul_assoc, <- Z.pow_add_r by lia.
             replace (ex + 149) with ((24 - dx + (e' + 1 + 149)) + 3) by lia.
             rewrite (Z.pow_add_r _ _ 3) by lia. change (2 ^ 3) with 8.
             rewrite Z.mul_assoc. apply Z.div_mul. lia. }
           pose proof (pow2_pos (e' + 1 + 149) ltac:(lia)) as Hp2.
           destruct Hcase as [[-> Hm]|[-> Hm]].
           ++ nia.
           ++ replace (e' + 1 + 1 + 149) with (1 + (e' + 1 + 149)) by lia.
              rewrite (Z.pow_add_r _ 1) by lia. change (2 ^ 1) with 2. nia.
    + (* the result is subnormal: the quotient is the eighth part in units *)
      assert (Ee : e' = -149) by lia.
      assert (Hq : Z.pos mx * 2 ^ (ex + 20 - e') / 8388608 =
                   Z.pos mx * 2 ^ (ex + 149) / 8).
      { replace (ex + 20 - e') with ((ex + 149) + 20) by lia.
        rewrite Z.pow_add_r by lia. rewrite Z.mul_assoc.
        change 8388608 with (8 * 2 ^ 20).
        apply Z.div_mul_cancel_r; [lia|]. apply Z.pow_nonzero; lia. }
      rewrite Hq. rewrite Ee.
      remember (Z.pos mx * 2 ^ (ex + 149) / 8) as q0 eqn:Hq0.
      assert (Hq0n : 0 <= q0) by (subst q0; apply Z.div_pos; lia).
      assert (Hq0b : q0 < 2 ^ 24).
      { subst q0. apply Z.div_lt_upper_bound; [lia|].
        change (8 * 2 ^ 24) with (2 ^ 27).
        apply Z.lt_le_trans with (2 ^ dx * 2 ^ (ex + 149)).
        - apply Z.mul_lt_mono_pos_r; lia.
        - rewrite <- Z.pow_add_r by lia. apply Z.pow_le_mono_r; lia. }
      destruct q0 as [|q|q]; try lia.
      * destruct (round_of_nothing l) as [Hr|Hr]; rewrite Hr; cbn [at_least].
        -- lia.
        -- split; [reflexivity|]. change (2 ^ (-149 + 149)) with 1. lia.
      * assert (Hdq : Z.pos (digits2_pos q) <= 24).
        { pose proof (digits_bounds q) as [Hql _].
          assert (Hlt : 2 ^ (Z.pos (digits2_pos q) - 1) < 2 ^ 24) by lia.
          apply Z.pow_lt_mono_r_iff in Hlt; lia. }
        destruct (binary_round_aux_spec q (-149) l 0 (Z.pos q))
          as [[Hr _]|[[Hr Hz]|(m' & e2 & Hr & Hle & Hcase & Hcanon)]].
        -- rewrite fexp_eq. lia.
        -- change (2 ^ 0) with 1. now rewrite Z.div_1_r.
        -- rewrite Hr. exact I.
        -- lia.
        -- rewrite Hr. cbn [at_least]. split.
           ++ apply Hcanon. rewrite fexp_eq. lia.
           ++ destruct Hcase as [[-> Hm]|[-> Hm]].
              ** change (2 ^ (-149 + 0 + 149)) with 1. lia.
              ** change (2 ^ (-149 + 0 + 1 + 149)) with 2. lia.
Qed.

(** ** The automatic threshold on a flat spectrum *)

Lemma rounding_chain (m u2 u3 u4 u5 u6 u7 u8 : Z) :
  0 < m ->
  lose (m + m) <= u2 -> lose (u2 + m) <= u3 -> lose (u3 + m) <= u4 ->
  lose (u4 + m) <= u5 -> lose (u5 + m) <= u6 -> lose (u6 + m) <= u7 ->
  lose (u7 + m) <= u8 ->
  0 < u2 /\ 0 < u3 /\ 0 < u4 /\ 0 < u5 /\ 0 < u6 /\ 0 < u7 /\
  m <= 2 * (u8 / 8).
Proof.
  intros Hm H2 H3 H4 H5 H6 H7 H8.
  assert (P2 : 0 < u2) by (pose proof (lose_bound (m + m)); lia).
  assert (P3 : 0 < u3) by (pose proof (lose_bound (u2 + m)); lia).
  assert (P4 : 0 < u4) by (pose proof (lose_bound (u3 + m)); lia).
  assert (P5 : 0 < u5) by (pose proof (lose_bound (u4 + m)); lia).
  assert (P6 : 0 < u6) by (pose proof (lose_bound (u5 + m)); lia).
  assert (P7 : 0 < u7) by (pose proof (lose_bound (u6 + m)); lia).
  repeat (split; [assumption|]).
  destruct (lose_bound (m + m)) as [B2 _]; [lia|].
  destruct (lose_bound (u2 + m)) as [B3 _]; [lia|].
  destruct (lose_bound (u3 + m)) as [B4 _]; [lia|].
  destruct (lose_bound (u4 + m)) as [B5 _]; [lia|].
  destruct (lose_bound (u5 + m)) as [B6 _]; [lia|].
  destruct (lose_bound (u6 + m)) as [B7 _]; [lia|].
  destruct (lose_bound (u7 + m)) as [B8 _]; [lia|].
  pose proof (Z.div_mod u8 8 ltac:(lia)).
  pose proof (Z.mod_pos_bound u8 8 ltac:(lia)).
  destruct (Z.eq_dec m 1) as [->|Hne]; lia.
Qed.

(** The sum of eight equal magnitudes. *)
Lemma flat_sum (d : PhoneDTMF) (M : float) :
  (forall i, (i < TONES)%nat -> magnitude_of d i = M) ->
  magnitude_sum d = Nat.iter 8 (fun acc => F32.add acc M) (F32.of_Z 0).
Proof.
  intros H. unfold magnitude_sum.
  apply (for_loop_invariant
           (fun k acc => acc = Nat.iter k (fun acc => F32.add acc M) (F32.of_Z 0))).
  - reflexivity.
  - intros i acc Hi ->. now rewrite H.
Qed.

Lemma gtb_nan_l (t : float) : F32.gtb S754_nan t = false.
Proof. destruct t as [[]|[]| |[] m e]; reflexivity. Qed.

(** Twice the mean of eight equal magnitudes is not below the magnitude. *)
Lemma flat_threshold (M : float) :
  F32.valid M = true -> F32.ltb M F32.zero = false ->
  F32.gtb M
    (F32.mul (F32.div (Nat.iter 8 (fun acc => F32.add acc M) (F32.of_Z 0))
                      (F32.of_Z 8))
             (F32.of_Z 2)) = false.
Proof.
  intros Hv Hn. destruct M as [[]|[]| |[] m e]; try discriminate Hn.
  - vm_compute. reflexivity.
  - vm_compute. reflexivity.
  - vm_compute. reflexivity.
  - apply gtb_nan_l.
  - change (F32.valid (S754_finite false m e)) with (bounded 24 128 m e) in Hv.
    destruct (bounded_digits m e Hv) as (He & _ & _).
    pose proof (pow2_pos (e + 149) ltac:(lia)) as Hc.
    remember (S754_finite false m e) as M eqn:HM.
    remember (Z.pos m * 2 ^ (e + 149)) as u eqn:Hu.
    assert (Hup : 0 < u) by (subst u; lia).
    assert (A1 : at_least M u).
    { subst M. cbn [at_least]. split; [exact Hv | lia]. }
    unfold Nat.iter. cbn [nat_rect].
    replace (F32.add (F32.of_Z 0) M) with M by (subst M; reflexivity).
    destruct (rounding_chain u _ _ _ _ _ _ _ Hup
                (Z.le_refl _) (Z.le_refl _) (Z.le_refl _) (Z.le_refl _)
                (Z.le_refl _) (Z.le_refl _) (Z.le_refl _))
      as (P2 & P3 & P4 & P5 & P6 & P7 & Hfin).
    pose proof (add_at_least _ _ _ _ Hup Hup A1 A1) as A2.
    pose proof (add_at_least _ _ _ _ P2 Hup A2 A1) as A3.
    pose proof (add_at_least _ _ _ _ P3 Hup A3 A1) as A4.
    pose proof (add_at_least _ _ _ _ P4 Hup A4 A1) as A5.
    pose proof (add_at_least _ _ _ _ P5 Hup A5 A1) as A6.
    pose proof (add_at_least _ _ _ _ P6 Hup A6 A1) as A7.
    pose proof (add_at_least _ _ _ _ P7 Hup A7 A1) as A8.
    apply div8_at_least, mul2_at_least in A8.
    rewrite HM at 1. apply gtb_at_least; [exact Hv|].
    rewrite <- Hu. eapply at_least_le; [exact A8 | exact Hfin].
Qed.

(** X12: automatic threshold on a flat spectrum.  When the eight magnitudes
    of a block are one and the same float, not negative, the automatic
    threshold (twice the mean, computed in single precision with its
    roundings, overflow included) is never below it: no bit is set. *)
Theorem flat_spectrum_sets_no_bit
    (pRet : option (list float)) (magnitude : float) (d : PhoneDTMF) (M : float) :
  F32.valid M = true -> F32.ltb M F32.zero = false ->
  (forall i, (i < TONES)%nat -> magnitude_of d i = M) ->
  F32.ltb magnitude F32.zero = true ->
  fst (fst (calculateMeasurement pRet magnitude d)) = 0.
Proof.
  intros Hv Hn Hflat Hauto.
  unfold calculateMeasurement. cbn [fst].
  apply (for_loop_invariant (fun _ acc => acc = 0)); [reflexivity|].
  intros i acc Hi ->. unfold flag_iter.
  replace (aget i (dtmf_mag (measure_all d))) with M.
  - unfold resolve_threshold.
    change (F32.of_Z 0) with F32.zero. rewrite Hauto.
    rewrite measure_all_mid, (flat_sum d M Hflat).
    change (Z.of_nat TONES) with 8.
    now rewrite (flat_threshold M Hv Hn).
  - rewrite measure_all_mags. unfold aget.
    rewrite (nth_indep _ F32.zero (magnitude_of d 0))
      by (now rewrite length_map, length_seq).
    rewrite map_nth, seq_nth by exact Hi. symmetry. now apply Hflat.
Qed.

Lemma flat_spectrum_sets_no_bit_witness :
  magnitude_of level_engine 0 = F32.of_Z 5 /\
  fst (fst (calculateMeasurement None default_magnitude level_engine)) = 0.
Proof.
  split; [vm_compute; reflexivity|].
  apply (flat_spectrum_sets_no_bit None default_magnitude level_engine (F32.of_Z 5)).
  - vm_compute. reflexivity.
  - vm_compute. reflexivity.
  - intros i Hi. do 8 (destruct i as [|i]; [vm_compute; reflexivity|]).
    unfold TONES in Hi. lia.
  - vm_compute. reflexivity.
Defined.


(** ** The automatic threshold and twice the magnitude *)

(** C3, as stated, fails: with the eight magnitudes equal to 13421779 the
    automatic threshold is 26843556, two less than twice the magnitude,
    which single precision represents exactly. *)
Lemma auto_threshold_is_not_twice_the_magnitude :
  map (magnitude_of high_engine) (seq 0 TONES)
    = repeat (F32.of_Z 13421779) TONES /\
  resolve_threshold default_magnitude (measure_all high_engine)
    = F32.of_Z 26843556 /\
  F32.mul (F32.of_Z 2) (F32.of_Z 13421779) = F32.of_Z 26843558 /\
  F32.of_Z 26843556 <> F32.of_Z 26843558 /\
  fst (fst (calculateMeasurement None default_magnitude high_engine)) = 0.
Proof.
  split; [vm_compute; reflexivity|].
  split; [vm_compute; reflexivity|].
  split; [vm_compute; reflexivity|].
  split; [vm_compute; discriminate|].
  vm_compute. reflexivity.
Qed.

(** C3, amended: when the eight magnitudes of a block are one and the same
    valid float [M > 0], a negative threshold argument resolves the
    threshold to twice the mean as single precision computes it: eight
    rounded additions of [M] from [0.0f], a rounded division by 8 and a
    rounded multiplication by 2.  That need not be [2 * M], but [M] is never
    greater than it, and the bitmask is 0. *)
Theorem auto_threshold_on_equal_magnitudes
    (pRet : option (list float)) (magnitude : float) (d : PhoneDTMF) (M : float) :
  F32.valid M = true -> F32.gtb M F32.zero = true ->
  (forall i, (i < TONES)%nat -> magnitude_of d i = M) ->
  F32.ltb magnitude F32.zero = true ->
  resolve_threshold magnitude (measure_all d) =
    F32.mul
      (F32.div (Nat.iter TONES (fun acc => F32.add acc M) (F32.of_Z 0))
               (F32.of_Z (Z.of_nat TONES)))
      (F32.of_Z 2) /\
  F32.gtb M (resolve_threshold magnitude (measure_all d)) = false /\
  (forall i : nat,
     Z.testbit (fst (fst (calculateMeasurement pRet magnitude d))) (Z.of_nat i)
     = (i <? TONES)%nat &&
       F32.gtb (magnitude_of d i) (resolve_threshold magnitude (measure_all d))) /\
  fst (fst (calculateMeasurement pRet magnitude d)) = 0.
Proof.
  intros Hv Hpos Hflat Hauto.
  assert (Hn : F32.ltb M F32.zero = false).
  { destruct M as [[]|[]| |[] m e]; try discriminate Hpos; reflexivity. }
  assert (Hthr : resolve_threshold magnitude (measure_all d) =
                 F32.mul
                   (F32.div (Nat.iter TONES (fun acc => F32.add acc M) (F32.of_Z 0))
                            (F32.of_Z (Z.of_nat TONES)))
                   (F32.of_Z 2)).
  { unfold resolve_threshold. change (F32.of_Z 0) with F32.zero. rewrite Hauto.
    now rewrite measure_all_mid, (flat_sum d M Hflat). }
  assert (Hle : F32.gtb M (resolve_threshold magnitude (measure_all d)) = false).
  { rewrite Hthr. exact (flat_threshold M Hv Hn). }
  assert (Hbits : forall i : nat,
            Z.testbit (fst (fst (calculateMeasurement pRet magnitude d)))
              (Z.of_nat i)
            = (i <? TONES)%nat &&
              F32.gtb (magnitude_of d i)
                (resolve_threshold magnitude (measure_all d))).
  { intros i. unfold calculateMeasurement. cbn [fst].
    destruct (flag_loop_bits (dtmf_mag (measure_all d))
                (resolve_threshold magnitude (measure_all d)) TONES
                (Nat.le_refl _)) as [_ Hb].
    rewrite Hb.
    destruct (Nat.ltb_spec i TONES) as [Hi|Hi]; [|reflexivity].
    cbn [andb]. f_equal. rewrite measure_all_mags. unfold aget.
    rewrite (nth_indep _ F32.zero (magnitude_of d 0))
      by (now rewrite length_map, length_seq).
    now rewrite map_nth, seq_nth by exact Hi. }
  split; [exact Hthr|]. split; [exact Hle|]. split; [exact Hbits|].
  apply Z.bits_inj'. intros n Hn0. rewrite Z.bits_0.
  rewrite <- (Z2Nat.id n Hn0), Hbits.
  destruct (Nat.ltb_spec (Z.to_nat n) TONES) as [Hi|Hi]; [|reflexivity].
  cbn [andb]. rewrite (Hflat _ Hi). exact Hle.
Qed.

Lemma auto_threshold_on_equal_magnitudes_witness :
  resolve_threshold default_magnitude (measure_all high_engine)
    = F32.of_Z 26843556 /\
  F32.gtb (F32.of_Z 13421779)
    (resolve_threshold default_magnitude (measure_all high_engine)) = false /\
  fst (fst (calculateMeasurement None default_magnitude high_engine)) = 0.
Proof.
  destruct (auto_threshold_on_equal_magnitudes None default_magnitude
              high_engine (F32.of_Z 13421779)) as (H1 & H2 & _ & H4).
  - vm_compute. reflexivity.
  - vm_compute. reflexivity.
  - intros i Hi. do 8 (destruct i as [|i]; [vm_compute; reflexivity|]).
    unfold TONES in Hi. lia.
  - vm_compute. reflexivity.
  - split; [|split; [exact H2 | exact H4]].
    rewrite H1. vm_compute. reflexivity.
Defined.


(** ** Quotients in the normal range *)

Lemma in_binades_weaken (x : float) (lo hi lo' hi' : Z) :
  in_binades x lo hi -> lo' <= lo -> hi <= hi' -> in_binades x lo' hi'.
Proof.
  destruct x as [[]|[]| |[] m e]; cbn [in_binades]; try tauto.
  intros [Hb H] Hl Hh. split; [exact Hb | lia].
Qed.

(** Rounding in the normal range keeps the binade or moves one up. *)
Lemma binary_round_aux_binade (q : positive) (e : Z) (l : location) (b : Z) :
  b = Z.pos (digits2_pos q) + e ->
  e <= b - 24 -> -149 < b - 24 -> b <= 127 ->
  in_binades (binary_round_aux 24 128 false (Z.pos q) e l) b (b + 1).
Proof.
  intros Hb He Hlo Hhi.
  assert (Hg : fexp 24 128 (Z.pos (digits2_pos q) + e) = b - 24)
    by (rewrite fexp_eq; lia).
  assert (Hpos : 0 < Z.pos q / 2 ^ (b - 24 - e)).
  { apply shr_positive; [lia|]. rewrite Zdigits2_pos. lia. }
  destruct (binary_round_aux_spec q e l (b - 24 - e) (Z.pos q / 2 ^ (b - 24 - e)))
    as [[Hr Hbig]|[[Hr Hz]|(m' & e' & Hr & Hle & Hcase & Hcanon)]].
  - rewrite Hg. lia.
  - reflexivity.
  - lia.
  - lia.
  - rewrite Hr. cbn [in_binades].
    assert (Hbd : bounded 24 128 m' e' = true) by (apply Hcanon; lia).
    split; [exact Hbd|].
    destruct (bounded_digits m' e' Hbd) as (_ & _ & Hn).
    destruct Hcase as [[-> _]|[-> _]]; rewrite Hn by lia; lia.
Qed.

(** The quotient and the exponent [SFdiv] hands to the rounding. *)
Lemma div_core_normal (mx my : positive) (ex ey e' s : Z) :
  e' = fexp 24 128 (Z.pos (digits2_pos mx) + ex - (Z.pos (digits2_pos my) + ey)) ->
  s = ex - ey - e' -> 0 < s ->
  SFdiv_core_binary 24 128 (Z.pos mx) ex (Z.pos my) ey =
    (Z.pos mx * 2 ^ s / Z.pos my, e',
     new_location (Z.pos my) ((Z.pos mx * 2 ^ s) mod Z.pos my)).
Proof.
  intros He' Hs Hsp. unfold SFdiv_core_binary. cbv zeta.
  rewrite !Zdigits2_pos.
  change IntDef.Z.min with Z.min. change IntDef.Z.shiftl with Z.shiftl.
  change IntDef.Z.div_eucl with Z.div_eucl.
  rewrite <- He'. rewrite Z.min_l by lia.
  replace (ex - ey - e') with s by lia.
  destruct s as [|sp|sp]; try lia.
  rewrite Z.shiftl_mul_pow2 by lia.
  unfold Z.div, Z.modulo.
  destruct (Z.div_eucl (Z.pos mx * 2 ^ Z.pos sp) (Z.pos my)) as [q r].
  reflexivity.
Qed.

(** The quotient of two positive floats, away from overflow and from the
    subnormal range. *)
Lemma div_in_binades (x y : float) (lx hx ly hy : Z) :
  in_binades x lx hx -> in_binades y ly hy ->
  -124 <= lx - hy -> hx - ly <= 126 ->
  in_binades (F32.div x y) (lx - hy) (hx - ly + 2).
Proof.
  destruct x as [[]|[]| |[] mx ex]; cbn [in_binades]; try tauto.
  destruct y as [[]|[]| |[] my ey]; cbn [in_binades]; try tauto.
  intros [Hbx Hx] [Hby Hy] Hlo Hhi.
  destruct (bounded_digits mx ex Hbx) as (Hex & Hdx & _).
  destruct (bounded_digits my ey Hby) as (Hey & Hdy & _).
  pose proof (digits_bounds mx) as [Hxl Hxh].
  pose proof (digits_bounds my) as [Hyl Hyh].
  remember (Z.pos (digits2_pos mx)) as dx eqn:Edx.
  remember (Z.pos (digits2_pos my)) as dy eqn:Edy.
  assert (Hdxp : 0 < dx) by lia. assert (Hdyp : 0 < dy) by lia.
  remember (dx + ex - (dy + ey)) as b eqn:Eb.
  assert (He' : fexp 24 128 (dx + ex - (dy + ey)) = b - 24)
    by (rewrite fexp_eq; lia).
  unfold F32.div, SFdiv, F32.prec, F32.emax. cbn [xorb].
  rewrite (div_core_normal mx my ex ey (b - 24) (24 + dy - dx))
    by (rewrite <- ?Edx, <- ?Edy; lia).
  remember (new_location (Z.pos my) ((Z.pos mx * 2 ^ (24 + dy - dx)) mod Z.pos my)) as l.
  clear Heql.
  remember (Z.pos mx * 2 ^ (24 + dy - dx) / Z.pos my) as q0 eqn:Eq0.
  assert (Hnum_lo : 2 ^ 23 * 2 ^ dy <= Z.pos mx * 2 ^ (24 + dy - dx)).
  { rewrite <- Z.pow_add_r by lia.
    replace (23 + dy) with ((dx - 1) + (24 + dy - dx)) by lia.
    rewrite Z.pow_add_r by lia.
    apply Z.mul_le_mono_nonneg_r; [|exact Hxl].
    apply Z.pow_nonneg; lia. }
  assert (Hnum_hi : Z.pos mx * 2 ^ (24 + dy - dx) < 2 ^ 25 * 2 ^ (dy - 1)).
  { rewrite <- Z.pow_add_r by lia.
    replace (25 + (dy - 1)) with (dx + (24 + dy - dx)) by lia.
    rewrite Z.pow_add_r by lia.
    apply Z.mul_lt_mono_pos_r; [|exact Hxh].
    apply pow2_pos; lia. }
  assert (Hq_lo : 2 ^ 23 <= q0).
  { rewrite Eq0. apply Z.div_le_lower_bound; [lia|].
    pose proof (pow2_pos 23 ltac:(lia)). nia. }
  assert (Hq_hi : q0 < 2 ^ 25).
  { rewrite Eq0. apply Z.div_lt_upper_bound; [lia|].
    pose proof (pow2_pos 25 ltac:(lia)). nia. }
  destruct q0 as [|q|q]; try (pose proof (pow2_pos 23 ltac:(lia)); lia).
  assert (Hdq : 24 <= Z.pos (digits2_pos q) <= 25).
  { pose proof (digits_bounds q) as [Hql Hqh]. split.
    - assert (H : 2 ^ 23 < 2 ^ Z.pos (digits2_pos q)) by lia.
      apply Z.pow_lt_mono_r_iff in H; lia.
    - assert (H : 2 ^ (Z.pos (digits2_pos q) - 1) < 2 ^ 25) by lia.
      apply Z.pow_lt_mono_r_iff in H; lia. }
  eapply in_binades_weaken.
  - apply (binary_round_aux_binade q (b - 24) l (Z.pos (digits2_pos q) + (b - 24)));
      [reflexivity | lia | lia | lia].
  - lia.
  - lia.
Qed.

(** The float of a positive integer. *)
Lemma of_Z_binades (t : Z) :
  0 < t -> Zdigits2 t <= 127 ->
  in_binades (F32.of_Z t) (Zdigits2 t) (Zdigits2 t + 1).
Proof.
  intros Ht Hd. destruct t as [|p|p]; try lia.
  rewrite Zdigits2_pos in *.
  unfold F32.of_Z, F32.prec, F32.emax. cbn [binary_normalize].
  remember (Z.pos (digits2_pos p)) as d eqn:Ed.
  assert (Hdp : 0 < d) by lia.
  destruct (binary_round_spec p 0 (d - 24)
              (Z.pos p * 2 ^ Z.max 0 (0 - (d - 24)) / 2 ^ Z.max 0 (d - 24 - 0)))
    as [[Hr Hbig]|[[Hr Hz]|(m' & e' & Hr & Hbd & Hcase)]].
  - rewrite <- Ed, fexp_eq. lia.
  - reflexivity.
  - lia.
  - exfalso.
    destruct (Z_le_gt_dec d 24) as [Hle|Hgt].
    + replace (Z.max 0 (d - 24 - 0)) with 0 in Hz by lia.
      change (2 ^ 0) with 1 in Hz. rewrite Z.div_1_r in Hz.
      pose proof (pow2_pos (Z.max 0 (0 - (d - 24))) ltac:(lia)). nia.
    + replace (Z.max 0 (0 - (d - 24))) with 0 in Hz by lia.
      change (2 ^ 0) with 1 in Hz. rewrite Z.mul_1_r in Hz.
      assert (0 < Z.pos p / 2 ^ Z.max 0 (d - 24 - 0)).
      { apply shr_positive; [lia|]. rewrite Zdigits2_pos. lia. }
      lia.
  - rewrite Hr. cbn [in_binades]. split; [exact Hbd|].
    destruct (bounded_digits m' e' Hbd) as (_ & _ & Hn).
    destruct Hcase as [[-> _]|[-> _]]; rewrite Hn by lia; lia.
Qed.

Lemma Zdigits2_below (t n : Z) : 0 < t < 2 ^ n -> 0 < Zdigits2 t <= n.
Proof.
  intros [Ht Hn]. pose proof (Zdigits2_bounds t Ht) as [Hl _].
  pose proof (Zdigits2_positive t Ht). split; [assumption|].
  assert (H1 : 2 ^ (Zdigits2 t - 1) < 2 ^ n) by lia.
  apply Z.pow_lt_mono_r_iff in H1; [lia|lia|].
  destruct (Z_le_gt_dec 0 n) as [?|Hneg]; [assumption|].
  rewrite Z.pow_neg_r in Hn by lia. lia.
Qed.

(** A positive float below [2^32] converts to [uint32_t]. *)
Lemma to_unsigned_in_binades (x : float) (lo hi : Z) :
  in_binades x lo hi -> hi <= 32 ->
  exists f, F32.to_unsigned 32 x = Some f /\ 0 <= f < 2 ^ Z.max 0 hi.
Proof.
  destruct x as [[]|[]| |[] m e]; cbn [in_binades]; try tauto.
  intros [Hb Hr] Hhi.
  pose proof (digits_bounds m) as [Hml Hmh].
  remember (Z.pos (digits2_pos m)) as d eqn:Ed.
  assert (Hdp : 0 < d) by lia.
  assert (Hv : 0 <= Z.shiftl (Z.pos m) e < 2 ^ Z.max 0 hi).
  { destruct (Z_le_gt_dec 0 e) as [He|He].
    - rewrite Z.shiftl_mul_pow2 by lia.
      pose proof (pow2_pos e He). split; [nia|].
      apply Z.lt_le_trans with (2 ^ d * 2 ^ e).
      + apply Z.mul_lt_mono_pos_r; lia.
      + rewrite <- Z.pow_add_r by lia. apply Z.pow_le_mono_r; lia.
    - rewrite Z.shiftl_div_pow2 by lia.
      pose proof (pow2_pos (- e) ltac:(lia)).
      split; [apply Z.div_pos; lia|].
      apply Z.div_lt_upper_bound; [lia|].
      destruct (Z_le_gt_dec 0 hi) as [Hh|Hh].
      + replace (Z.max 0 hi) with hi by lia.
        rewrite <- Z.pow_add_r by lia.
        eapply Z.lt_le_trans; [exact Hmh|]. apply Z.pow_le_mono_r; lia.
      + replace (Z.max 0 hi) with 0 by lia. change (2 ^ 0) with 1.
        rewrite Z.mul_1_r.
        eapply Z.lt_le_trans; [exact Hmh|]. apply Z.pow_le_mono_r; lia. }
  exists (Z.shiftl (Z.pos m) e). split; [|exact Hv].
  unfold F32.to_unsigned, F32.trunc. cbn [cond_Zopp].
  assert (H32 : 2 ^ Z.max 0 hi <= 2 ^ 32) by (apply Z.pow_le_mono_r; lia).
  destruct (Z.leb_spec 0 (Z.shiftl (Z.pos m) e)); [|lia].
  destruct (Z.ltb_spec (Z.shiftl (Z.pos m) e) (2 ^ 32)); [reflexivity|lia].
Qed.


(** ** [detect] and the clock *)

Lemma of_Z_1000_binade : in_binades (F32.of_Z 1000) 10 10.
Proof.
  replace (F32.of_Z 1000) with (S754_finite false 16384000 (-14))
    by (vm_compute; reflexivity).
  cbn [in_binades]. split; [reflexivity|].
  change (Z.pos (digits2_pos 16384000)) with 24. lia.
Qed.

Lemma of_Z_1_binade : in_binades (F32.of_Z 1) 1 1.
Proof.
  replace (F32.of_Z 1) with (S754_finite false 8388608 (-23))
    by (vm_compute; reflexivity).
  cbn [in_binades]. split; [reflexivity|].
  change (Z.pos (digits2_pos 8388608)) with 24. lia.
Qed.

(** The frequency of a block that took [fTemp] milliseconds, at least one:
    the three divisions stay clear of overflow and of the subnormal range,
    and the quotient converts to [uint32_t]. *)
Lemma block_frequency_defined (fTemp samples : Z) :
  0 < fTemp < 2 ^ 32 -> 0 <= samples < 2 ^ 15 ->
  exists f, F32.to_unsigned 32 (block_frequency fTemp samples) = Some f /\
            0 <= f < 2 ^ 28.
Proof.
  intros Ht Hn. unfold block_frequency.
  destruct (Zdigits2_below fTemp 32 Ht) as [Hd1 Hd2].
  pose proof (of_Z_binades fTemp ltac:(lia) ltac:(lia)) as H1.
  apply (in_binades_weaken _ _ _ 1 33) in H1; [|lia|lia].
  pose proof (div_in_binades _ _ _ _ _ _ H1 of_Z_1000_binade ltac:(lia) ltac:(lia))
    as H2.
  destruct (Z.eq_dec samples 0) as [->|Hne].
  - change (F32.of_Z 0) with (S754_zero false).
    destruct (F32.div (F32.of_Z fTemp) (F32.of_Z 1000)) as [[]|[]| |[] m e];
      cbn [in_binades] in H2; try tauto.
    exists 0. split; [reflexivity|]. split; [lia|]. apply pow2_pos. lia.
  - destruct (Zdigits2_below samples 15 ltac:(lia)) as [Hs1 Hs2].
    pose proof (of_Z_binades samples ltac:(lia) ltac:(lia)) as Hs.
    apply (in_binades_weaken _ _ _ 1 16) in Hs; [|lia|lia].
    pose proof (div_in_binades _ _ _ _ _ _ H2 Hs ltac:(lia) ltac:(lia)) as H3.
    pose proof (div_in_binades _ _ _ _ _ _ of_Z_1_binade H3 ltac:(lia) ltac:(lia))
      as H4.
    apply (in_binades_weaken _ _ _ (-25) 28) in H4; [|lia|lia].
    destruct (to_unsigned_in_binades _ _ _ H4 ltac:(lia)) as (f & Hf & Hr).
    exists f. split; [exact Hf|]. exact Hr.
Qed.

(** X13: [detect] has a result exactly when the millisecond clock has
    advanced over the block.  For every sample count that the constructor
    can be given and that is not negative, and on every board: if the clock
    reads differ (modulo 2^32) the three single-precision divisions of the
    rate neither overflow nor vanish, the conversion to [uint32_t] is
    defined, the call returns and the frequency it stores is below 2^28;
    if they do not differ there is no result. *)
Theorem detect_returns_iff_clock_advances
    {W : Type} {P : Platform W}
    (pMagnitudes : option (list float)) (magnitude : float)
    (d : PhoneDTMF) (w : W) :
  0 <= _iSamplesCount d < 2 ^ 15 ->
  (exists r, detect pMagnitudes magnitude d w = Ok r /\
             0 <= getRealFrequence (snd (fst r)) < 2 ^ 28) <->
  wrap_uint 32
    (fst (millis (snd (repeat_io (Z.to_nat (_iSamplesCount d)) paced_sample d
                         (snd (millis w)))))
     - wrap_uint 32 (fst (millis w))) <> 0.
Proof.
  intros Hn. rewrite detect_eq. cbv zeta.
  remember (wrap_uint 32
    (fst (millis (snd (repeat_io (Z.to_nat (_iSamplesCount d)) paced_sample d
                         (snd (millis w)))))
     - wrap_uint 32 (fst (millis w)))) as t eqn:Et.
  assert (Hrange : 0 <= t < 2 ^ 32).
  { rewrite Et. unfold wrap_uint. apply Z.mod_pos_bound. apply pow2_pos. lia. }
  split.
  - intros (r & Hr & _) ->. rewrite block_frequency_no_time in Hr. discriminate Hr.
  - intros Hne.
    destruct (block_frequency_defined t (_iSamplesCount d) ltac:(lia) Hn)
      as (f & Hf & Hfr).
    rewrite Hf. eexists. split; [reflexivity|]. cbn [fst snd].
    unfold getRealFrequence.
    destruct (ResetDTMF_settings
                (set_RealFrequence f
                   (fst (repeat_io (Z.to_nat (_iSamplesCount d)) paced_sample d
                           (snd (millis w))))))
      as (_ & _ & _ & _ & _ & Hrf & _).
    rewrite Hrf. exact Hfr.
Qed.

Lemma detect_returns_iff_clock_advances_witness :
  exists r, detect (P := fast_board) None default_magnitude idle_engine
              {| ticks := 2; reads := 0; paused := 0 |} = Ok r /\
            0 <= getRealFrequence (snd (fst r)) < 2 ^ 28.
Proof.
  apply (detect_returns_iff_clock_advances (P := fast_board)).
  - vm_compute. split; [discriminate | reflexivity].
  - vm_compute. discriminate.
Defined.


(** ** The weakest tone *)

(** A valid float that is not below a canonical positive one is a NaN or
    worth at least as many units. *)
Lemma not_below_at_least (x : float) (m : positive) (e : Z) :
  F32.valid x = true -> bounded 24 128 m e = true ->
  F32.ltb x (S754_finite false m e) = false ->
  x = S754_nan \/ at_least x (Z.pos m * 2 ^ (e + 149)).
Proof.
  intros Hv Hb.
  destruct (bounded_digits m e Hb) as (He & Hd & Hn).
  destruct x as [[]|[]| |[] mx ex]; try discriminate.
  - intros _. right. exact I.
  - intros _. left. reflexivity.
  - change (F32.valid (S754_finite false mx ex)) with (bounded 24 128 mx ex) in Hv.
    destruct (bounded_digits mx ex Hv) as (Hex & Hdx & Hnx).
    unfold F32.ltb, SFltb, SFcompare.
    destruct (Z.compare_spec ex e) as [Heq|Hlt|Hgt].
    2:{ intros H. discriminate H. }
    + subst ex. rewrite Pos.compare_cont_spec. cbn [Pos.switch_Eq].
      destruct (Pos.compare_spec mx m) as [H|H|H]; try discriminate; intros _;
        right; cbn [at_least]; (split; [exact Hv|]).
      * subst mx. lia.
      * apply Pos2Z.pos_lt_pos in H.
        pose proof (pow2_pos (e + 149) ltac:(lia)). nia.
    + intros _. right. cbn [at_least]. split; [exact Hv|].
      pose proof (digits_bounds mx) as [Hlo _].
      pose proof (digits_bounds m) as [_ Hhi].
      rewrite Hnx in Hlo by lia. change (2 ^ (24 - 1)) with 8388608 in Hlo.
      assert (Hm : Z.pos m < 16777216).
      { eapply Z.lt_le_trans; [exact Hhi|].
        change 16777216 with (2 ^ 24). apply Z.pow_le_mono_r; lia. }
      replace (ex + 149) with ((ex - e) + (e + 149)) by lia.
      rewrite (Z.pow_add_r 2 (ex - e) (e + 149)) by lia.
      pose proof (pow2_pos (e + 149) ltac:(lia)) as Hc.
      assert (H2 : 2 <= 2 ^ (ex - e)).
      { change 2 with (2 ^ 1) at 1. apply Z.pow_le_mono_r; lia. }
      assert (H3 : Z.pos m <= Z.pos mx * 2 ^ (ex - e)) by nia.
      rewrite Z.mul_assoc. apply Z.mul_le_mono_nonneg_r; lia.
Qed.

Lemma add_nan_r (x : float) : F32.add x S754_nan = S754_nan.
Proof. destruct x as [[]|[]| |[] m e]; reflexivity. Qed.

Lemma lose_positive (v : Z) : 2 <= v -> 0 < lose v.
Proof. intros H. pose proof (lose_bound v ltac:(lia)). lia. Qed.

(** The sum of magnitudes none of which is below [u > 0] units. *)
Lemma sum_at_least (d : PhoneDTMF) (u : Z) (n : nat) :
  0 < u ->
  (forall i, (i < n)%nat ->
     magnitude_of d i = S754_nan \/ at_least (magnitude_of d i) u) ->
  match n with
  | O => True
  | S k =>
      let s := for_loop n (fun i acc => F32.add acc (magnitude_of d i)) (F32.of_Z 0) in
      s = S754_nan \/
      (at_least s (Nat.iter k (fun v => lose (v + u)) u) /\
       0 < Nat.iter k (fun v => lose (v + u)) u)
  end.
Proof.
  intros Hu. induction n as [|n IH]; intros H; [exact I|].
  cbv zeta. rewrite for_loop_S.
  destruct n as [|k].
  - rewrite for_loop_0. cbn [Nat.iter nat_rect].
    destruct (H 0%nat ltac:(lia)) as [E|A].
    + left. rewrite E. reflexivity.
    + right. split; [|exact Hu].
      change (F32.of_Z 0) with (S754_zero false).
      destruct (magnitude_of d 0) as [[]|[]| |[] m e]; cbn [at_least] in A;
        try tauto; try lia; exact A.
  - specialize (IH (fun i Hi => H i ltac:(lia))). cbv zeta in IH.
    change (Nat.iter (S k) (fun v => lose (v + u)) u)
      with (lose (Nat.iter k (fun v => lose (v + u)) u + u)).
    destruct IH as [E|[A P]].
    + left. rewrite E. reflexivity.
    + destruct (H (S k) ltac:(lia)) as [E|B].
      * left. rewrite E. apply add_nan_r.
      * right. split.
        -- apply add_at_least; assumption.
        -- apply lose_positive. lia.
Qed.

Lemma div_mul_nan :
  F32.mul (F32.div S754_nan (F32.of_Z 8)) (F32.of_Z 2) = S754_nan.
Proof. reflexivity. Qed.

(** X14: the weakest tone under the automatic threshold.  When the
    magnitudes of a block are valid floats and that of tone [j] is a positive
    number that none of the others is below, a call of the classification
    step with a negative threshold argument leaves bit [j] clear: twice the
    mean, with all its roundings, is never below the smallest magnitude.  So
    the automatic threshold never marks all eight tones of such a block. *)
Theorem weakest_tone_gets_no_bit
    (pRet : option (list float)) (magnitude : float) (d : PhoneDTMF) (j : nat) :
  (j < TONES)%nat ->
  is_number (magnitude_of d j) = true ->
  F32.gtb (magnitude_of d j) F32.zero = true ->
  (forall i, (i < TONES)%nat ->
     F32.valid (magnitude_of d i) = true /\
     F32.ltb (magnitude_of d i) (magnitude_of d j) = false) ->
  F32.ltb magnitude F32.zero = true ->
  Z.testbit (fst (fst (calculateMeasurement pRet magnitude d))) (Z.of_nat j)
  = false /\
  fst (fst (calculateMeasurement pRet magnitude d)) <> 255.
Proof.
  intros Hj Hnum Hpos Hall Hauto.
  assert (Hbit : Z.testbit (fst (fst (calculateMeasurement pRet magnitude d)))
                   (Z.of_nat j) = false).
  { unfold calculateMeasurement. cbn [fst].
    destruct (flag_loop_bits (dtmf_mag (measure_all d))
                (resolve_threshold magnitude (measure_all d)) TONES
                (Nat.le_refl _)) as [_ Hb].
    rewrite Hb. apply andb_false_iff. right.
    replace (aget j (dtmf_mag (measure_all d))) with (magnitude_of d j).
    2:{ rewrite measure_all_mags. unfold aget.
        rewrite (nth_indep _ F32.zero (magnitude_of d 0))
          by (now rewrite length_map, length_seq).
        now rewrite map_nth, seq_nth by exact Hj. }
    unfold resolve_threshold. change (F32.of_Z 0) with F32.zero. rewrite Hauto.
    rewrite measure_all_mid. change (Z.of_nat TONES) with 8.
    destruct (Hall j Hj) as [Hvj _].
    destruct (magnitude_of d j) as [[]|[]| |[] m e] eqn:EM; try discriminate.
    change (F32.valid (S754_finite false m e)) with (bounded 24 128 m e) in Hvj.
    destruct (bounded_digits m e Hvj) as (He & _ & _).
    pose proof (pow2_pos (e + 149) ltac:(lia)) as Hc.
    remember (Z.pos m * 2 ^ (e + 149)) as u eqn:Hu.
    assert (Hup : 0 < u) by (subst u; lia).
    assert (Hsum : magnitude_sum d = S754_nan \/
                   (at_least (magnitude_sum d)
                      (Nat.iter 7 (fun v => lose (v + u)) u) /\
                    0 < Nat.iter 7 (fun v => lose (v + u)) u)).
    { refine (sum_at_least d u 8 Hup _).
      intros i Hi. destruct (Hall i Hi) as [Hv Hl]. rewrite Hu.
      now apply not_below_at_least. }
    destruct Hsum as [E|[A _]].
    - rewrite E, div_mul_nan. apply gtb_nan.
    - apply div8_at_least, mul2_at_least in A.
      apply gtb_at_least; [exact Hvj|]. rewrite <- Hu.
      eapply at_least_le; [exact A|].
      cbn [Nat.iter nat_rect].
      destruct (rounding_chain u _ _ _ _ _ _ _ Hup
                  (Z.le_refl _) (Z.le_refl _) (Z.le_refl _) (Z.le_refl _)
                  (Z.le_refl _) (Z.le_refl _) (Z.le_refl _))
        as (_ & _ & _ & _ & _ & _ & Hfin).
      exact Hfin. }
  split; [exact Hbit|].
  intros E. rewrite E in Hbit.
  assert (Hone : Z.testbit 255 (Z.of_nat j) = true).
  { unfold TONES in Hj. do 8 (destruct j as [|j]; [reflexivity|]). lia. }
  rewrite Hone in Hbit. discriminate Hbit.
Qed.

Lemma weakest_tone_gets_no_bit_witness :
  Z.testbit (fst (fst (calculateMeasurement None default_magnitude stepped_engine)))
    0 = false /\
  fst (fst (calculateMeasurement None default_magnitude stepped_engine)) <> 255.
Proof.
  apply (weakest_tone_gets_no_bit None default_magnitude stepped_engine 0).
  - unfold TONES. lia.
  - vm_compute. reflexivity.
  - vm_compute. reflexivity.
  - intros i Hi. do 8 (destruct i as [|i]; [vm_compute; split; reflexivity|]).
    unfold TONES in Hi. lia.
  - vm_compute. reflexivity.
Defined.


(** ** The warm-up and the clock *)

(** The product of two positive normal floats, away from overflow and from
    the subnormal range. *)
Lemma mul_in_binades (x y : float) (lx hx ly hy : Z) :
  in_binades x lx hx -> in_binades y ly hy ->
  -124 <= lx -> -124 <= ly -> -123 <= lx + ly -> hx + hy <= 127 ->
  in_binades (F32.mul x y) (lx + ly - 1) (hx + hy + 1).
Proof.
  destruct x as [[]|[]| |[] mx ex]; cbn [in_binades]; try tauto.
  destruct y as [[]|[]| |[] my ey]; cbn [in_binades]; try tauto.
  intros [Hbx Hx] [Hby Hy] Hnx Hny Hlo Hhi.
  destruct (bounded_digits mx ex Hbx) as (Hex & Hdx & Hdnx).
  destruct (bounded_digits my ey Hby) as (Hey & Hdy & Hdny).
  pose proof (digits_bounds mx) as [Hxl Hxh].
  pose proof (digits_bounds my) as [Hyl Hyh].
  apply bounded_elim in Hbx. destruct Hbx as [Hcx _]. rewrite fexp_eq in Hcx.
  apply bounded_elim in Hby. destruct Hby as [Hcy _]. rewrite fexp_eq in Hcy.
  remember (Z.pos (digits2_pos mx)) as dx eqn:Edx.
  remember (Z.pos (digits2_pos my)) as dy eqn:Edy.
  assert (Hdxp : 0 < dx) by lia. assert (Hdyp : 0 < dy) by lia.
  assert (Ex24 : dx = 24) by lia. assert (Ey24 : dy = 24) by lia.
  unfold F32.mul, SFmul, F32.prec, F32.emax. cbn [xorb].
  assert (Hd : 47 <= Z.pos (digits2_pos (mx * my)) <= 48).
  { pose proof (digits_bounds (mx * my)) as [Hl Hh].
    rewrite Pos2Z.inj_mul in Hl, Hh.
    rewrite Ex24 in Hxl, Hxh. rewrite Ey24 in Hyl, Hyh.
    change (2 ^ (24 - 1)) with 8388608 in *. change (2 ^ 24) with 16777216 in *.
    split.
    - assert (H : 2 ^ 46 < 2 ^ Z.pos (digits2_pos (mx * my))).
      { eapply Z.le_lt_trans; [|exact Hh]. change (2 ^ 46) with (8388608 * 8388608).
        nia. }
      apply Z.pow_lt_mono_r_iff in H; lia.
    - assert (H : 2 ^ (Z.pos (digits2_pos (mx * my)) - 1) < 2 ^ 48).
      { eapply Z.le_lt_trans; [exact Hl|].
        change (2 ^ 48) with (16777216 * 16777216). nia. }
      apply Z.pow_lt_mono_r_iff in H; lia. }
  eapply in_binades_weaken.
  - apply (binary_round_aux_binade (mx * my) (ex + ey) loc_Exact
             (Z.pos (digits2_pos (mx * my)) + (ex + ey)));
      [reflexivity | lia | lia | lia].
  - lia.
  - lia.
Qed.

(** The rate of the warm-up, [(1000.0f / t1) * 1000.0f], when the 1000
    reads took at least one millisecond. *)
Lemma warmup_frequency_defined (t1 : Z) :
  0 < t1 < 2 ^ 32 ->
  exists f, F32.to_unsigned 32 (warmup_frequency t1) = Some f /\
            0 <= f < 2 ^ 22.
Proof.
  intros Ht. unfold warmup_frequency.
  destruct (Zdigits2_below t1 32 Ht) as [Hd1 Hd2].
  pose proof (of_Z_binades t1 ltac:(lia) ltac:(lia)) as H1.
  apply (in_binades_weaken _ _ _ 1 33) in H1; [|lia|lia].
  pose proof (div_in_binades _ _ _ _ _ _ of_Z_1000_binade H1 ltac:(lia) ltac:(lia))
    as H2.
  pose proof (mul_in_binades _ _ _ _ _ _ H2 of_Z_1000_binade
                ltac:(lia) ltac:(lia) ltac:(lia) ltac:(lia)) as H3.
  apply (in_binades_weaken _ _ _ (-14) 22) in H3; [|lia|lia].
  destruct (to_unsigned_in_binades _ _ _ H3 ltac:(lia)) as (f & Hf & Hr).
  exists f. split; [exact Hf | exact Hr].
Qed.

Lemma warmup_frequency_no_time : warmup_frequency 0 = S754_infinity false.
Proof. vm_compute. reflexivity. Qed.

(** X15: the warm-up of [begin] and the clock.  When the clock reads the
    same (modulo 2^32) before and after the 1000 timed reads, the rate is
    [1000.0f / 0], an infinity, and the warm-up has no defined result,
    whatever [maxFrequence] is.  When the clock has advanced and the measured
    rate is not above [maxFrequence], the warm-up returns: the delay between
    samples is left as it was and the sample frequency stored is below
    2^22. *)
Theorem warmup_and_the_clock
    {W : Type} {P : Platform W}
    (sensorPin maxFrequence : Z) (d : PhoneDTMF) (w : W) :
  (warmup_elapsed sensorPin d w = 0 ->
   warmup sensorPin maxFrequence d w = Undefined) /\
  (warmup_elapsed sensorPin d w <> 0 ->
   F32.gtb (warmup_frequency (warmup_elapsed sensorPin d w))
           (F32.of_Z maxFrequence) = false ->
   exists d' w',
     warmup sensorPin maxFrequence d w = Ok (d', w') /\
     _iCompensation d' = _iCompensation d /\
     0 <= _iSamplesFrequence d' < 2 ^ 22).
Proof.
  unfold warmup_elapsed, warmup. cbv zeta.
  destruct (millis (delay 10 (pinMode (_Pin (set_Pin sensorPin d)) w)))
    as [t0 w0].
  cbn [fst snd].
  pose proof (repeat_io_settings singleDetect 1000 singleDetect_settings
                (set_Pin sensorPin d) w0) as Hs.
  destruct (repeat_io 1000 singleDetect (set_Pin sensorPin d) w0) as [d1 w1].
  cbn [fst snd] in Hs |- *.
  destruct (millis w1) as [t1 w2]. cbn [fst snd].
  remember (wrap_uint 32 (t1 - wrap_uint 32 t0)) as t eqn:Et.
  assert (Hrange : 0 <= t < 2 ^ 32).
  { rewrite Et. unfold wrap_uint. apply Z.mod_pos_bound. apply pow2_pos. lia. }
  destruct Hs as (_ & _ & Hcomp & _).
  split.
  - intros Hz. rewrite Hz, warmup_frequency_no_time.
    unfold seed_compensation.
    destruct (F32.gtb (S754_infinity false) (F32.of_Z maxFrequence)).
    + destruct (F32.to_unsigned compensation_bits
                  (seed_delay maxFrequence (S754_infinity false))) as [c|];
        unfold defined, bind; [|reflexivity].
      destruct (analogRead (_Pin (set_Compensation c d1)) w2) as [centre w3].
      reflexivity.
    + unfold bind.
      destruct (analogRead (_Pin d1) w2) as [centre w3]. reflexivity.
  - intros Hne Hslow.
    destruct (warmup_frequency_defined t ltac:(lia)) as (f & Hf & Hfr).
    unfold seed_compensation. rewrite Hslow. unfold bind.
    destruct (analogRead (_Pin d1) w2) as [centre w3].
    rewrite Hf. unfold defined.
    eexists. eexists. split; [reflexivity|].
    split; [exact Hcomp | exact Hfr].
Qed.

Lemma warmup_and_the_clock_witness :
  exists d' w',
    warmup (P := steady_board) 5 MAX_FREQ (PhoneDTMF_new 128) sim_start
      = Ok (d', w') /\
    _iCompensation d' = _iCompensation (PhoneDTMF_new 128) /\
    0 <= _iSamplesFrequence d' < 2 ^ 22.
Proof.
  apply (proj2 (warmup_and_the_clock (P := steady_board) 5 MAX_FREQ
                  (PhoneDTMF_new 128) sim_start)).
  - vm_compute. discriminate.
  - vm_compute. reflexivity.
Defined.
